(** * cgol: Conway's Game of Life on a terminal (src/cgol.c)

    A shallow embedding of the C program and the proofs of its
    specification.  C [int] values are integers of [Z] with the 32-bit
    two's-complement wrap-around written out ([wrap]); the two cell
    buffers are lists indexed from 0, and every access outside a buffer
    is undefined behaviour, modelled as [None] in the option monad. *)

From Stdlib Require Import ZArith Lia Ascii String DecimalString.
From stdpp Require Import base tactics option list.

Local Open Scope Z_scope.

(** ** Machine integers *)

Module Int.

Definition INT_MAX : Z := 2147483647.
Definition INT_MIN : Z := -2147483648.

(** Two's-complement reduction of a mathematical integer to an [int]. *)
Definition wrap (x : Z) : Z := (x + 2147483648) mod 4294967296 - 2147483648.

Definition in_range (x : Z) : Prop := INT_MIN ≤ x ≤ INT_MAX.

Definition add (a b : Z) : Z := wrap (a + b).
Definition sub (a b : Z) : Z := wrap (a - b).
Definition mul (a b : Z) : Z := wrap (a * b).

(** [a / b] and [a % b] truncate towards zero; a zero divisor is undefined. *)
Definition div (a b : Z) : option Z :=
  if b =? 0 then None else Some (wrap (Z.quot a b)).
Definition rem (a b : Z) : option Z :=
  if b =? 0 then None else Some (wrap (Z.rem a b)).

End Int.

Infix "+i" := Int.add (at level 50, left associativity).
Infix "-i" := Int.sub (at level 50, left associativity).
Infix "*i" := Int.mul (at level 40, left associativity).

(** ** Memory: an [int] buffer obtained from [calloc] *)

Definition load (m : list Z) (i : Z) : option Z :=
  if 0 <=? i then m !! Z.to_nat i else None.

Definition store (m : list Z) (i v : Z) : option (list Z) :=
  if (0 <=? i) && (i <? Z.of_nat (length m))
  then Some (<[Z.to_nat i := v]> m) else None.

(** ** Counted loops: [for(i = lo; i < hi; ++i) body]

    The body does not assign [i] or the bound, so the loop runs its body
    for [lo], [lo + 1], ..., [hi - 1]; [++i] stays below the [int] bound
    [hi] and cannot overflow. *)

Fixpoint for_iter {T : Type} (n : nat) (i : Z)
    (body : Z → T → option T) (s : T) : option T :=
  match n with
  | O => Some s
  | S n' => s' ← body i s; for_iter n' (i + 1) body s'
  end.

Definition for_lt {T : Type} (lo hi : Z) (body : Z → T → option T) (s : T)
    : option T :=
  for_iter (Z.to_nat (hi - lo)) lo body s.

(** ** The global variables of the program *)

Record state := State {
  gw : Z; gh : Z; gs : Z;          (* grid width, height, size *)
  grid : list Z; diff : list Z;    (* current and scratch buffer *)
  rows : Z; cols : Z;              (* terminal size *)
  generation : Z
}.

Definition set_grid (g : list Z) (st : state) : state :=
  State (gw st) (gh st) (gs st) g (diff st) (rows st) (cols st) (generation st).
Definition set_diff (d : list Z) (st : state) : state :=
  State (gw st) (gh st) (gs st) (grid st) d (rows st) (cols st) (generation st).
Definition set_generation (n : Z) (st : state) : state :=
  State (gw st) (gh st) (gs st) (grid st) (diff st) (rows st) (cols st) n.
Definition set_viewport (r c : Z) (st : state) : state :=
  State (gw st) (gh st) (gs st) (grid st) (diff st) r c (generation st).

(** ** neighbors *)

(** The array [sides] of [neighbors(pos)]: the flat index of each of the
    eight adjacent cells, or -1 where the cell would lie off the grid. *)
Definition sides (st : state) (pos : Z) : option (list Z) :=
  r ← Int.div pos (gw st);
  c ← Int.rem pos (gw st);
  let gw := gw st in
  let gh := gh st in
  Some [
    if (0 <=? r -i 1) && (0 <=? c -i 1) then (r -i 1) *i gw +i (c -i 1) else -1;
    if (0 <=? r -i 1) then (r -i 1) *i gw +i c else -1;
    if (0 <=? r -i 1) && (c +i 1 <? gw) then (r -i 1) *i gw +i (c +i 1) else -1;
    if (c +i 1 <? gw) then r *i gw +i (c +i 1) else -1;
    if (r +i 1 <? gh) && (c +i 1 <? gw) then (r +i 1) *i gw +i (c +i 1) else -1;
    if (r +i 1 <? gh) then (r +i 1) *i gw +i c else -1;
    if (r +i 1 <? gh) && (0 <=? c -i 1) then (r +i 1) *i gw +i (c -i 1) else -1;
    if (0 <=? c -i 1) then r *i gw +i (c -i 1) else -1
  ].

(** [n += sides[i] >= 0 ? grid[sides[i]] : 0] over the entries of [sides]. *)
Fixpoint sum_sides (g : list Z) (l : list Z) (n : Z) : option Z :=
  match l with
  | [] => Some n
  | s :: l' =>
      v ← (if 0 <=? s then load g s else Some 0);
      sum_sides g l' (n +i v)
  end.

Definition neighbors (st : state) (pos : Z) : option Z :=
  l ← sides st pos;
  sum_sides (grid st) l 0.

(** ** tick *)

(** The three-way branch of the first loop of [tick]. *)
Definition next_state (g n : Z) : Z :=
  if (g =? 1) && ((n <? 2) || (3 <? n)) then 0
  else if (g =? 0) && (n =? 3) then 1
  else g.

Definition tick_cell (i : Z) (st : state) : option state :=
  n ← neighbors st i;
  g ← load (grid st) i;
  d ← store (diff st) i (next_state g n);
  Some (set_diff d st).

Definition commit_cell (i : Z) (st : state) : option state :=
  g ← load (grid st) i;
  d ← load (diff st) i;
  if negb (g =? d)
  then g' ← store (grid st) i d; Some (set_grid g' st)
  else Some st.

Definition tick (st : state) : option state :=
  st1 ← for_lt 0 (gs st) tick_cell st;
  st2 ← for_lt 0 (gs st1) commit_cell st1;
  Some (set_generation (generation st2 +i 1) st2).

(** ** Terminal output *)

(** [printf("%d", n)] *)
Definition fmt_d (n : Z) : string := NilZero.string_of_int (Z.to_int n).

Definition ESC : string := String (ascii_of_nat 27) EmptyString.

(** VT100 escape sequences *)
Definition CLEARRIGHT : string := (ESC ++ "[0K")%string.
Definition CURPOS (a b : Z) : string :=
  (ESC ++ "[" ++ fmt_d a ++ ";" ++ fmt_d b ++ "H")%string.
Definition CURSON : string := (ESC ++ "[?25h")%string.
Definition CURSOFF : string := (ESC ++ "[?25l")%string.

(** [mvprintf(x, y, fmt, ...)]: move to line [y], column [x], then print. *)
Definition mvprintf (x y : Z) (text : string) : string :=
  (CURPOS y x ++ text)%string.

(** The middle dot U+22C5 of the header, as its three UTF-8 bytes. *)
Definition SDOT : string :=
  String (ascii_of_nat 226) (String (ascii_of_nat 139)
    (String (ascii_of_nat 133) EmptyString)).

(** The text of the first [mvprintf] of [draw], without the cursor move. *)
Definition header_text (st : state) : string :=
  ("Conway's Game of Life " ++ SDOT ++ " #" ++ fmt_d (generation st) ++
   " " ++ SDOT ++ " " ++ fmt_d (rows st) ++ "x" ++ fmt_d (cols st) ++
   CLEARRIGHT)%string.

Definition draw_cell (r c : Z) (st : state) (out : string) : option string :=
  g ← load (grid st) (r *i gw st +i c);
  Some (out ++ mvprintf (1 +i c) (2 +i r)
                  (if (g =? 0)%Z then " " else ESC ++ "[07m " ++ ESC ++ "[m"))%string.

(** The loop tests [r < rows - 1 && r < gh] and [c < cols && c < gw] are
    the bounds [Z.min (rows - 1) gh] and [Z.min cols gw]. *)
Definition draw (st : state) : option string :=
  let out0 := (CURSOFF ++ mvprintf 1 1 (header_text st))%string in
  out1 ← for_lt 0 (Z.min (rows st -i 1) (gh st))
           (λ r, for_lt 0 (Z.min (cols st) (gw st)) (λ c, draw_cell r c st))
           out0;
  Some (out1 ++ CURPOS (rows st) (cols st) ++ CURSON)%string.

(** [resize]: the only writer of the terminal size. *)
Definition resize (wsrow wscol : Z) (st : state) : state :=
  set_viewport wsrow wscol st.

(** ** Initial population *)

Definition NUL : ascii := ascii_of_nat 0.
Definition NL : ascii := ascii_of_nat 10.

(** The lines that successive [getline] calls return for a file: each
    ends with its newline, except possibly the last. *)
Fixpoint split_lines (cur : list ascii) (s : list ascii) : list (list ascii) :=
  match s with
  | [] => match cur with [] => [] | _ => [rev cur] end
  | ch :: s' =>
      if Ascii.eqb ch NL then rev (ch :: cur) :: split_lines [] s'
      else split_lines (ch :: cur) s'
  end.

(** [getline] into the buffer it is handed back: [gridfile] passes the
    same [line] and [len] to every call, so one buffer serves all the
    lines of the file.  A call writes the line and a terminating NUL at
    the start of the buffer and leaves behind them what earlier, longer
    lines wrote there.  [buf] is the part of the buffer written so far;
    [len = 0] makes the first call allocate, so that it starts empty. *)
Definition getline (buf line : list ascii) : list ascii :=
  (line ++ [NUL]) ++ drop (length line + 1) buf.

(** The inner loop of [gridfile] over the line buffer from [p] on.
    [p += 2] can step over the terminating NUL of the line, into what
    earlier lines left in the buffer; reading beyond every byte
    [getline] ever wrote is undefined. *)
Fixpoint scan_line (p : list ascii) (r c : Z) (st : state) : option state :=
  match p with
  | [] => None
  | ch :: rest =>
      if Ascii.eqb ch NUL || Ascii.eqb ch NL then Some st
      else
        g ← store (grid st) (r *i gw st +i c)
              (if Ascii.eqb ch "1"%char then 1 else 0);
        match rest with
        | [] => None
        | _ :: p' => scan_line p' r (c +i 1) (set_grid g st)
        end
  end.

Fixpoint scan_lines (ls : list (list ascii)) (buf : list ascii) (r : Z)
    (st : state) : option state :=
  match ls with
  | [] => Some st
  | line :: ls' =>
      let buf' := getline buf line in
      st' ← scan_line buf' r 0 st;
      scan_lines ls' buf' (r +i 1) st'
  end.

(** [gridfile]: [content] is what [fopen] found, [None] when the file
    cannot be opened.  The result carries the return value. *)
Definition gridfile (content : option (list ascii)) (st : state)
    : option (Z * state) :=
  match content with
  | None => Some (-1, st)
  | Some bytes =>
      st' ← scan_lines (split_lines [] bytes) [] 0 st;
      Some (0, st')
  end.

(** [gridrand]: [rnd k] is the value of the [k]-th call of [random()];
    the loop state pairs the globals with the number of calls made. *)
Definition rand_cell (rnd : nat → Z) (r c : Z) (sk : state * nat)
    : option (state * nat) :=
  let '(st, k) := sk in
  g ← store (grid st) (r *i gw st +i c) (if Z.rem (rnd k) 4 =? 0 then 1 else 0);
  Some (set_grid g st, S k).

Definition gridrand (rnd : nat → Z) (w h : Z) (sk : state * nat)
    : option (state * nat) :=
  for_lt 0 (Z.min h (gh (fst sk)))
    (λ r, for_lt 0 (Z.min w (gw (fst sk))) (λ c, rand_cell rnd r c)) sk.

(** ** Process results: a value, [exit(code)], or undefined behaviour *)

Inductive run (A : Type) : Type :=
  | Ret (a : A)
  | Exit (code : Z) (stderr : string)
  | Undef.
Arguments Ret {A} a.
Arguments Exit {A} code stderr.
Arguments Undef {A}.

#[global] Instance run_ret : MRet run := λ A a, Ret a.
#[global] Instance run_bind : MBind run := λ A B f m,
  match m with
  | Ret a => f a
  | Exit code err => Exit code err
  | Undef => Undef
  end.

Definition lift {A : Type} (o : option A) : run A :=
  match o with Some a => Ret a | None => Undef end.

(** What the process finds around it.  [e_version] is the macro
    [VERSION] of the build; [e_ws_row] and [e_ws_col] are what
    [ioctl(TIOCGWINSZ)] reports; [e_random k] is the [k]-th value of
    [random()] after [srandom(time(NULL))]; [e_fopen] gives a file's
    bytes when it can be opened; the two [e_calloc_*] flags say whether
    the first and the second [calloc] succeed; [e_strerror] is the text
    [perror] prints for [errno]. *)
Record env := Env {
  e_argv0 : string;
  e_version : string;
  e_ws_row : Z; e_ws_col : Z;
  e_calloc_grid : bool; e_calloc_diff : bool;
  e_fopen : string → option (list ascii);
  e_random : nat → Z;
  e_strerror : string
}.

(** [fmt[0] && fmt[strlen(fmt)-1] == ':'] *)
Fixpoint ends_with_colon (fmt : string) : bool :=
  match fmt with
  | EmptyString => false
  | String ch EmptyString => Ascii.eqb ch ":"%char
  | String _ rest => ends_with_colon rest
  end.

(** [die]: [text] is the formatted message of format [fmt]; what goes
    to standard error, and the exit with status 0. *)
Definition die_message (e : env) (fmt text : string) : string :=
  (text ++ (if ends_with_colon fmt
            then " " ++ e_strerror e ++ String NL EmptyString
            else String NL EmptyString))%string.

Definition die {A : Type} (e : env) (fmt text : string) : run A :=
  Exit 0 (die_message e fmt text).

Definition usage_message (e : env) : string :=
  die_message e "Usage: %s [-v] [-dgn <arg>] [file]"
    ("Usage: " ++ e_argv0 e ++ " [-v] [-dgn <arg>] [file]")%string.

Definition usage {A : Type} (e : env) : run A :=
  die e "Usage: %s [-v] [-dgn <arg>] [file]"
    ("Usage: " ++ e_argv0 e ++ " [-v] [-dgn <arg>] [file]")%string.

Definition ecalloc (e : env) (ok : bool) (nmemb : Z) : run (list Z) :=
  if ok then Ret (replicate (Z.to_nat nmemb) 0)
  else die e "Cannot allocate memory." "Cannot allocate memory.".

(** [atoi]: blanks, an optional sign, then decimal digits. *)
Definition is_space (ch : ascii) : bool :=
  let n := nat_of_ascii ch in
  (n =? 32)%nat || ((9 <=? n)%nat && (n <=? 13)%nat).

Definition digit_of (ch : ascii) : option Z :=
  let n := Z.of_nat (nat_of_ascii ch) in
  if (48 <=? n) && (n <=? 57) then Some (n - 48) else None.

Fixpoint atoi_digits (s : string) (acc : Z) : Z :=
  match s with
  | EmptyString => acc
  | String ch s' =>
      match digit_of ch with
      | Some d => atoi_digits s' (acc *i 10 +i d)
      | None => acc
      end
  end.

Fixpoint atoi (s : string) : Z :=
  match s with
  | EmptyString => 0
  | String ch s' =>
      if is_space ch then atoi s'
      else if Ascii.eqb ch "-"%char then Int.wrap (- atoi_digits s' 0)
      else if Ascii.eqb ch "+"%char then atoi_digits s' 0
      else atoi_digits s 0
  end.

(** The local variables of [main]. *)
Record config := Config { delay : Z; gen : Z; ticks : Z }.

(** The macros [ARGBEGIN], [EARGF] and [ARGEND] come from [arg.h], which
    is not part of the sources; the command line is taken as they hand
    it to the [switch] of [main]: each flag character with the argument
    [EARGF] finds for it ([None] when there is none), and the [argv[0]]
    left after the flags. *)
Record args := Args {
  a_flags : list (ascii * option string);
  a_file : option string
}.

Definition parse_flag (e : env) (f : ascii * option string) (cfg : config)
    : run config :=
  let '(ch, arg) := f in
  if Ascii.eqb ch "d"%char then
    match arg with
    | Some a => Ret (Config (atoi a) (gen cfg) (ticks cfg))
    | None => usage e
    end
  else if Ascii.eqb ch "g"%char then
    match arg with
    | Some a => Ret (Config (delay cfg) (atoi a) (ticks cfg))
    | None => usage e
    end
  else if Ascii.eqb ch "n"%char then
    match arg with
    | Some a => Ret (Config (delay cfg) (gen cfg) (atoi a))
    | None => usage e
    end
  else if Ascii.eqb ch "v"%char then
    die e ("cgol-" ++ e_version e)%string ("cgol-" ++ e_version e)%string
  else usage e.

Fixpoint parse_flags (e : env) (fs : list (ascii * option string))
    (cfg : config) : run config :=
  match fs with
  | [] => Ret cfg
  | f :: fs' => cfg' ← parse_flag e f cfg; parse_flags e fs' cfg'
  end.

(** The globals as the C runtime zero-initialises them. *)
Definition initial_state : state := State 0 0 0 [] [] 0 0 0.

(** [setup]: the terminal size from [ioctl(TIOCGWINSZ)]. *)
Definition setup (e : env) (st : state) : state :=
  resize (e_ws_row e) (e_ws_col e) st.

(** Lines 239-243 of [main]: default dimensions and the two buffers. *)
Definition alloc_grids (e : env) (st : state) : run state :=
  let gw' := if gw st =? 0 then 256 else gw st in
  let gh' := if gh st =? 0 then 256 else gh st in
  let gs' := gw' *i gw' in
  g ← ecalloc e (e_calloc_grid e) gs';
  d ← ecalloc e (e_calloc_diff e) gs';
  Ret (State gw' gh' gs' g d (rows st) (cols st) (generation st)).

(** Lines 245-252 of [main]: the initial population. *)
Definition populate (e : env) (file : option string) (st : state) : run state :=
  match file with
  | Some f =>
      '(rc, st') ← lift (gridfile (e_fopen e f) st);
      if rc =? 0 then Ret st'
      else die e "%s: %s:" (e_argv0 e ++ ": " ++ f ++ ":")%string
  | None =>
      '(st', _) ← lift (gridrand (e_random e) (cols st) (rows st) (st, O));
      Ret st'
  end.

(** ** The driver loop of [main] as a state machine *)

Inductive phase := WarmingUp | Running | Terminated.

Inductive event := Frame (out : string) | Sleep (ms : Z).

Record driver := Driver {
  d_state : state;
  d_delay : Z; d_gen : Z; d_ticks : Z;
  d_trace : list event              (* newest first *)
}.

(** One test-and-body of [while(gen-- > 0) tick();], or one pass through
    the body of [while(1) { draw(); tick(); if(!--ticks) break;
    msleep(delay); }]. *)
Definition step (pd : phase * driver) : option (phase * driver) :=
  let '(p, d) := pd in
  match p with
  | WarmingUp =>
      if 0 <? d_gen d then
        st' ← tick (d_state d);
        Some (WarmingUp,
              Driver st' (d_delay d) (d_gen d -i 1) (d_ticks d) (d_trace d))
      else
        Some (Running,
              Driver (d_state d) (d_delay d) (d_gen d -i 1) (d_ticks d) (d_trace d))
  | Running =>
      out ← draw (d_state d);
      st' ← tick (d_state d);
      let t := d_ticks d -i 1 in
      if t =? 0 then
        Some (Terminated,
              Driver st' (d_delay d) (d_gen d) t (Frame out :: d_trace d))
      else
        Some (Running,
              Driver st' (d_delay d) (d_gen d) t
                (Sleep (d_delay d) :: Frame out :: d_trace d))
  | Terminated => Some (Terminated, d)
  end.

Fixpoint steps (n : nat) (pd : phase * driver) : option (phase * driver) :=
  match n with
  | O => Some pd
  | S n' => pd' ← step pd; steps n' pd'
  end.

(** [main], run for [fuel] steps of the driver.  [Ret] is a process that
    is still looping when the fuel is spent. *)
Definition main (fuel : nat) (e : env) (a : args) : run (phase * driver) :=
  cfg ← parse_flags e (a_flags a) (Config 250 0 0);
  st ← alloc_grids e (setup e initial_state);
  st ← populate e (a_file a) st;
  '(p, d) ← lift (steps fuel
                    (WarmingUp, Driver st (delay cfg) (gen cfg) (ticks cfg) []));
  match p with
  | Terminated => Exit 0 EmptyString
  | _ => Ret (p, d)
  end.

(** ** Vocabulary of the specification *)

(** A state whose dimensions and buffers fit together, and whose
    counter is an [int]. *)
Record wf (st : state) : Prop := Wf {
  wf_gw : 0 < gw st;
  wf_gh : 0 < gh st;
  wf_gs : gs st = gw st * gh st;
  wf_max : gs st ≤ Int.INT_MAX;
  wf_grid : length (grid st) = Z.to_nat (gs st);
  wf_diff : length (diff st) = Z.to_nat (gs st);
  wf_generation : Int.in_range (generation st)
}.

(** Every cell of the current buffer is dead (0) or alive (1). *)
Definition binary (st : state) : Prop :=
  Forall (λ v, v = 0 ∨ v = 1) (grid st).

Definition in_grid (st : state) (r c : Z) : bool :=
  (0 <=? r) && (r <? gh st) && (0 <=? c) && (c <? gw st).

(** [get(row, col)], with every position off the grid dead. *)
Definition cell (st : state) (r c : Z) : Z :=
  if in_grid st r c
  then default 0 (grid st !! Z.to_nat (r * gw st + c))
  else 0.

(** The flat index of a position, or the sentinel -1 off the grid. *)
Definition side_at (st : state) (r c : Z) : Z :=
  if in_grid st r c then r * gw st + c else -1.

(** The eight adjacent positions, in the order of the array [sides]. *)
Definition around (r c : Z) : list (Z * Z) :=
  [ (r - 1, c - 1); (r - 1, c); (r - 1, c + 1); (r, c + 1);
    (r + 1, c + 1); (r + 1, c); (r + 1, c - 1); (r, c - 1) ].

(** The sum of a cell function over the eight adjacent positions. *)
Definition count8 (f : Z → Z → Z) (r c : Z) : Z :=
  f (r - 1) (c - 1) + f (r - 1) c + f (r - 1) (c + 1) + f r (c + 1) +
  f (r + 1) (c + 1) + f (r + 1) c + f (r + 1) (c - 1) + f r (c - 1).

Definition live_neighbors (st : state) (r c : Z) : Z := count8 (cell st) r c.

(** The rule of the specification: an alive cell survives with 2 or 3
    live neighbours, a dead cell is born with exactly 3. *)
Definition classic_rule (alive : bool) (n : Z) : bool :=
  if alive then (n =? 2) || (n =? 3) else (n =? 3).

(** The indices of the buffer that [neighbors(pos)] reads. *)
Definition examined (st : state) (pos : Z) : list Z :=
  filter (λ s, 0 ≤ s) (default [] (sides st pos)).

(** The value [tick] computes for the cell of flat index [k]. *)
Definition new_cell (st : state) (k : Z) : Z :=
  next_state (default 0 (grid st !! Z.to_nat k)) (default 0 (neighbors st k)).

Definition next_grid (st : state) : list Z :=
  (λ k : nat, new_cell st (Z.of_nat k)) <$> seq 0 (Z.to_nat (gs st)).

(** The commit step as the specification words it: the whole scratch
    buffer becomes the current one. *)
Definition commit_all (st : state) : state := set_grid (diff st) st.

(** The state one call of [tick] leaves. *)
Definition ticked (st : state) : state :=
  State (gw st) (gh st) (gs st) (next_grid st) (next_grid st)
    (rows st) (cols st) (generation st +i 1).

(** Patterns on the unbounded plane: the value of each position. *)
Definition pattern : Type := Z → Z → Z.

(** The grid of a state shows a pattern. *)
Definition shows (st : state) (pat : pattern) : Prop :=
  ∀ r c, 0 ≤ r < gh st → 0 ≤ c < gw st → cell st r c = pat r c.

(** One generation of a pattern on the unbounded plane. *)
Definition life (pat : pattern) : pattern :=
  λ r c, next_state (pat r c) (count8 pat r c).

(** The blinker centred on [(r, c)], lying and standing. *)
Definition hline (r c : Z) : pattern :=
  λ r' c', if (r' =? r) && (c - 1 <=? c') && (c' <=? c + 1) then 1 else 0.
Definition vline (r c : Z) : pattern :=
  λ r' c', if (c' =? c) && (r - 1 <=? r') && (r' <=? r + 1) then 1 else 0.

(** The state [random() % 4 ? 0 : 1] gives a cell. *)
Definition seed_bit (x : Z) : Z := if Z.rem x 4 =? 0 then 1 else 0.

(** The header as the claim words it: the generation number and the
    dimensions of the grid, width x height. *)
Definition claimed_header_text (st : state) : string :=
  ("Conway's Game of Life " ++ SDOT ++ " #" ++ fmt_d (generation st) ++
   " " ++ SDOT ++ " " ++ fmt_d (gw st) ++ "x" ++ fmt_d (gh st) ++
   CLEARRIGHT)%string.

(** A frame starts by hiding the cursor and printing [text] at the top
    left corner. *)
Definition shows_header (out text : string) : bool :=
  String.prefix (CURSOFF ++ mvprintf 1 1 text)%string out.

(** The default 256 x 256 grid, all dead, on a terminal of 24 lines and
    80 columns. *)
Definition default_24x80 : state :=
  State 256 256 65536 (replicate (Z.to_nat 65536) 0)
    (replicate (Z.to_nat 65536) 0) 24 80 0.

(** The messages of [die] on the other error paths of [main]. *)
Definition version_message (e : env) : string :=
  die_message e ("cgol-" ++ e_version e)%string ("cgol-" ++ e_version e)%string.
Definition memory_message (e : env) : string :=
  die_message e "Cannot allocate memory." "Cannot allocate memory.".
Definition file_message (e : env) (f : string) : string :=
  die_message e "%s: %s:" (e_argv0 e ++ ": " ++ f ++ ":")%string.

(** The cell a character of a pattern file stands for. *)
Definition char_bit (ch : ascii) : Z := if Ascii.eqb ch "1"%char then 1 else 0.

(** The cells the inner loop of [gridfile] decodes from a line buffer:
    one for every second character up to the first newline or NUL met;
    [None] when the scan steps over the end of the buffer. *)
Fixpoint line_cells (p : list ascii) : option (list Z) :=
  match p with
  | [] => None
  | ch :: rest =>
      if Ascii.eqb ch NUL || Ascii.eqb ch NL then Some []
      else match rest with
           | [] => None
           | _ :: p' => cs ← line_cells p'; Some (char_bit ch :: cs)
           end
  end.

(** A file fits a grid: it has at most [gh] lines, and each line decodes
    to at most [gw] cells without the scan leaving the line and its
    terminating NUL. *)
Definition fits (st : state) (ls : list (list ascii)) : Prop :=
  Z.of_nat (length ls) ≤ gh st ∧
  Forall (λ l, ∃ cs, line_cells (l ++ [NUL]) = Some cs ∧
                     Z.of_nat (length cs) ≤ gw st) ls.

(** The cell of row [r] and column [c] in the decoded lines, if any. *)
Definition file_cell (ls : list (list ascii)) (r c : Z) : option Z :=
  if (0 <=? r) && (0 <=? c) then
    l ← ls !! Z.to_nat r;
    cs ← line_cells (l ++ [NUL]);
    cs !! Z.to_nat c
  else None.

(** The content of the line buffer after each [getline] of a file of
    lines [ls], starting from the buffer [buf]. *)
Fixpoint line_buffers (ls : list (list ascii)) (buf : list ascii)
    : list (list ascii) :=
  match ls with
  | [] => []
  | l :: ls' => getline buf l :: line_buffers ls' (getline buf l)
  end.

Definition file_buffers (bytes : list ascii) : list (list ascii) :=
  line_buffers (split_lines [] bytes) [].

(** The scans of a file stay in the grid: there are at most [gh] line
    buffers, and the scan of each meets a NUL or a newline, in the line
    or in what earlier lines left behind it, after at most [gw] cells. *)
Definition scans_fit (st : state) (bs : list (list ascii)) : Prop :=
  Z.of_nat (length bs) ≤ gh st ∧
  Forall (λ b, ∃ cs, line_cells b = Some cs ∧
                     Z.of_nat (length cs) ≤ gw st) bs.

(** The cell of row [r] and column [c] that the scan of the [r]-th line
    buffer decodes, if any. *)
Definition buffer_cell (bs : list (list ascii)) (r c : Z) : option Z :=
  if (0 <=? r) && (0 <=? c) then
    b ← bs !! Z.to_nat r;
    cs ← line_cells b;
    cs !! Z.to_nat c
  else None.

(** The state [main] populates: the default grid, freshly allocated. *)
Definition fresh_state (e : env) : state :=
  State 256 256 65536 (replicate (Z.to_nat 65536) 0)
    (replicate (Z.to_nat 65536) 0) (e_ws_row e) (e_ws_col e) 0.

(** Pattern files that do not fit the grid. *)
Definition lines_of_1 (n : nat) : list ascii :=
  concat (replicate n ["1"%char; NL]).
Definition wide_line (cells : nat) : list ascii :=
  concat (replicate cells ["1"%char; " "%char]) ++ [NL].

(** [gridfile] returned 0 and left a state that passes the test [P]. *)
Definition loaded (o : option (Z * state)) (P : state → bool) : bool :=
  match o with
  | Some (rc, st) => (rc =? 0) && P st
  | None => false
  end.

(** A lying blinker in the middle of a 5 x 5 grid. *)
Definition blinker_5x5 : state :=
  State 5 5 25
    [0; 0; 0; 0; 0;
     0; 0; 0; 0; 0;
     0; 1; 1; 1; 0;
     0; 0; 0; 0; 0;
     0; 0; 0; 0; 0]
    (replicate 25 0) 24 80 0.

(** A terminal of 24 lines and 80 columns, enough memory, no readable
    file, and the draws 0, 1, 2, ... *)
Definition plain_env : env :=
  Env "cgol" "0.1" 24 80 true true (λ _, None) (λ k, Z.of_nat k)
    "No such file or directory".

(** More patterns: the empty plane, a single alive cell, and the block
    of four with its upper left cell at [(r, c)]. *)
Definition dead_plane : pattern := λ _ _, 0.
Definition dot (r c : Z) : pattern :=
  λ r' c', if (r' =? r) && (c' =? c) then 1 else 0.
Definition block (r c : Z) : pattern :=
  λ r' c',
    if (r <=? r') && (r' <=? r + 1) && (c <=? c') && (c' <=? c + 1)
    then 1 else 0.

(** [sigwinch]: the new terminal size from [ioctl], then a redraw. *)
Definition sigwinch (ws_row ws_col : Z) (st : state) : state * option string :=
  let st' := resize ws_row ws_col st in
  (st', draw st').

(** The frame [draw] prints, written out: what a cell looks like, the
    cells of a line of the terminal, and the whole frame. *)
Definition cell_text (g : Z) : string :=
  if g =? 0 then " "%string else (ESC ++ "[07m " ++ ESC ++ "[m")%string.

Definition join (l : list string) : string :=
  foldr String.append EmptyString l.

Definition row_text (st : state) (r : Z) : string :=
  join ((λ c, mvprintf (1 +i c) (2 +i r) (cell_text (cell st r c))) <$>
          seqZ 0 (Z.min (cols st) (gw st))).

Definition frame_text (st : state) : string :=
  (CURSOFF ++ mvprintf 1 1 (header_text st) ++
   join (row_text st <$> seqZ 0 (Z.min (rows st -i 1) (gh st))) ++
   CURPOS (rows st) (cols st) ++ CURSON)%string.

(** What a run of the main loop with a budget of [n] passes leaves on
    the terminal and in [msleep], oldest first: a frame per pass, a
    sleep between two passes. *)
Fixpoint budget_trace (n : nat) (delay : Z) (st : state) : list event :=
  match n with
  | O => []
  | S n' =>
      Frame (frame_text st) ::
      match n' with
      | O => []
      | S _ => Sleep delay :: budget_trace n' delay (ticked st)
      end
  end.

Definition is_frame (ev : event) : bool :=
  match ev with Frame _ => true | Sleep _ => false end.

(** ** msleep *)

Record timespec := Timespec { tv_sec : Z; tv_nsec : Z }.

(** The request [msleep(ms)] builds: whole seconds when there is at
    least one, the rest in nanoseconds. *)
Definition msleep_request (ms : Z) : timespec :=
  let r := Int.wrap (Z.quot ms 1000) in
  let sec := if 1 <=? r then r else 0 in
  let ms' := if 1 <=? r then ms -i r *i 1000 else ms in
  Timespec sec (if ms' =? 0 then 0 else ms' *i 1000000).

(** What a call of [nanosleep] can do: sleep the whole request, be
    interrupted by a signal and report the time left ([EINTR]), or fail.
    A request with a negative field or 1000000000 nanoseconds or more is
    refused ([EINVAL]). *)
Inductive nap := Slept | Interrupted (rem : timespec) | Failed.

Definition valid_timespec (ts : timespec) : bool :=
  (0 <=? tv_sec ts) && (0 <=? tv_nsec ts) && (tv_nsec ts <? 1000000000).

Definition nanosleep (o : nap) (req : timespec) : nap :=
  if valid_timespec req then o else Failed.

(** The loop [while((r = nanosleep(&req, &rem)) == -1 && errno == EINTR)
    req = rem;]: [naps] is what the successive calls do (a call beyond
    the list sleeps its request out); the result is [r] with the log of
    the calls made. *)
Fixpoint sleep_loop (naps : list nap) (req : timespec)
    : Z * list (timespec * nap) :=
  match naps with
  | [] =>
      match nanosleep Slept req with
      | Slept => (0, [(req, Slept)])
      | o => (-1, [(req, o)])
      end
  | o :: naps' =>
      match nanosleep o req with
      | Slept => (0, [(req, Slept)])
      | Failed => (-1, [(req, Failed)])
      | Interrupted rem =>
          let '(r, log) := sleep_loop naps' rem in
          (r, (req, Interrupted rem) :: log)
      end
  end.

Definition msleep (naps : list nap) (ms : Z) : Z * list (timespec * nap) :=
  sleep_loop naps (msleep_request ms).

(** Nanoseconds of a request, and the time spent asleep in a log. *)
Definition to_ns (ts : timespec) : Z := tv_sec ts * 1000000000 + tv_nsec ts.

Definition time_asleep (log : list (timespec * nap)) : Z :=
  foldr (λ call t,
           match call.2 with
           | Slept => to_ns call.1
           | Interrupted rem => to_ns call.1 - to_ns rem
           | Failed => 0
           end + t) 0 log.

(** The value the last flag [ch] of a command line gives, [d] when the
    flag is absent. *)
Definition last_arg (ch : ascii) (fs : list (ascii * option string)) (d : Z)
    : Z :=
  fold_left (λ acc f,
               if Ascii.eqb f.1 ch
               then match f.2 with Some a => atoi a | None => acc end
               else acc) fs d.

(** A flag that [main] accepts: one of [d], [g], [n] with its argument. *)
Definition good_flag (f : ascii * option string) : Prop :=
  f.1 ∈ ["d"; "g"; "n"]%char ∧ is_Some f.2.

(** More 5 x 5 grids: all dead, a single alive cell in the upper left
    corner, and a block in the lower right corner; a driver with a
    warm-up of 2 generations and a budget of 3 passes; a pattern file of
    one line. *)
Definition dead_5x5 : state := set_grid (replicate 25 0) blinker_5x5.
Definition dot_5x5 : state := set_grid (1 :: replicate 24 0) blinker_5x5.
Definition block_5x5 : state :=
  set_grid
    [0; 0; 0; 0; 0;
     0; 0; 0; 0; 0;
     0; 0; 0; 0; 0;
     0; 0; 0; 1; 1;
     0; 0; 0; 1; 1] blinker_5x5.
Definition driver_5x5 : driver := Driver blinker_5x5 250 2 3 [].
Definition file_1_0_1 : list ascii := ["1"; " "; "0"; " "; "1"; NL]%char.

(** A pattern file whose last line has odd length and no newline, and
    the lying blinker at the last generation an [int] can count. *)
Definition file_odd_tail : list ascii :=
  ["1"; " "; "1"; " "; "1"; " "; "1"; NL; "1"]%char.
Definition blinker_int_max : state := set_generation Int.INT_MAX blinker_5x5.

(** * Proofs *)

(** ** Machine integers *)

Lemma wrap_small x : Int.INT_MIN ≤ x ≤ Int.INT_MAX → Int.wrap x = x.
Proof.
  unfold Int.INT_MIN, Int.INT_MAX, Int.wrap. intros Hx.
  rewrite Z.mod_small by lia. lia.
Qed.

Lemma wrap_range x : Int.INT_MIN ≤ Int.wrap x ≤ Int.INT_MAX.
Proof.
  unfold Int.INT_MIN, Int.INT_MAX, Int.wrap.
  pose proof (Z.mod_pos_bound (x + 2147483648) 4294967296). lia.
Qed.

(** ** Buffers *)

Lemma load_lookup (m : list Z) (i : Z) :
  0 ≤ i → load m i = m !! Z.to_nat i.
Proof. intros Hi. unfold load. by rewrite (proj2 (Z.leb_le 0 i) Hi). Qed.

Lemma load_is_Some (m : list Z) (i : Z) :
  0 ≤ i < Z.of_nat (length m) → is_Some (load m i).
Proof.
  intros Hi. rewrite load_lookup by lia. apply lookup_lt_is_Some. lia.
Qed.

Lemma store_Some (m : list Z) (i v : Z) :
  0 ≤ i < Z.of_nat (length m) → store m i v = Some (<[Z.to_nat i := v]> m).
Proof.
  intros [H0 H1]. unfold store.
  by rewrite (proj2 (Z.leb_le 0 i) H0), (proj2 (Z.ltb_lt _ _) H1).
Qed.

Lemma store_None (m : list Z) (i v : Z) :
  Z.of_nat (length m) ≤ i → store m i v = None.
Proof.
  intros Hi. unfold store.
  rewrite (proj2 (Z.ltb_ge _ _) Hi). by rewrite andb_false_r.
Qed.

(** ** Loops *)

Lemma for_iter_inv {T : Type} (P : Z → T → Prop) (body : Z → T → option T) :
  ∀ (n : nat) (i : Z) (s : T),
    P i s →
    (∀ j t, i ≤ j < i + Z.of_nat n → P j t →
            ∃ t', body j t = Some t' ∧ P (j + 1) t') →
    ∃ s', for_iter n i body s = Some s' ∧ P (i + Z.of_nat n) s'.
Proof.
  induction n as [|n IH]; intros i s Hs Hbody.
  - exists s. split; [done|]. by replace (i + Z.of_nat 0) with i by lia.
  - destruct (Hbody i s) as (t & Ht & HP); [lia|done|].
    destruct (IH (i + 1) t HP) as (s' & Hs' & HP').
    { intros j u Hj. apply Hbody. lia. }
    exists s'. split.
    + simpl. rewrite Ht. simpl. exact Hs'.
    + by replace (i + Z.of_nat (S n)) with (i + 1 + Z.of_nat n) by lia.
Qed.

Lemma for_lt_inv {T : Type} (P : Z → T → Prop) (body : Z → T → option T)
    (lo hi : Z) (s : T) :
  lo ≤ hi →
  P lo s →
  (∀ j t, lo ≤ j < hi → P j t → ∃ t', body j t = Some t' ∧ P (j + 1) t') →
  ∃ s', for_lt lo hi body s = Some s' ∧ P hi s'.
Proof.
  intros Hle Hs Hbody. unfold for_lt.
  destruct (for_iter_inv P body (Z.to_nat (hi - lo)) lo s Hs) as (s' & H1 & H2).
  { intros j t Hj. apply Hbody. lia. }
  exists s'. split; [done|].
  by replace (lo + Z.of_nat (Z.to_nat (hi - lo))) with hi in H2 by lia.
Qed.

Lemma for_lt_empty {T : Type} (body : Z → T → option T) (lo hi : Z) (s : T) :
  hi ≤ lo → for_lt lo hi body s = Some s.
Proof.
  intros H. unfold for_lt. by replace (Z.to_nat (hi - lo)) with O by lia.
Qed.

(** ** neighbors *)

Lemma int_sub_small a b :
  Int.INT_MIN ≤ a - b ≤ Int.INT_MAX → a -i b = a - b.
Proof. apply wrap_small. Qed.

Lemma int_add_small a b :
  Int.INT_MIN ≤ a + b ≤ Int.INT_MAX → a +i b = a + b.
Proof. apply wrap_small. Qed.

Lemma wf_bounds st : wf st →
  gw st ≤ Int.INT_MAX ∧ gh st ≤ Int.INT_MAX ∧ 0 < gs st.
Proof.
  intros [Hw Hh Hs Hm _ _ _]. rewrite Hs in *. repeat split; nia.
Qed.

(** The flat index of an in-grid position is computed without overflow
    and lies inside the buffer. *)
Lemma index_small st r c :
  wf st → 0 ≤ r < gh st → 0 ≤ c < gw st →
  r *i gw st +i c = r * gw st + c ∧ 0 ≤ r * gw st + c < gs st.
Proof.
  intros Hwf Hr Hc. destruct (wf_bounds st Hwf) as (Hgw & Hgh & Hgs).
  destruct Hwf as [Hw Hh Hs Hm _ _ _].
  assert (0 ≤ r * gw st ≤ (gh st - 1) * gw st) by nia.
  assert (0 ≤ r * gw st + c < gs st) by nia.
  split; [|done].
  unfold Int.add, Int.mul, Int.INT_MAX in *.
  rewrite (wrap_small (r * gw st)) by (unfold Int.INT_MIN, Int.INT_MAX; lia).
  apply wrap_small. unfold Int.INT_MIN, Int.INT_MAX; lia.
Qed.

(** Row and column of a flat index. *)
Lemma pos_row_col st pos :
  wf st → 0 ≤ pos < gs st →
  0 ≤ pos / gw st < gh st ∧ 0 ≤ pos mod gw st < gw st ∧
  pos = pos / gw st * gw st + pos mod gw st.
Proof.
  intros [Hw Hh Hs Hm _ _ _] Hpos.
  pose proof (Z.mod_pos_bound pos (gw st) Hw).
  pose proof (Z.div_mod pos (gw st) ltac:(lia)).
  assert (0 ≤ pos / gw st) by (apply Z.div_pos; lia).
  assert (pos / gw st < gh st).
  { apply Z.div_lt_upper_bound; lia. }
  repeat split; lia.
Qed.

Lemma index_row_col st r c :
  wf st → 0 ≤ r < gh st → 0 ≤ c < gw st →
  (r * gw st + c) / gw st = r ∧ (r * gw st + c) mod gw st = c.
Proof.
  intros [Hw _ _ _ _ _ _] Hr Hc. split.
  - rewrite Z.add_comm, Z.div_add by lia. rewrite Z.div_small by lia. lia.
  - rewrite Z.add_comm, Z.mod_add by lia. apply Z.mod_small. lia.
Qed.

Ltac side_cases :=
  repeat match goal with
    | |- context [Z.leb ?a ?b] => destruct (Z.leb_spec a b)
    | |- context [Z.ltb ?a ?b] => destruct (Z.ltb_spec a b)
    end.

(** The array [sides] holds, in order, the flat index of each adjacent
    position inside the grid and -1 for each one outside. *)
Lemma sides_spec st pos :
  wf st → 0 ≤ pos < gs st →
  sides st pos =
    Some ((λ rc, side_at st rc.1 rc.2) <$> around (pos / gw st) (pos mod gw st)).
Proof.
  intros Hwf Hpos.
  destruct (pos_row_col st pos Hwf Hpos) as (Hr & Hc & _).
  destruct (wf_bounds st Hwf) as (Hgw & Hgh & Hgs).
  pose proof (wf_gw st Hwf) as Hw. pose proof (wf_max st Hwf) as Hm.
  unfold sides, Int.div, Int.rem.
  rewrite (proj2 (Z.eqb_neq (gw st) 0)) by lia. simpl.
  rewrite Z.quot_div_nonneg, Z.rem_mod_nonneg by lia.
  rewrite !wrap_small by (unfold Int.INT_MIN, Int.INT_MAX in *; lia).
  set (r := pos / gw st) in *. set (c := pos mod gw st) in *.
  unfold Int.INT_MAX in *.
  rewrite !(int_sub_small r 1), !(int_sub_small c 1),
    !(int_add_small r 1), !(int_add_small c 1)
    by (unfold Int.INT_MIN, Int.INT_MAX; lia).
  unfold around, side_at, in_grid. simpl.
  repeat f_equal;
    side_cases; simpl; try lia;
    apply (index_small st); (done || lia).
Qed.

Lemma in_grid_spec st r c :
  in_grid st r c = true ↔ 0 ≤ r < gh st ∧ 0 ≤ c < gw st.
Proof. unfold in_grid. rewrite !andb_true_iff. lia. Qed.

Lemma in_grid_false st r c :
  in_grid st r c = false ↔ ¬ (0 ≤ r < gh st ∧ 0 ≤ c < gw st).
Proof. rewrite <- in_grid_spec. by destruct (in_grid st r c). Qed.

(** An entry of [sides] is the sentinel exactly off the grid, and is
    otherwise an index of the buffer. *)
Lemma side_at_range st r c :
  wf st →
  (in_grid st r c = false ∧ side_at st r c = -1) ∨
  (in_grid st r c = true ∧ side_at st r c = r * gw st + c ∧
   0 ≤ side_at st r c < gs st).
Proof.
  intros Hwf. unfold side_at. destruct (in_grid st r c) eqn:Hin.
  - right. apply in_grid_spec in Hin as [Hr Hc].
    destruct (index_small st r c Hwf Hr Hc). auto.
  - left. auto.
Qed.

(** The term the loop of [neighbors] adds for an entry of [sides]. *)
Lemma side_load st r c :
  wf st →
  (if 0 <=? side_at st r c then load (grid st) (side_at st r c) else Some 0)
  = Some (cell st r c).
Proof.
  intros Hwf. unfold cell.
  destruct (side_at_range st r c Hwf) as [[Hin Hs]|(Hin & Hs & Hr)];
    rewrite Hin, Hs.
  - done.
  - rewrite Hs in Hr. rewrite (proj2 (Z.leb_le _ _)) by lia.
    rewrite load_lookup by lia.
    destruct (lookup_lt_is_Some_2 (grid st) (Z.to_nat (r * gw st + c)))
      as [v Hv]; [rewrite (wf_grid st Hwf); lia|].
    by rewrite Hv.
Qed.

Lemma cell_binary st r c :
  binary st → cell st r c = 0 ∨ cell st r c = 1.
Proof.
  intros Hb. unfold cell. destruct (in_grid st r c); [|by left].
  destruct (grid st !! Z.to_nat (r * gw st + c)) as [v|] eqn:Hv; [|by left].
  simpl. unfold binary in Hb. rewrite Forall_lookup in Hb. by eapply Hb.
Qed.

Lemma sum_sides_total (g : list Z) (l : list Z) (n : Z) :
  Forall (λ s, s < Z.of_nat (length g)) l → is_Some (sum_sides g l n).
Proof.
  intros Hl. revert n. induction Hl as [|s l Hs _ IH]; intros n; simpl.
  - by eexists.
  - destruct (Z.leb_spec 0 s).
    + destruct (load_is_Some g s) as [v Hv]; [lia|]. rewrite Hv. simpl. apply IH.
    + simpl. apply IH.
Qed.

Lemma sum_sides_small (g : list Z) (l vs : list Z) (n : Z) :
  Forall2 (λ s v, (if 0 <=? s then load g s else Some 0) = Some v ∧ 0 ≤ v ≤ 1)
    l vs →
  0 ≤ n → n + Z.of_nat (length l) ≤ Int.INT_MAX →
  sum_sides g l n = Some (n + foldr Z.add 0 vs).
Proof.
  intros Hl. revert n.
  induction Hl as [|s v l vs [Hs Hv] _ IH]; intros n Hn Hmax; simpl.
  - f_equal. lia.
  - rewrite Hs. simpl. simpl length in Hmax.
    rewrite int_add_small by (unfold Int.INT_MIN, Int.INT_MAX in *; lia).
    rewrite IH by lia. f_equal. lia.
Qed.

(** The loop of [neighbors] reads the buffer at the non-negative entries
    of [sides] and nowhere else. *)
Lemma sum_sides_ext (g g' : list Z) (l : list Z) : ∀ n,
  (∀ s, s ∈ l → 0 ≤ s → load g' s = load g s) →
  sum_sides g' l n = sum_sides g l n.
Proof.
  induction l as [|s l IH]; intros n Hsame; simpl; [done|].
  destruct (Z.leb_spec 0 s) as [Hs|Hs].
  - rewrite (Hsame s) by (done || apply list_elem_of_here).
    destruct (load g s) as [v|]; simpl; [|done].
    apply IH. intros s' Hin. apply Hsame. by apply list_elem_of_further.
  - simpl. apply IH. intros s' Hin. apply Hsame. by apply list_elem_of_further.
Qed.

Lemma neighbors_sides st pos l :
  sides st pos = Some l → neighbors st pos = sum_sides (grid st) l 0.
Proof. intros H. unfold neighbors. by rewrite H. Qed.

(** [neighbors] never reads outside the buffer. *)
Lemma neighbors_total st pos :
  wf st → 0 ≤ pos < gs st → is_Some (neighbors st pos).
Proof.
  intros Hwf Hpos.
  rewrite (neighbors_sides st pos _ (sides_spec st pos Hwf Hpos)).
  apply sum_sides_total. unfold around, fmap, list_fmap; simpl. rewrite (wf_grid st Hwf).
  pose proof (wf_bounds st Hwf) as (_ & _ & Hgs).
  repeat (apply Forall_cons; split;
    [match goal with |- context [side_at st ?r ?c] =>
       destruct (side_at_range st r c Hwf) as [[_ ->]|(_ & _ & ?)]; lia end|]).
  apply Forall_nil_2.
Qed.

(** On a grid of dead and alive cells, [neighbors] is the number of
    alive cells among the adjacent positions inside the grid. *)
Lemma neighbors_spec st pos :
  wf st → binary st → 0 ≤ pos < gs st →
  neighbors st pos = Some (live_neighbors st (pos / gw st) (pos mod gw st)).
Proof.
  intros Hwf Hb Hpos.
  rewrite (neighbors_sides st pos _ (sides_spec st pos Hwf Hpos)).
  set (r := pos / gw st). set (c := pos mod gw st).
  rewrite (sum_sides_small (grid st) _
             ((λ rc, cell st rc.1 rc.2) <$> around r c) 0).
  - f_equal. unfold live_neighbors, count8. simpl. lia.
  - unfold around. simpl.
    repeat (apply Forall2_cons; split;
      [split; [by apply side_load|
               match goal with |- context [cell st ?a ?b] =>
                 destruct (cell_binary st a b Hb) as [-> | ->]; lia end]|]).
    apply Forall2_nil_2.
  - lia.
  - simpl. unfold Int.INT_MAX. lia.
Qed.

(** ** tick *)

Lemma next_grid_length st : length (next_grid st) = Z.to_nat (gs st).
Proof. unfold next_grid. by rewrite length_fmap, length_seq. Qed.

Lemma next_grid_lookup st (k : nat) :
  (k < Z.to_nat (gs st))%nat →
  next_grid st !! k = Some (new_cell st (Z.of_nat k)).
Proof.
  intros Hk. unfold next_grid. rewrite list_lookup_fmap.
  by rewrite lookup_seq_lt.
Qed.

(** The first loop of [tick] fills the whole scratch buffer, reading the
    current buffer only. *)
Lemma tick_cells_loop st :
  wf st → for_lt 0 (gs st) tick_cell st = Some (set_diff (next_grid st) st).
Proof.
  intros Hwf. pose proof (wf_bounds st Hwf) as (_ & _ & Hgs).
  destruct (for_lt_inv
    (λ j s, ∃ d, s = set_diff d st ∧ length d = Z.to_nat (gs st) ∧
                 ∀ k : nat, Z.of_nat k < j → d !! k = Some (new_cell st (Z.of_nat k)))
    tick_cell 0 (gs st) st) as (s' & Hrun & d & -> & Hlen & Hd).
  - lia.
  - exists (diff st). split; [by destruct st|]. split; [apply Hwf|]. lia.
  - intros j t Hj (d & -> & Hlen & Hd).
    destruct (neighbors_total st j Hwf Hj) as [n Hn].
    destruct (load_is_Some (grid st) j) as [g Hg];
      [rewrite (wf_grid st Hwf); lia|].
    exists (set_diff (<[Z.to_nat j := next_state g n]> d) st). split.
    + unfold tick_cell.
      change (neighbors (set_diff d st) j) with (neighbors st j).
      change (grid (set_diff d st)) with (grid st).
      change (diff (set_diff d st)) with d.
      rewrite Hn, Hg. simpl. rewrite store_Some by lia. done.
    + eexists. split; [done|]. split; [by rewrite length_insert|].
      intros k Hk. destruct (decide (k = Z.to_nat j)) as [->|Hne].
      * rewrite list_lookup_insert_eq by lia. f_equal.
        unfold new_cell. rewrite Z2Nat.id by lia.
        rewrite load_lookup in Hg by lia. by rewrite Hn, Hg.
      * rewrite list_lookup_insert_ne by done. apply Hd. lia.
  - rewrite Hrun. do 2 f_equal. apply list_eq. intros k.
    destruct (decide (k < Z.to_nat (gs st))%nat) as [Hk|Hk].
    + rewrite next_grid_lookup by done. apply Hd. lia.
    + rewrite !lookup_ge_None_2; [done| |]; rewrite ?next_grid_length; lia.
Qed.

(** The second loop of [tick], which copies the cells that differ, does
    what copying the whole scratch buffer does. *)
Lemma commit_loop st :
  0 ≤ gs st →
  length (grid st) = Z.to_nat (gs st) →
  length (diff st) = Z.to_nat (gs st) →
  for_lt 0 (gs st) commit_cell st = Some (commit_all st).
Proof.
  intros Hgs Hg Hd.
  destruct (for_lt_inv
    (λ j s, ∃ g, s = set_grid g st ∧ length g = Z.to_nat (gs st) ∧
                 ∀ k : nat, Z.of_nat k < j → g !! k = diff st !! k)
    commit_cell 0 (gs st) st) as (s' & Hrun & g & -> & Hlen & Hcopy).
  - done.
  - exists (grid st). split; [by destruct st|]. split; [done|]. lia.
  - intros j t Hj (g & -> & Hlen & Hcopy).
    destruct (load_is_Some g j) as [x Hx]; [lia|].
    destruct (load_is_Some (diff st) j) as [y Hy]; [lia|].
    unfold commit_cell.
    change (grid (set_grid g st)) with g.
    change (diff (set_grid g st)) with (diff st).
    rewrite Hx, Hy. simpl.
    rewrite load_lookup in Hx, Hy by lia.
    destruct (Z.eqb_spec x y) as [->|Hxy]; simpl.
    + eexists. split; [done|]. exists g. split; [done|]. split; [done|].
      intros k Hk. destruct (decide (k = Z.to_nat j)) as [->|Hne].
      * by rewrite Hx, Hy.
      * apply Hcopy. lia.
    + rewrite store_Some by lia. simpl.
      eexists. split; [done|]. eexists. split; [done|].
      split; [by rewrite length_insert|].
      intros k Hk. destruct (decide (k = Z.to_nat j)) as [->|Hne].
      * rewrite list_lookup_insert_eq by lia. by rewrite Hy.
      * rewrite list_lookup_insert_ne by done. apply Hcopy. lia.
  - rewrite Hrun. unfold commit_all. do 2 f_equal. apply list_eq. intros k.
    destruct (decide (k < Z.to_nat (gs st))%nat) as [Hk|Hk].
    + apply Hcopy. lia.
    + rewrite !lookup_ge_None_2; [done| |]; lia.
Qed.

Lemma tick_closed st : wf st → tick st = Some (ticked st).
Proof.
  intros Hwf. pose proof (wf_bounds st Hwf) as (_ & _ & Hgs).
  pose proof (commit_loop (set_diff (next_grid st) st)) as Hc. simpl in Hc.
  unfold tick. rewrite tick_cells_loop by done. simpl.
  rewrite Hc; [done|lia|apply Hwf|apply next_grid_length].
Qed.

Lemma ticked_wf st : wf st → wf (ticked st).
Proof.
  intros [Hw Hh Hs Hm Hg Hd Hn].
  constructor; simpl; try done; (apply next_grid_length || apply wrap_range).
Qed.

(** The branch of [tick] is the classic rule on dead and alive cells,
    and leaves any other value as it is. *)
Lemma next_state_classic g n :
  g = 0 ∨ g = 1 →
  next_state g n = if classic_rule (g =? 1) n then 1 else 0.
Proof.
  unfold next_state, classic_rule. intros [-> | ->]; simpl;
    destruct (Z.ltb_spec n 2), (Z.ltb_spec 3 n), (Z.eqb_spec n 2),
      (Z.eqb_spec n 3); simpl; lia.
Qed.

Lemma next_state_other g n : g ≠ 0 → g ≠ 1 → next_state g n = g.
Proof.
  intros H0 H1. unfold next_state.
  by rewrite (proj2 (Z.eqb_neq g 1) H1), (proj2 (Z.eqb_neq g 0) H0).
Qed.

Lemma next_state_binary g n :
  g = 0 ∨ g = 1 → next_state g n = 0 ∨ next_state g n = 1.
Proof.
  intros Hg. rewrite next_state_classic by done.
  destruct (classic_rule _ _); auto.
Qed.

Lemma cell_lookup st r c :
  wf st → 0 ≤ r < gh st → 0 ≤ c < gw st →
  grid st !! Z.to_nat (r * gw st + c) = Some (cell st r c).
Proof.
  intros Hwf Hr Hc. unfold cell.
  rewrite (proj2 (in_grid_spec st r c)) by done.
  destruct (index_small st r c Hwf Hr Hc) as [_ Hi].
  destruct (lookup_lt_is_Some_2 (grid st) (Z.to_nat (r * gw st + c)))
    as [v Hv]; [rewrite (wf_grid st Hwf); lia|].
  by rewrite Hv.
Qed.

(** After [tick], every cell holds the rule applied to its old state and
    to its neighbour count in the old grid. *)
Lemma ticked_cell st r c :
  wf st → binary st → 0 ≤ r < gh st → 0 ≤ c < gw st →
  cell (ticked st) r c = next_state (cell st r c) (live_neighbors st r c).
Proof.
  intros Hwf Hb Hr Hc.
  destruct (index_small st r c Hwf Hr Hc) as [_ Hi].
  destruct (index_row_col st r c Hwf Hr Hc) as [Hrow Hcol].
  pose proof (cell_lookup (ticked st) r c (ticked_wf st Hwf) Hr Hc) as Hnew.
  simpl in Hnew. rewrite next_grid_lookup in Hnew by lia.
  injection Hnew as <-. unfold new_cell. rewrite Z2Nat.id by lia.
  rewrite cell_lookup, neighbors_spec by done. simpl.
  by rewrite Hrow, Hcol.
Qed.

Lemma ticked_binary st : wf st → binary st → binary (ticked st).
Proof.
  intros Hwf Hb. unfold binary. simpl. apply Forall_lookup. intros k v Hv.
  pose proof (lookup_lt_Some _ _ _ Hv) as Hk. rewrite next_grid_length in Hk.
  rewrite next_grid_lookup in Hv by done. injection Hv as <-.
  unfold new_cell. apply next_state_binary.
  destruct (grid st !! Z.to_nat (Z.of_nat k)) as [g|] eqn:Hg; [|by left].
  simpl. unfold binary in Hb. rewrite Forall_lookup in Hb. by eapply Hb.
Qed.

(** C1: one call of [tick] is one synchronous generation: every cell of
    the grid becomes the classic rule applied to its state before the
    call and to its number of alive neighbours in the grid before the
    call (alive survives with 2 or 3, dead is born with exactly 3).  The
    generation counter grows by exactly 1 on every call below [INT_MAX];
    the call at [INT_MAX] overflows the [int]: with wrap-around the
    counter then reads [INT_MIN], not one more. *)
Theorem tick_synchronous_generation st :
  wf st → binary st →
  ∃ st', tick st = Some st' ∧
    generation st' = generation st +i 1 ∧
    (generation st < Int.INT_MAX → generation st' = generation st + 1) ∧
    (generation st = Int.INT_MAX →
     generation st' = Int.INT_MIN ∧ generation st' ≠ generation st + 1) ∧
    gw st' = gw st ∧ gh st' = gh st ∧ gs st' = gs st ∧
    ∀ r c, 0 ≤ r < gh st → 0 ≤ c < gw st →
      let n := live_neighbors st r c in
      cell st' r c = next_state (cell st r c) n ∧
      (cell st r c = 1 → cell st' r c = if (n =? 2) || (n =? 3) then 1 else 0) ∧
      (cell st r c = 0 → cell st' r c = if n =? 3 then 1 else 0) ∧
      cell st' r c = if classic_rule (cell st r c =? 1) n then 1 else 0.
Proof.
  intros Hwf Hb. exists (ticked st). split; [by apply tick_closed|].
  split; [done|]. split.
  { intros Hgen. destruct (wf_generation st Hwf) as [Hmin _].
    simpl. apply int_add_small.
    unfold Int.INT_MAX, Int.INT_MIN in *; lia. }
  split.
  { intros Hgen. simpl. rewrite Hgen. split; [reflexivity|].
    unfold Int.INT_MAX. intros H. discriminate H. }
  do 3 (split; [done|]).
  intros r c Hr Hc n.
  pose proof (ticked_cell st r c Hwf Hb Hr Hc) as Hcell. fold n in Hcell.
  pose proof (next_state_classic (cell st r c) n (cell_binary st r c Hb)) as Hrule.
  rewrite Hcell. split; [done|]. rewrite Hrule.
  repeat split; try done; intros ->; done.
Qed.

(** C10: the loop that copies only the differing cells is the
    unconditional copy of the whole scratch buffer; after [tick] the
    current buffer is the scratch buffer, cell for cell; and what the
    scratch buffer held before the call does not matter, the first loop
    writing every cell of it. *)
Theorem tick_commit_copies_scratch st :
  wf st →
  for_lt 0 (gs st) commit_cell st = Some (commit_all st) ∧
  (∃ st1 st', for_lt 0 (gs st) tick_cell st = Some st1 ∧
     tick st = Some st' ∧
     st' = set_generation (generation st +i 1) (commit_all st1) ∧
     grid st' = diff st' ∧
     ∀ k : nat, grid st' !! k = diff st' !! k) ∧
  (∀ d, length d = length (diff st) → tick (set_diff d st) = tick st).
Proof.
  intros Hwf. pose proof (wf_bounds st Hwf) as (_ & _ & Hgs).
  split; [apply commit_loop; [lia|apply Hwf..]|]. split.
  - exists (set_diff (next_grid st) st), (ticked st).
    split; [by apply tick_cells_loop|]. split; [by apply tick_closed|].
    done.
  - intros d Hd. rewrite !tick_closed; [done|done|].
    destruct Hwf as [Hw Hh Hs Hm Hg Hdl Hn].
    constructor; simpl; (done || congruence).
Qed.

(** ** The cells [neighbors] looks at *)

Lemma filter_side_at st (ps : list (Z * Z)) :
  wf st →
  filter (λ s, 0 ≤ s) ((λ rc, side_at st rc.1 rc.2) <$> ps) =
  (λ rc, rc.1 * gw st + rc.2) <$>
    filter (λ rc, in_grid st rc.1 rc.2 = true) ps.
Proof.
  intros Hwf. induction ps as [|[r c] ps IH]; [done|].
  rewrite fmap_cons, !filter_cons, IH. simpl.
  destruct (side_at_range st r c Hwf) as [[Hin Hs]|(Hin & Hs & Hr)];
    rewrite Hin, Hs.
  - rewrite decide_False by lia. by rewrite decide_False by done.
  - rewrite Hs in Hr. rewrite decide_True by lia. by rewrite decide_True by done.
Qed.

(** The indices read are those of the adjacent positions inside the grid. *)
Lemma examined_spec st pos :
  wf st → 0 ≤ pos < gs st →
  examined st pos =
  (λ rc, rc.1 * gw st + rc.2) <$>
    filter (λ rc, in_grid st rc.1 rc.2 = true)
      (around (pos / gw st) (pos mod gw st)).
Proof.
  intros Hwf Hpos. unfold examined. rewrite sides_spec by done.
  exact (filter_side_at st _ Hwf).
Qed.

Lemma around_in_grid_le_8 st r c :
  (length (filter (λ rc, in_grid st rc.1 rc.2 = true) (around r c)) ≤ 8)%nat.
Proof. etrans; [apply length_filter|]. done. Qed.

(** At a corner at most three adjacent positions are inside the grid. *)
Lemma around_corner st r c :
  (r = 0 ∨ r = gh st - 1) → (c = 0 ∨ c = gw st - 1) →
  (length (filter (λ rc, in_grid st rc.1 rc.2 = true) (around r c)) ≤ 3)%nat.
Proof.
  intros Hr Hc. unfold around. rewrite !filter_cons, filter_nil.
  repeat case_decide;
    repeat match goal with
      | H : in_grid _ _ _ = true |- _ => apply in_grid_spec in H; simpl in H
      end;
    simpl; lia.
Qed.

(** C2: for every cell position inside the grid, [neighbors] builds the
    eight entries of [sides] from the eight adjacent positions, an entry
    being the sentinel -1 exactly when its position is outside
    [0,gh) x [0,gw) (so that it adds 0: no wrap-around), and the flat
    index of the position otherwise; the indices it reads are those of
    the adjacent positions inside the grid, at most 8, all inside
    [0, gw * gh); the call never leaves the buffer, and its result
    depends on no other cell; on dead-or-alive cells the result is the
    number of alive adjacent cells inside the grid; and at a corner at
    most 3 positions are read. *)
Theorem neighbors_hard_boundary st pos :
  wf st → 0 ≤ pos < gw st * gh st →
  let r := pos / gw st in
  let c := pos mod gw st in
  sides st pos = Some ((λ rc, side_at st rc.1 rc.2) <$> around r c) ∧
  (∀ r' c', (r', c') ∈ around r c →
     (in_grid st r' c' = false →
        side_at st r' c' = -1 ∧ cell st r' c' = 0 ∧
        (if 0 <=? side_at st r' c'
         then load (grid st) (side_at st r' c') else Some 0) = Some 0) ∧
     (in_grid st r' c' = true →
        side_at st r' c' = r' * gw st + c' ∧
        0 ≤ side_at st r' c' < gw st * gh st)) ∧
  examined st pos =
    ((λ rc, rc.1 * gw st + rc.2) <$>
       filter (λ rc, in_grid st rc.1 rc.2 = true) (around r c)) ∧
  Forall (λ s, 0 ≤ s < gw st * gh st) (examined st pos) ∧
  (length (examined st pos) ≤ 8)%nat ∧
  is_Some (neighbors st pos) ∧
  (∀ st', gw st' = gw st → gh st' = gh st →
     (∀ s, s ∈ examined st pos → load (grid st') s = load (grid st) s) →
     neighbors st' pos = neighbors st pos) ∧
  (binary st → neighbors st pos = Some (live_neighbors st r c)) ∧
  ((r = 0 ∨ r = gh st - 1) → (c = 0 ∨ c = gw st - 1) →
   (length (examined st pos) ≤ 3)%nat).
Proof.
  intros Hwf Hpos r c. rewrite <- (wf_gs st Hwf) in *.
  pose proof (examined_spec st pos Hwf Hpos) as Hex. fold r c in Hex.
  split; [by apply sides_spec|].
  split.
  { intros r' c' _. split; intros Hin.
    - destruct (side_at_range st r' c' Hwf) as [[_ Hs]|(Hin' & _)];
        [|congruence].
      unfold cell. by rewrite Hs, Hin.
    - destruct (side_at_range st r' c' Hwf) as [[Hin' _]|(_ & Hs & Hr)];
        [congruence|done]. }
  split; [done|].
  split.
  { rewrite Hex. apply Forall_fmap, Forall_forall. intros [r' c'] Hin.
    apply list_elem_of_filter in Hin as [Hin _]. simpl in *.
    apply in_grid_spec in Hin as [Hr' Hc'].
    by destruct (index_small st r' c' Hwf Hr' Hc'). }
  split; [rewrite Hex, length_fmap; apply around_in_grid_le_8|].
  split; [by apply neighbors_total|].
  split.
  { intros st' Hw Hh Hsame.
    pose proof (sides_spec st pos Hwf Hpos) as Hsides.
    assert (sides st' pos = sides st pos) as Hsides'
      by (unfold sides; by rewrite Hw, Hh).
    rewrite (neighbors_sides st pos _ Hsides).
    rewrite (neighbors_sides st' pos _ (eq_trans Hsides' Hsides)).
    apply sum_sides_ext. intros s Hin Hs. apply Hsame.
    unfold examined. rewrite Hsides. simpl.
    by apply list_elem_of_filter. }
  split; [intros Hb; by apply neighbors_spec|].
  intros Hr Hc. rewrite Hex, length_fmap. by apply around_corner.
Qed.

(** ** Patterns *)

Lemma shows_binary st pat :
  wf st → shows st pat → (∀ r c, pat r c = 0 ∨ pat r c = 1) → binary st.
Proof.
  intros Hwf Hsh Hpat. apply Forall_lookup. intros k v Hv.
  pose proof (lookup_lt_Some _ _ _ Hv) as Hk. rewrite (wf_grid st Hwf) in Hk.
  destruct (pos_row_col st (Z.of_nat k) Hwf) as (Hr & Hc & Hpos); [lia|].
  pose proof (cell_lookup st _ _ Hwf Hr Hc) as Hcell.
  rewrite <- Hpos, Nat2Z.id, Hv in Hcell. injection Hcell as ->.
  rewrite Hsh by done. apply Hpat.
Qed.

Lemma binary_of_cells st :
  wf st →
  (∀ r c, 0 ≤ r < gh st → 0 ≤ c < gw st → cell st r c = 0 ∨ cell st r c = 1) →
  binary st.
Proof.
  intros Hwf Hcells. apply Forall_lookup. intros k v Hv.
  pose proof (lookup_lt_Some _ _ _ Hv) as Hk. rewrite (wf_grid st Hwf) in Hk.
  destruct (pos_row_col st (Z.of_nat k) Hwf) as (Hr & Hc & Hpos); [lia|].
  pose proof (cell_lookup st _ _ Hwf Hr Hc) as Hcell.
  rewrite <- Hpos, Nat2Z.id, Hv in Hcell. injection Hcell as ->.
  by apply Hcells.
Qed.

Lemma shows_cell st pat r c :
  shows st pat → (∀ r c, pat r c ≠ 0 → 0 ≤ r < gh st ∧ 0 ≤ c < gw st) →
  cell st r c = pat r c.
Proof.
  intros Hsh Hin. destruct (in_grid st r c) eqn:Hg.
  - apply in_grid_spec in Hg as [Hr Hc]. by apply Hsh.
  - unfold cell. rewrite Hg. apply in_grid_false in Hg.
    destruct (decide (pat r c = 0)) as [->|Hne]; [done|].
    by destruct Hg; apply Hin.
Qed.

(** A pattern that fits in the grid evolves on the grid as it does on
    the unbounded plane. *)
Lemma ticked_shows st pat :
  wf st → shows st pat → (∀ r c, pat r c = 0 ∨ pat r c = 1) →
  (∀ r c, pat r c ≠ 0 → 0 ≤ r < gh st ∧ 0 ≤ c < gw st) →
  shows (ticked st) (life pat).
Proof.
  intros Hwf Hsh Hpat Hin r c Hr Hc.
  rewrite ticked_cell by eauto using shows_binary.
  unfold life, live_neighbors, count8.
  by rewrite !(shows_cell st pat) by done.
Qed.

Lemma shows_ext st pat pat' :
  (∀ r c, pat r c = pat' r c) → shows st pat → shows st pat'.
Proof. intros Heq Hsh r c Hr Hc. rewrite <- Heq. by apply Hsh. Qed.

Lemma shows_grid_eq st st' pat :
  wf st → wf st' → gw st' = gw st → gh st' = gh st → gs st' = gs st →
  shows st pat → shows st' pat → grid st' = grid st.
Proof.
  intros Hwf Hwf' Hw Hh Hs Hsh Hsh'. apply list_eq. intros k.
  destruct (decide (k < Z.to_nat (gs st))%nat) as [Hk|Hk].
  - destruct (pos_row_col st (Z.of_nat k) Hwf) as (Hr & Hc & Hpos); [lia|].
    pose proof (cell_lookup st _ _ Hwf Hr Hc) as H1.
    pose proof (cell_lookup st' (Z.of_nat k / gw st) (Z.of_nat k mod gw st) Hwf')
      as H2.
    rewrite Hw, Hh in H2. specialize (H2 Hr Hc).
    rewrite <- Hpos, Nat2Z.id in H1, H2.
    rewrite H1, H2. f_equal. rewrite Hsh by done.
    apply Hsh'; by rewrite ?Hw, ?Hh.
  - rewrite !lookup_ge_None_2; [done| |].
    + rewrite (wf_grid st Hwf). lia.
    + rewrite (wf_grid st' Hwf'), Hs. lia.
Qed.

Ltac settle_comparisons :=
  repeat (match goal with
    | |- context [Z.eqb ?a ?b] =>
        destruct (Z.eqb_spec a b); try (exfalso; lia)
    | |- context [Z.leb ?a ?b] =>
        destruct (Z.leb_spec a b); try (exfalso; lia)
    | |- context [Z.ltb ?a ?b] =>
        destruct (Z.ltb_spec a b); try (exfalso; lia)
    end; cbn [andb orb]).

Lemma life_hline r c r' c' : life (hline r c) r' c' = vline r c r' c'.
Proof.
  unfold life, count8, hline, vline.
  assert (r' < r - 1 ∨ r' = r - 1 ∨ r' = r ∨ r' = r + 1 ∨ r + 1 < r')
    as [Hr|[Hr|[Hr|[Hr|Hr]]]] by lia;
  assert (c' < c - 2 ∨ c' = c - 2 ∨ c' = c - 1 ∨ c' = c ∨ c' = c + 1 ∨
          c' = c + 2 ∨ c + 2 < c')
    as [Hc|[Hc|[Hc|[Hc|[Hc|[Hc|Hc]]]]]] by lia;
  settle_comparisons; reflexivity.
Qed.

Lemma life_vline r c r' c' : life (vline r c) r' c' = hline r c r' c'.
Proof.
  unfold life, count8, hline, vline.
  assert (c' < c - 1 ∨ c' = c - 1 ∨ c' = c ∨ c' = c + 1 ∨ c + 1 < c')
    as [Hc|[Hc|[Hc|[Hc|Hc]]]] by lia;
  assert (r' < r - 2 ∨ r' = r - 2 ∨ r' = r - 1 ∨ r' = r ∨ r' = r + 1 ∨
          r' = r + 2 ∨ r + 2 < r')
    as [Hr|[Hr|[Hr|[Hr|[Hr|[Hr|Hr]]]]]] by lia;
  settle_comparisons; reflexivity.
Qed.

Lemma hline_binary r c r' c' : hline r c r' c' = 0 ∨ hline r c r' c' = 1.
Proof. unfold hline. destruct (_ && _); auto. Qed.

Lemma vline_binary r c r' c' : vline r c r' c' = 0 ∨ vline r c r' c' = 1.
Proof. unfold vline. destruct (_ && _); auto. Qed.

Lemma hline_support r c r' c' :
  hline r c r' c' ≠ 0 → r' = r ∧ c - 1 ≤ c' ≤ c + 1.
Proof. unfold hline. settle_comparisons; done || lia. Qed.

Lemma vline_support r c r' c' :
  vline r c r' c' ≠ 0 → c' = c ∧ r - 1 ≤ r' ≤ r + 1.
Proof. unfold vline. settle_comparisons; done || lia. Qed.

(** A blinker whose three lying and three standing cells are inside the
    grid turns in one [tick] and is back after two. *)
Lemma blinker_turns st r c :
  wf st → 1 ≤ r → r + 1 < gh st → 1 ≤ c → c + 1 < gw st →
  shows st (hline r c) →
  shows (ticked st) (vline r c) ∧
  shows (ticked (ticked st)) (hline r c) ∧
  grid (ticked (ticked st)) = grid st.
Proof.
  intros Hwf Hr1 Hr2 Hc1 Hc2 Hsh.
  assert (shows (ticked st) (vline r c)) as Hv.
  { apply (shows_ext _ (life (hline r c))); [apply life_hline|].
    apply ticked_shows; [done|done|apply hline_binary|].
    intros r' c' Hne. apply hline_support in Hne. lia. }
  assert (shows (ticked (ticked st)) (hline r c)) as Hh.
  { apply (shows_ext _ (life (vline r c))); [apply life_vline|].
    apply ticked_shows; [by apply ticked_wf|done|apply vline_binary|].
    intros r' c' Hne. apply vline_support in Hne. simpl. lia. }
  repeat split; [done..|].
  apply (shows_grid_eq st _ (hline r c)); auto using ticked_wf.
Qed.

(** C3: a grid that shows a lying line of three alive cells, with the
    8-neighbourhoods of the three inside the grid and every other cell
    dead, shows after one [tick] the standing line of three through the
    same middle cell and nothing else, and after a second [tick] is the
    grid it was: the blinker has period 2. *)
Theorem blinker_period_2 st r c :
  wf st →
  0 ≤ r - 1 → r + 1 < gh st → 0 ≤ c - 2 → c + 2 < gw st →
  shows st (hline r c) →
  ∃ st1 st2,
    tick st = Some st1 ∧ shows st1 (vline r c) ∧
    tick st1 = Some st2 ∧ shows st2 (hline r c) ∧
    grid st2 = grid st ∧
    grid st1 ≠ grid st.
Proof.
  intros Hwf Hr1 Hr2 Hc1 Hc2 Hsh.
  destruct (blinker_turns st r c) as (Hv & Hh & Heq); [done|lia..|done|].
  exists (ticked st), (ticked (ticked st)).
  split; [by apply tick_closed|]. split; [done|].
  split; [apply tick_closed; by apply ticked_wf|]. split; [done|].
  split; [done|].
  intros Hsame.
  pose proof (cell_lookup st r (c - 1) Hwf ltac:(lia) ltac:(lia)) as H1.
  pose proof (cell_lookup (ticked st) r (c - 1) (ticked_wf st Hwf)
                ltac:(simpl; lia) ltac:(simpl; lia)) as H2.
  rewrite Hsame in H2. simpl gw in H2. rewrite H1 in H2. injection H2 as H2.
  rewrite Hsh, Hv in H2 by (simpl; lia).
  unfold hline, vline in H2. revert H2. settle_comparisons. done.
Qed.

(** ** gridrand *)

Lemma set_grid_wf st g :
  wf st → length g = length (grid st) → wf (set_grid g st).
Proof.
  intros [Hw Hh Hs Hm Hg Hd Hn] Hlen.
  constructor; simpl; try done. congruence.
Qed.

Lemma row_div_mod gw r j :
  0 < gw → r * gw ≤ j < (r + 1) * gw → j / gw = r ∧ j mod gw = j - r * gw.
Proof.
  intros Hgw Hj. split.
  - symmetry. apply (Z.div_unique j gw r (j - r * gw)); lia.
  - symmetry. apply (Z.mod_unique j gw r (j - r * gw)); lia.
Qed.

(** The inner loop of [gridrand] on row [r]: the first [W] cells of the
    row take the next [W] draws, in order. *)
Lemma rand_row rnd st k0 r W :
  wf st → 0 ≤ r < gh st → 0 ≤ W ≤ gw st →
  ∃ g, for_lt 0 W (rand_cell rnd r) (st, k0)
         = Some (set_grid g st, (k0 + Z.to_nat W)%nat) ∧
       length g = length (grid st) ∧
       ∀ j : nat, g !! j =
         if decide (r * gw st ≤ Z.of_nat j < r * gw st + W)
         then Some (seed_bit (rnd (k0 + Z.to_nat (Z.of_nat j - r * gw st))%nat))
         else grid st !! j.
Proof.
  intros Hwf Hr HW.
  destruct (for_lt_inv
    (λ c sk, ∃ g, sk = (set_grid g st, (k0 + Z.to_nat c)%nat) ∧
       length g = length (grid st) ∧
       ∀ j : nat, g !! j =
         if decide (r * gw st ≤ Z.of_nat j < r * gw st + c)
         then Some (seed_bit (rnd (k0 + Z.to_nat (Z.of_nat j - r * gw st))%nat))
         else grid st !! j)
    (rand_cell rnd r) 0 W (st, k0)) as (sk & Hrun & g & -> & Hlen & Hg).
  - lia.
  - exists (grid st). split; [f_equal; (by destruct st) || lia|]. split; [done|].
    intros j. by rewrite decide_False by lia.
  - intros c [s k] Hc (g & [= -> ->] & Hlen & Hg).
    assert (0 ≤ c < gw st) as Hc' by lia.
    destruct (index_small st r c Hwf Hr Hc') as [Hidx Hrange].
    pose proof (wf_grid st Hwf) as Hgl.
    eexists. split.
    + unfold rand_cell. change (grid (set_grid g st)) with g.
      change (gw (set_grid g st)) with (gw st).
      rewrite Hidx, store_Some by lia. simpl. reflexivity.
    + eexists. split; [f_equal; reflexivity || lia|].
      split; [by rewrite length_insert|].
      intros j. destruct (decide (j = Z.to_nat (r * gw st + c))) as [->|Hne].
      * rewrite list_lookup_insert_eq by lia. rewrite decide_True by lia.
        replace (Z.to_nat (Z.of_nat (Z.to_nat (r * gw st + c)) - r * gw st))
          with (Z.to_nat c) by lia.
        done.
      * rewrite list_lookup_insert_ne by done. rewrite Hg.
        repeat case_decide; (done || lia).
  - by exists g.
Qed.

(** The two loops of [gridrand]: the cells of the first [H] rows and
    first [W] columns take the draws in row-major order; no other cell
    is written. *)
Lemma gridrand_rows rnd st k0 W H :
  wf st → 0 ≤ H ≤ gh st → 0 ≤ W ≤ gw st →
  ∃ g, for_lt 0 H (λ r, for_lt 0 W (rand_cell rnd r)) (st, k0)
         = Some (set_grid g st, (k0 + Z.to_nat (H * W))%nat) ∧
       length g = length (grid st) ∧
       ∀ j : nat, g !! j =
         if decide (Z.of_nat j < H * gw st ∧ Z.of_nat j mod gw st < W)
         then Some (seed_bit (rnd (k0 + Z.to_nat
                 (Z.of_nat j / gw st * W + Z.of_nat j mod gw st))%nat))
         else grid st !! j.
Proof.
  intros Hwf HH HW. pose proof (wf_gw st Hwf) as Hgw.
  destruct (for_lt_inv
    (λ r sk, ∃ g, sk = (set_grid g st, (k0 + Z.to_nat (r * W))%nat) ∧
       length g = length (grid st) ∧
       ∀ j : nat, g !! j =
         if decide (Z.of_nat j < r * gw st ∧ Z.of_nat j mod gw st < W)
         then Some (seed_bit (rnd (k0 + Z.to_nat
                 (Z.of_nat j / gw st * W + Z.of_nat j mod gw st))%nat))
         else grid st !! j)
    (λ r, for_lt 0 W (rand_cell rnd r)) 0 H (st, k0))
    as (sk & Hrun & g & -> & Hlen & Hg).
  - lia.
  - exists (grid st). split; [f_equal; (by destruct st) || lia|]. split; [done|].
    intros j. by rewrite decide_False by lia.
  - intros r [s k] Hr (g & [= -> ->] & Hlen & Hg).
    destruct (rand_row rnd (set_grid g st) (k0 + Z.to_nat (r * W)) r W)
      as (g' & Hrow & Hlen' & Hg'); [by apply set_grid_wf|simpl; lia..|].
    simpl in Hrow, Hlen', Hg'.
    eexists. split; [exact Hrow|].
    exists g'. split; [f_equal; nia|]. split; [congruence|].
    intros j. rewrite Hg'. case_decide as Hseg.
    + destruct (row_div_mod (gw st) r (Z.of_nat j) Hgw ltac:(lia)) as [Hd Hm].
      rewrite decide_True by lia. rewrite Hd, Hm. do 3 f_equal. nia.
    + rewrite Hg.
      destruct (decide (r * gw st ≤ Z.of_nat j < (r + 1) * gw st)) as [Hin|Hout].
      * destruct (row_div_mod (gw st) r (Z.of_nat j) Hgw Hin) as [Hd Hm].
        rewrite !decide_False by lia. done.
      * repeat case_decide; (done || lia).
  - by exists g.
Qed.

Lemma seed_bit_alive x : seed_bit x = 1 ↔ (4 | x).
Proof.
  unfold seed_bit. rewrite <- Z.rem_divide by lia.
  destruct (Z.eqb_spec (Z.rem x 4) 0); split; (done || lia).
Qed.

Lemma seed_bit_binary x : seed_bit x = 0 ∨ seed_bit x = 1.
Proof. unfold seed_bit. destruct (_ =? _); auto. Qed.

(** [gridrand(w, h)] from any well-formed state: it returns, it writes
    the cells of the first [min h gh] rows and [min w gw] columns with
    the draws in row-major order, and leaves every other cell alone. *)
Lemma gridrand_spec rnd st k0 w h :
  wf st →
  ∃ st' k', gridrand rnd w h (st, k0) = Some (st', k') ∧
    wf st' ∧ gw st' = gw st ∧ gh st' = gh st ∧ gs st' = gs st ∧
    diff st' = diff st ∧ generation st' = generation st ∧
    ∀ r c, 0 ≤ r < gh st → 0 ≤ c < gw st →
      cell st' r c =
        if decide (r < Z.min h (gh st) ∧ c < Z.min w (gw st))
        then seed_bit (rnd (k0 + Z.to_nat (r * Z.min w (gw st) + c))%nat)
        else cell st r c.
Proof.
  intros Hwf. pose proof (wf_gw st Hwf) as Hgw.
  pose proof (wf_gh st Hwf) as Hgh.
  set (H := Z.max 0 (Z.min h (gh st))). set (W := Z.max 0 (Z.min w (gw st))).
  assert (0 ≤ H ≤ gh st) as HH by (unfold H; lia).
  assert (0 ≤ W ≤ gw st) as HW by (unfold W; lia).
  destruct (gridrand_rows rnd st k0 W H Hwf HH HW) as (g & Hrun & Hlen & Hg).
  exists (set_grid g st), (k0 + Z.to_nat (H * W))%nat.
  assert (wf (set_grid g st)) as Hwf' by by apply set_grid_wf.
  split.
  { rewrite <- Hrun. unfold gridrand, for_lt. simpl fst.
    replace (Z.to_nat (Z.min h (gh st) - 0)) with (Z.to_nat (H - 0))
      by (unfold H; lia).
    by replace (Z.to_nat (Z.min w (gw st) - 0)) with (Z.to_nat (W - 0))
      by (unfold W; lia). }
  do 6 (split; [done|]).
  intros r c Hr Hc.
  destruct (index_small st r c Hwf Hr Hc) as [_ Hidx].
  destruct (index_row_col st r c Hwf Hr Hc) as [Hrow Hcol].
  pose proof (cell_lookup _ r c Hwf' Hr Hc) as Hnew. simpl in Hnew.
  pose proof (cell_lookup _ r c Hwf Hr Hc) as Hold.
  rewrite Hg, Z2Nat.id, Hrow, Hcol in Hnew by lia.
  destruct (decide (r < Z.min h (gh st) ∧ c < Z.min w (gw st))) as [Hreg|Hreg].
  - assert (H = Z.min h (gh st) ∧ W = Z.min w (gw st)) as [HeH HeW]
      by (unfold H, W; lia).
    rewrite decide_True in Hnew by nia. injection Hnew as <-.
    by rewrite HeW.
  - assert (¬ (r < H ∧ c < W)) as Hreg' by (unfold H, W; lia).
    rewrite decide_False in Hnew by nia. congruence.
Qed.

(** C5: without a pattern file, on the all-dead grid that [calloc]
    leaves, the seeding writes exactly the cells with
    row < min(rows, gh) and col < min(cols, gw): such a cell is alive
    exactly when its draw of [random()] is divisible by 4; every other
    cell of the grid stays dead. *)
Theorem random_seeding_region e st :
  wf st → (∀ r c, cell st r c = 0) →
  let H := Z.min (rows st) (gh st) in
  let W := Z.min (cols st) (gw st) in
  ∃ st', populate e None st = Ret st' ∧
    wf st' ∧ binary st' ∧
    gw st' = gw st ∧ gh st' = gh st ∧
    ∀ r c, 0 ≤ r < gh st → 0 ≤ c < gw st →
      (r < H ∧ c < W →
         (cell st' r c = 1 ↔ (4 | e_random e (Z.to_nat (r * W + c)))) ∧
         (cell st' r c = 0 ↔ ¬ (4 | e_random e (Z.to_nat (r * W + c))))) ∧
      (¬ (r < H ∧ c < W) → cell st' r c = 0).
Proof.
  intros Hwf Hdead H W.
  destruct (gridrand_spec (e_random e) st O (cols st) (rows st) Hwf)
    as (st' & k' & Hrun & Hwf' & Hw & Hh & Hs & _ & _ & Hcell).
  fold H W in Hcell. simpl in Hcell.
  exists st'. split; [unfold populate; by rewrite Hrun|].
  split; [done|].
  assert (∀ r c, 0 ≤ r < gh st → 0 ≤ c < gw st →
            cell st' r c = 0 ∨ cell st' r c = 1) as Hbin.
  { intros r c Hr Hc. rewrite Hcell by done.
    case_decide; [apply seed_bit_binary|left; apply Hdead]. }
  split.
  { apply Forall_lookup. intros k v Hv.
    pose proof (lookup_lt_Some _ _ _ Hv) as Hk.
    rewrite (wf_grid st' Hwf') in Hk.
    destruct (pos_row_col st' (Z.of_nat k) Hwf') as (Hr & Hc & Hpos); [lia|].
    pose proof (cell_lookup st' _ _ Hwf' Hr Hc) as Hl.
    rewrite <- Hpos, Nat2Z.id, Hv in Hl. injection Hl as ->.
    apply Hbin; by rewrite <- ?Hw, <- ?Hh. }
  do 2 (split; [done|]).
  intros r c Hr Hc. rewrite Hcell by done. split.
  - intros Hreg. rewrite decide_True by done.
    pose proof (seed_bit_alive (e_random e (Z.to_nat (r * W + c)))) as Ha.
    destruct (seed_bit_binary (e_random e (Z.to_nat (r * W + c)))) as [Hb|Hb];
      rewrite Hb in *; split; split; try done; try lia.
    + intros Hd. apply Ha in Hd. lia.
    + intros _ Hd. apply Ha in Hd. lia.
    + intros _. by apply Ha.
    + intros Hn. destruct Hn. by apply Ha.
  - intros Hreg. rewrite decide_False by done. apply Hdead.
Qed.

(** ** Startup *)

Lemma mul_256 : 256 *i 256 = 65536.
Proof. reflexivity. Qed.

Lemma replicate_dead (n : nat) (r c : Z) st :
  grid st = replicate n 0 → cell st r c = 0.
Proof.
  intros Hg. unfold cell. destruct (in_grid st r c); [|done].
  rewrite Hg. destruct (replicate n 0 !! _) as [v|] eqn:Hv; [|done].
  apply lookup_replicate in Hv as [-> _]. done.
Qed.

(** The size [main] gives the buffers is the square of the width. *)
Lemma alloc_grids_size e st st' :
  alloc_grids e st = Ret st' →
  gs st' = gw st' *i gw st' ∧
  grid st' = replicate (Z.to_nat (gs st')) 0 ∧
  diff st' = replicate (Z.to_nat (gs st')) 0.
Proof.
  unfold alloc_grids, ecalloc.
  destruct (e_calloc_grid e), (e_calloc_diff e); try done.
  intros [= <-]. done.
Qed.

(** What lines 239-243 of [main] leave when both [calloc] calls succeed. *)
Lemma alloc_grids_default e :
  e_calloc_grid e = true → e_calloc_diff e = true →
  ∃ st, alloc_grids e (setup e initial_state) = Ret st ∧
    gw st = 256 ∧ gh st = 256 ∧ gs st = 65536 ∧
    grid st = replicate (Z.to_nat 65536) 0 ∧
    diff st = replicate (Z.to_nat 65536) 0 ∧
    rows st = e_ws_row e ∧ cols st = e_ws_col e ∧ generation st = 0 ∧
    wf st.
Proof.
  intros Hg Hd.
  exists (State 256 256 65536 (replicate (Z.to_nat 65536) 0)
            (replicate (Z.to_nat 65536) 0) (e_ws_row e) (e_ws_col e) 0).
  split.
  { unfold alloc_grids, ecalloc. rewrite Hg, Hd. reflexivity. }
  cbn [gw gh gs grid diff rows cols generation].
  do 8 (split; [done|]).
  constructor; cbn [gw gh gs grid diff generation]; try done;
    apply length_replicate.
Qed.

(** C9: from the zero-initialised globals, when both [calloc] calls
    succeed, [main] has two buffers of [gw * gh] cells each (256 x 256),
    every cell of both is 0, and the grid is all dead before the initial
    population. *)
Theorem startup_two_zeroed_buffers e :
  e_calloc_grid e = true → e_calloc_diff e = true →
  ∃ st, alloc_grids e (setup e initial_state) = Ret st ∧
    gw st = 256 ∧ gh st = 256 ∧ gs st = gw st * gh st ∧
    length (grid st) = Z.to_nat (gw st * gh st) ∧
    length (diff st) = Z.to_nat (gw st * gh st) ∧
    grid st = replicate (Z.to_nat (gw st * gh st)) 0 ∧
    diff st = replicate (Z.to_nat (gw st * gh st)) 0 ∧
    (∀ k v, grid st !! k = Some v → v = 0) ∧
    (∀ k v, diff st !! k = Some v → v = 0) ∧
    (∀ r c, cell st r c = 0) ∧
    wf st ∧ binary st.
Proof.
  intros Hg Hd.
  destruct (alloc_grids_default e Hg Hd)
    as (st & Hrun & Hw & Hh & Hs & Hgrid & Hdiff & _ & _ & _ & Hwf).
  exists st. split; [done|]. rewrite Hw, Hh.
  change (256 * 256) with 65536.
  do 3 (split; [done|]).
  split; [rewrite Hgrid; apply length_replicate|].
  split; [rewrite Hdiff; apply length_replicate|].
  do 2 (split; [done|]).
  split; [rewrite Hgrid; intros k v Hv; by apply lookup_replicate in Hv as [-> _]|].
  split; [rewrite Hdiff; intros k v Hv; by apply lookup_replicate in Hv as [-> _]|].
  split; [intros r c; by apply (replicate_dead (Z.to_nat 65536))|].
  split; [done|].
  unfold binary. rewrite Hgrid. apply Forall_forall. intros v Hv. left.
  by apply elem_of_replicate in Hv as [-> _].
Qed.

(** ** draw *)

Lemma for_lt_pres {T : Type} (Q : T → Prop) (body : Z → T → option T)
    (lo hi : Z) (s : T) :
  Q s →
  (∀ j t, lo ≤ j < hi → Q t → ∃ t', body j t = Some t' ∧ Q t') →
  ∃ s', for_lt lo hi body s = Some s' ∧ Q s'.
Proof.
  intros Hs Hbody. destruct (Z.le_gt_cases lo hi) as [Hle|Hgt].
  - by apply (for_lt_inv (λ _, Q)).
  - exists s. split; [apply for_lt_empty; lia|done].
Qed.

Lemma string_app_assoc (a b c : string) :
  ((a ++ b) ++ c = a ++ (b ++ c))%string.
Proof. induction a as [|x a IH]; simpl; [done|by rewrite IH]. Qed.

Lemma prefix_app (a b : string) : String.prefix a (a ++ b)%string = true.
Proof.
  induction a as [|x a IH]; simpl; [by destruct b|].
  by destruct (ascii_dec x x).
Qed.

Lemma draw_cell_appends st r c out :
  wf st → 0 ≤ r < gh st → 0 ≤ c < gw st →
  ∃ text, draw_cell r c st out = Some (out ++ text)%string.
Proof.
  intros Hwf Hr Hc. unfold draw_cell.
  destruct (index_small st r c Hwf Hr Hc) as [-> Hidx].
  destruct (load_is_Some (grid st) (r * gw st + c)) as [g ->];
    [rewrite (wf_grid st Hwf); lia|].
  eexists. reflexivity.
Qed.

(** [draw] returns on every well-formed state, whatever the terminal
    size, and its output starts with the header. *)
Lemma draw_header st :
  wf st →
  ∃ rest, draw st =
    Some (CURSOFF ++ mvprintf 1 1 (header_text st) ++ rest)%string.
Proof.
  intros Hwf. unfold draw.
  set (out0 := (CURSOFF ++ mvprintf 1 1 (header_text st))%string).
  destruct (for_lt_pres (λ out, ∃ text, out = (out0 ++ text)%string)
    (λ r, for_lt 0 (Z.min (cols st) (gw st)) (λ c, draw_cell r c st))
    0 (Z.min (rows st -i 1) (gh st)) out0) as (out1 & -> & text & ->).
  - exists EmptyString. clear. induction out0; simpl; congruence.
  - intros r out Hr [text ->].
    destruct (for_lt_pres (λ out, ∃ text, out = (out0 ++ text)%string)
      (λ c, draw_cell r c st) 0 (Z.min (cols st) (gw st))
      (out0 ++ text)%string) as (out2 & Hrun & Hout2).
    + by exists text.
    + intros c out [Hc0 Hc] [text' ->].
      destruct (draw_cell_appends st r c (out0 ++ text')%string Hwf)
        as [cell_text ->]; [lia..|].
      eexists. split; [done|]. eexists. apply string_app_assoc.
    + by exists out2.
  - simpl. eexists. unfold out0. by rewrite !string_app_assoc.
Qed.

(** C7, amended: the frame [draw] prints starts with a header line that
    shows the generation number and the size of the terminal, lines x
    columns, and ends by clearing the rest of that line. *)
Theorem draw_header_shows_terminal_size st :
  wf st →
  ∃ out rest, draw st = Some out ∧
    out = (CURSOFF ++ CURPOS 1 1 ++
           ("Conway's Game of Life " ++ SDOT ++ " #" ++
            fmt_d (generation st) ++ " " ++ SDOT ++ " " ++
            fmt_d (rows st) ++ "x" ++ fmt_d (cols st) ++ CLEARRIGHT) ++
           rest)%string ∧
    shows_header out (header_text st) = true.
Proof.
  intros Hwf. destruct (draw_header st Hwf) as [rest Hd].
  exists (CURSOFF ++ mvprintf 1 1 (header_text st) ++ rest)%string, rest.
  split; [done|]. split.
  - unfold mvprintf. by rewrite string_app_assoc.
  - unfold shows_header. rewrite <- string_app_assoc. apply prefix_app.
Qed.

(** C7 as stated fails: on the default grid in a terminal of 24 lines
    and 80 columns the header reads 24x80, not the 256x256 of the grid. *)
Lemma draw_header_not_grid_size :
  ∃ out, draw default_24x80 = Some out ∧
    shows_header out (claimed_header_text default_24x80) = false ∧
    shows_header out (header_text default_24x80) = true.
Proof.
  destruct (draw_header default_24x80) as (rest & Hd).
  { constructor; cbn [gw gh gs grid diff generation default_24x80];
      try done;
      apply length_replicate. }
  eexists. split; [exact Hd|]. split.
  - vm_compute. reflexivity.
  - unfold shows_header. rewrite <- string_app_assoc. apply prefix_app.
Qed.

(** ** The driver loop *)

Lemma wrap_sub_l a b : Int.wrap (Int.wrap a - b) = Int.wrap (a - b).
Proof.
  unfold Int.wrap. f_equal.
  replace ((a + 2147483648) mod 4294967296 - 2147483648 - b + 2147483648)
    with ((a + 2147483648) mod 4294967296 - b) by lia.
  rewrite Zminus_mod_idemp_l. f_equal. lia.
Qed.

Lemma wrap_period x : Int.wrap (x + 4294967296) = Int.wrap x.
Proof.
  unfold Int.wrap. f_equal.
  replace (x + 4294967296 + 2147483648)
    with (x + 2147483648 + 1 * 4294967296) by lia.
  apply Z_mod_plus_full.
Qed.

Lemma steps_add (a b : nat) pd : steps (a + b) pd = steps a pd ≫= steps b.
Proof.
  revert pd. induction a as [|a IH]; intros pd; simpl; [done|].
  destruct (step pd) as [pd'|]; simpl; [apply IH|done].
Qed.

Lemma steps_S (n : nat) pd : steps (S n) pd = step pd ≫= steps n.
Proof. done. Qed.

Lemma steps_snoc (n : nat) pd : steps (S n) pd = steps n pd ≫= step.
Proof.
  replace (S n) with (n + 1)%nat by lia. rewrite steps_add.
  destruct (steps n pd) as [pd'|]; [|done].
  simpl. by destruct (step pd').
Qed.

Lemma steps_terminated (n : nat) d :
  steps n (Terminated, d) = Some (Terminated, d).
Proof. induction n as [|n IH]; simpl; done. Qed.

(** One pass through the body of the main loop. *)
Lemma step_running d :
  wf (d_state d) →
  ∃ out, draw (d_state d) = Some out ∧
    step (Running, d) =
      Some (if d_ticks d -i 1 =? 0
            then (Terminated,
                  Driver (ticked (d_state d)) (d_delay d) (d_gen d)
                    (d_ticks d -i 1) (Frame out :: d_trace d))
            else (Running,
                  Driver (ticked (d_state d)) (d_delay d) (d_gen d)
                    (d_ticks d -i 1)
                    (Sleep (d_delay d) :: Frame out :: d_trace d))).
Proof.
  intros Hwf. destruct (draw_header _ Hwf) as [rest Hd].
  eexists. split; [exact Hd|].
  unfold step. rewrite Hd, tick_closed by done. simpl.
  by destruct (_ =? 0).
Qed.

(** While the decremented counter is not 0, the loop goes round. *)
Lemma running_cycles (k : nat) : ∀ d,
  wf (d_state d) →
  (∀ i, 1 ≤ i ≤ Z.of_nat k → Int.wrap (d_ticks d - i) ≠ 0) →
  ∃ d', steps k (Running, d) = Some (Running, d') ∧
    wf (d_state d') ∧
    Int.wrap (d_ticks d') = Int.wrap (d_ticks d - Z.of_nat k) ∧
    generation (d_state d') = Nat.iter k (λ g, g +i 1) (generation (d_state d)).
Proof.
  induction k as [|k IH]; intros d Hwf Hne.
  - exists d. split; [done|]. split; [done|]. split; [|done].
    f_equal. lia.
  - destruct (step_running d Hwf) as (out & _ & Hstep).
    assert (d_ticks d -i 1 ≠ 0) as Hfirst by (apply Hne; lia).
    rewrite (proj2 (Z.eqb_neq _ _) Hfirst) in Hstep.
    match type of Hstep with _ = Some (_, ?d1) =>
      destruct (IH d1) as (d' & Hrun & Hwf' & Ht & Hg) end.
    + simpl. by apply ticked_wf.
    + intros i Hi. simpl. unfold Int.sub. rewrite wrap_sub_l.
      replace (d_ticks d - 1 - i) with (d_ticks d - (i + 1)) by lia.
      apply Hne. lia.
    + exists d'. split; [rewrite steps_S, Hstep; exact Hrun|].
      split; [done|]. split.
      * rewrite Ht. simpl. unfold Int.sub. rewrite wrap_sub_l. f_equal. lia.
      * rewrite Hg, Nat.iter_succ_r. done.
Qed.

(** The loop ends at the first pass that brings the counter to 0. *)
Lemma running_terminates (n : nat) d :
  wf (d_state d) →
  (∀ i, 1 ≤ i < Z.of_nat (S n) → Int.wrap (d_ticks d - i) ≠ 0) →
  Int.wrap (d_ticks d - Z.of_nat (S n)) = 0 →
  ∃ d', steps (S n) (Running, d) = Some (Terminated, d').
Proof.
  intros Hwf Hne Hz.
  destruct (running_cycles n d Hwf) as (d1 & Hrun & Hwf1 & Ht & _).
  { intros i Hi. apply Hne. lia. }
  destruct (step_running d1 Hwf1) as (out & _ & Hstep).
  assert (d_ticks d1 -i 1 = 0) as Hlast.
  { unfold Int.sub. rewrite <- wrap_sub_l, Ht, wrap_sub_l. rewrite <- Hz.
    f_equal. lia. }
  rewrite Hlast in Hstep. simpl in Hstep.
  eexists. rewrite steps_snoc, Hrun. exact Hstep.
Qed.

(** The warm-up loop hands over to the main loop. *)
Lemma warmup_ends (m : nat) : ∀ d,
  wf (d_state d) → d_gen d ≤ Int.INT_MAX → d_gen d ≤ Z.of_nat m →
  ∃ k d', steps k (WarmingUp, d) = Some (Running, d') ∧
    wf (d_state d') ∧ d_ticks d' = d_ticks d ∧ d_delay d' = d_delay d.
Proof.
  induction m as [|m IH]; intros d Hwf Hmax Hm.
  - exists 1%nat. eexists. split.
    + rewrite steps_S. unfold step.
      rewrite (proj2 (Z.ltb_ge 0 (d_gen d))) by lia. done.
    + done.
  - destruct (Z.ltb_spec 0 (d_gen d)) as [Hpos|Hnp].
    + edestruct (IH (Driver (ticked (d_state d)) (d_delay d) (d_gen d -i 1)
                      (d_ticks d) (d_trace d)))
        as (k & d' & Hrun & Hwf' & Ht & Hdl).
      * simpl. by apply ticked_wf.
      * simpl. pose proof (wrap_range (d_gen d - 1)). unfold Int.sub. lia.
      * simpl. rewrite int_sub_small;
          unfold Int.INT_MIN, Int.INT_MAX in *; lia.
      * exists (S k), d'. split; [|done].
        rewrite steps_S. unfold step.
        rewrite (proj2 (Z.ltb_lt 0 (d_gen d))) by done.
        rewrite tick_closed by done. exact Hrun.
    + apply IH; [done|done|lia].
Qed.

(** ** main *)

Lemma wrap_neg_nonzero i : 1 ≤ i < 4294967296 → Int.wrap (0 - i) ≠ 0.
Proof.
  intros Hi. destruct (Z.le_gt_cases i 2147483648) as [Hle|Hgt].
  - rewrite wrap_small; unfold Int.INT_MIN, Int.INT_MAX; lia.
  - rewrite <- wrap_period.
    rewrite wrap_small; unfold Int.INT_MIN, Int.INT_MAX; lia.
Qed.

Lemma wrap_neg_2_32 : Int.wrap (0 - 4294967296) = 0.
Proof. reflexivity. Qed.

(** With the counter at 0, as without [-n], the main loop goes round
    4294967295 times and leaves at the next pass. *)
Lemma default_loop d :
  wf (d_state d) → d_ticks d = 0 →
  (∀ k : nat, Z.of_nat k < 4294967296 →
     ∃ d', steps k (Running, d) = Some (Running, d')) ∧
  (∃ d', steps (Z.to_nat 4294967296) (Running, d) = Some (Terminated, d')).
Proof.
  intros Hwf Ht. split.
  - intros k Hk. destruct (running_cycles k d Hwf) as (d' & Hrun & _).
    { intros i Hi. rewrite Ht. apply wrap_neg_nonzero. lia. }
    by exists d'.
  - assert (∃ n, Z.to_nat 4294967296 = S n ∧ Z.of_nat (S n) = 4294967296)
      as (n & -> & Hn).
    { exists (Z.to_nat 4294967295). split; lia. }
    apply running_terminates; [done| |].
    + intros i Hi. rewrite Ht. apply wrap_neg_nonzero. lia.
    + rewrite Ht, Hn. apply wrap_neg_2_32.
Qed.

(** A budget of [n] passes ends the loop after exactly [n] passes. *)
Lemma budget_loop d :
  wf (d_state d) → 1 ≤ d_ticks d ≤ Int.INT_MAX →
  ∃ d', steps (Z.to_nat (d_ticks d)) (Running, d) = Some (Terminated, d').
Proof.
  intros Hwf Ht.
  assert (∃ n, Z.to_nat (d_ticks d) = S n ∧ Z.of_nat (S n) = d_ticks d)
    as (n & -> & Hn).
  { exists (Z.to_nat (d_ticks d - 1)). split; lia. }
  apply running_terminates; [done| |].
  - intros i Hi. rewrite wrap_small; unfold Int.INT_MIN, Int.INT_MAX in *; lia.
  - rewrite Hn. by replace (d_ticks d - d_ticks d) with 0 by lia.
Qed.

Lemma run_bind_ret {A B : Type} (a : A) (f : A → run B) : Ret a ≫= f = f a.
Proof. done. Qed.

(** The random population returns and keeps the cells dead or alive. *)
Lemma populate_random e st :
  wf st → binary st →
  ∃ st', populate e None st = Ret st' ∧ wf st' ∧ binary st'.
Proof.
  intros Hwf Hb.
  destruct (gridrand_spec (e_random e) st O (cols st) (rows st) Hwf)
    as (st' & k' & Hrun & Hwf' & Hw & Hh & _ & _ & _ & Hcell).
  exists st'. split; [unfold populate; by rewrite Hrun|]. split; [done|].
  apply binary_of_cells; [done|]. rewrite Hw, Hh. intros r c Hr Hc.
  rewrite Hcell by done.
  case_decide; [apply seed_bit_binary|by apply cell_binary].
Qed.

Lemma replicate_binary (n : nat) st : grid st = replicate n 0 → binary st.
Proof.
  intros Hg. unfold binary. rewrite Hg. apply Forall_forall. intros v Hv.
  left. by apply elem_of_replicate in Hv as [-> _].
Qed.

(** Every step of the driver keeps the state well-formed and its cells
    dead or alive. *)
Lemma step_invariant p d p' d' :
  wf (d_state d) → binary (d_state d) →
  step (p, d) = Some (p', d') →
  wf (d_state d') ∧ binary (d_state d').
Proof.
  intros Hwf Hb. unfold step. rewrite (tick_closed _ Hwf).
  destruct p.
  - destruct (0 <? d_gen d); intros [= <- <-]; simpl;
      auto using ticked_wf, ticked_binary.
  - destruct (draw (d_state d)) as [out|]; simpl; [|done].
    destruct (_ =? 0); intros [= <- <-]; simpl;
      auto using ticked_wf, ticked_binary.
  - intros [= <- <-]. auto.
Qed.

Lemma steps_invariant (n : nat) : ∀ p d p' d',
  wf (d_state d) → binary (d_state d) →
  steps n (p, d) = Some (p', d') →
  wf (d_state d') ∧ binary (d_state d').
Proof.
  induction n as [|n IH]; intros p d p' d' Hwf Hb.
  - intros [= <- <-]. auto.
  - rewrite steps_S. destruct (step (p, d)) as [[p1 d1]|] eqn:Hstep; [|done].
    destruct (step_invariant _ _ _ _ Hwf Hb Hstep) as [Hwf1 Hb1].
    by apply IH.
Qed.

(** [main] without a pattern file, once the flags are read and the
    buffers allocated, is the driver loop on a well-formed state. *)
Lemma main_loop e a cfg :
  parse_flags e (a_flags a) (Config 250 0 0) = Ret cfg →
  a_file a = None →
  e_calloc_grid e = true → e_calloc_diff e = true →
  ∃ st, wf st ∧ binary st ∧ ∀ fuel,
    main fuel e a =
      '(p, d) ← lift (steps fuel
          (WarmingUp, Driver st (delay cfg) (gen cfg) (ticks cfg) []));
      match p with
      | Terminated => Exit 0 EmptyString
      | _ => Ret (p, d)
      end.
Proof.
  intros Hflags Hfile Hg Hd.
  destruct (alloc_grids_default e Hg Hd)
    as (st0 & Halloc & _ & _ & _ & Hgrid0 & _ & _ & _ & _ & Hwf0).
  destruct (populate_random e st0 Hwf0 (replicate_binary _ _ Hgrid0))
    as (st & Hpop & Hwf & Hb).
  exists st. split; [done|]. split; [done|]. intros fuel.
  unfold main.
  by rewrite Hflags, run_bind_ret, Halloc, run_bind_ret, Hfile, Hpop,
    run_bind_ret.
Qed.

(** Every state the loop of [main] reaches after a random population is
    well-formed with dead-or-alive cells: the states the theorems on
    [tick] and [neighbors] speak about. *)
Lemma main_states_well_formed e a cfg fuel p d :
  parse_flags e (a_flags a) (Config 250 0 0) = Ret cfg →
  a_file a = None →
  e_calloc_grid e = true → e_calloc_diff e = true →
  main fuel e a = Ret (p, d) →
  wf (d_state d) ∧ binary (d_state d).
Proof.
  intros Hflags Hfile Hg Hd.
  destruct (main_loop e a cfg Hflags Hfile Hg Hd) as (st & Hwf & Hb & Hmain).
  rewrite Hmain.
  destruct (steps fuel _) as [[p1 d1]|] eqn:Hsteps; [|done].
  apply steps_invariant in Hsteps as [Hwf1 Hb1]; [|done..].
  simpl. destruct p1; by intros [= <- <-].
Qed.

Lemma run_bind_exit {A B : Type} (m : run A) (f : A → run B) code err :
  m ≫= f = Exit code err →
  m = Exit code err ∨ ∃ a, m = Ret a ∧ f a = Exit code err.
Proof.
  destruct m as [a|c s|]; intros H.
  - right. by exists a.
  - left. by injection H as <- <-.
  - inversion H.
Qed.

Lemma die_exit {A : Type} e fmt text code err :
  die (A:=A) e fmt text = Exit code err → code = 0.
Proof. unfold die. by intros [= <- _]. Qed.

(** The texts of the messages. *)
Lemma usage_message_text e :
  usage_message e =
  ("Usage: " ++ e_argv0 e ++ " [-v] [-dgn <arg>] [file]" ++
   String NL EmptyString)%string.
Proof.
  unfold usage_message, die_message. simpl.
  by repeat (rewrite string_app_assoc; simpl).
Qed.

Lemma memory_message_text e :
  memory_message e = ("Cannot allocate memory." ++ String NL EmptyString)%string.
Proof. reflexivity. Qed.

Lemma file_message_text e f :
  file_message e f =
  (e_argv0 e ++ ": " ++ f ++ ": " ++ e_strerror e ++ String NL EmptyString)%string.
Proof.
  unfold file_message, die_message. simpl.
  by repeat (rewrite string_app_assoc; simpl).
Qed.

Lemma parse_flag_exit e f cfg code err :
  parse_flag e f cfg = Exit code err → code = 0.
Proof.
  destruct f as [ch [a|]]; unfold parse_flag, usage;
    repeat (destruct (Ascii.eqb ch _)); try done; apply die_exit.
Qed.

Lemma parse_flags_exit e fs : ∀ cfg code err,
  parse_flags e fs cfg = Exit code err → code = 0.
Proof.
  induction fs as [|f fs IH]; intros cfg code err; simpl; [done|].
  intros H. apply run_bind_exit in H as [H|(cfg' & _ & H)].
  - by eapply parse_flag_exit.
  - by eapply IH.
Qed.

Lemma alloc_grids_exit e st code err :
  alloc_grids e st = Exit code err → code = 0.
Proof.
  unfold alloc_grids, ecalloc.
  destruct (e_calloc_grid e), (e_calloc_diff e); try done;
    simpl; by intros [= <- _].
Qed.

Lemma populate_exit e file st code err :
  populate e file st = Exit code err → code = 0.
Proof.
  unfold populate. destruct file as [f|].
  - destruct (gridfile (e_fopen e f) st) as [[rc st']|]; simpl; [|done].
    destruct (rc =? 0); [done|apply die_exit].
  - destruct (gridrand _ _ _ _) as [[st' k]|]; done.
Qed.

(** Whatever the command line and the environment, a [main] that exits
    exits with status 0. *)
Lemma main_exit fuel e a code err :
  main fuel e a = Exit code err → code = 0.
Proof.
  unfold main. intros H.
  apply run_bind_exit in H as [H|(cfg & _ & H)];
    [by eapply parse_flags_exit|].
  apply run_bind_exit in H as [H|(st & _ & H)];
    [by eapply alloc_grids_exit|].
  apply run_bind_exit in H as [H|(st' & _ & H)];
    [by eapply populate_exit|].
  destruct (steps fuel _) as [[p d]|]; simpl in H; [|done].
  destruct p; by inversion H.
Qed.

Lemma atoi_digits_range s : ∀ acc,
  Int.in_range acc → Int.in_range (atoi_digits s acc).
Proof.
  induction s as [|ch s IH]; intros acc Hacc; simpl; [done|].
  destruct (digit_of ch); [|done]. apply IH, wrap_range.
Qed.

Lemma atoi_range s : Int.in_range (atoi s).
Proof.
  assert (Int.in_range 0) as H0 by (unfold Int.in_range, Int.INT_MIN, Int.INT_MAX; lia).
  induction s as [|ch s IH]; simpl; [done|].
  destruct (is_space ch); [done|].
  destruct (Ascii.eqb ch "-"); [apply wrap_range|].
  destruct (Ascii.eqb ch "+"); [by apply atoi_digits_range|].
  destruct (digit_of ch); [apply atoi_digits_range, wrap_range|done].
Qed.

(** The process started with a budget of [n] passes and no file returns
    after the warm-up test and [n] passes. *)
Lemma main_budget e s :
  1 ≤ atoi s →
  e_calloc_grid e = true → e_calloc_diff e = true →
  main (S (Z.to_nat (atoi s))) e (Args [("n"%char, Some s)] None)
  = Exit 0 EmptyString.
Proof.
  intros Hn Hg Hd.
  destruct (main_loop e (Args [("n"%char, Some s)] None)
              (Config 250 0 (atoi s))) as (st & Hwf & _ & Hmain); try done.
  rewrite Hmain, steps_S. cbn [delay gen ticks].
  change (step (WarmingUp, Driver st 250 0 (atoi s) []))
    with (Some (Running, Driver st 250 (0 -i 1) (atoi s) [])).
  destruct (budget_loop (Driver st 250 (0 -i 1) (atoi s) [])) as [d' Hd'];
    [done|pose proof (atoi_range s) as [_ ?]; simpl; lia|].
  cbn [d_ticks] in Hd'. cbn [mbind option_bind]. by rewrite Hd'.
Qed.

Lemma parse_flag_gen e f cfg cfg' :
  parse_flag e f cfg = Ret cfg' →
  (Int.in_range (gen cfg) → Int.in_range (gen cfg')) ∧
  (f.1 ≠ "n"%char → ticks cfg' = ticks cfg).
Proof.
  destruct f as [ch [s|]]; unfold parse_flag, usage, die; simpl;
    destruct (Ascii.eqb_spec ch "d"); try (intros [= <-]; by simpl);
    destruct (Ascii.eqb_spec ch "g");
      try (intros [= <-]; simpl; split; [intros _; apply atoi_range|done]);
    destruct (Ascii.eqb_spec ch "n"); try (intros [= <-]; by simpl);
    destruct (Ascii.eqb_spec ch "v"); done.
Qed.

Lemma parse_flags_gen e fs : ∀ cfg cfg',
  parse_flags e fs cfg = Ret cfg' →
  (Int.in_range (gen cfg) → Int.in_range (gen cfg')) ∧
  (Forall (λ f, f.1 ≠ "n"%char) fs → ticks cfg' = ticks cfg).
Proof.
  induction fs as [|f fs IH]; intros cfg cfg'; simpl.
  - by intros [= <-].
  - destruct (parse_flag e f cfg) as [cfg1| |] eqn:Hf; try done.
    rewrite run_bind_ret. intros Hfs.
    destruct (parse_flag_gen e f cfg cfg1 Hf) as [Hg1 Ht1].
    destruct (IH cfg1 cfg' Hfs) as [Hg2 Ht2].
    split; [auto|]. intros Hall. apply Forall_cons in Hall as [Hn Hall].
    rewrite Ht2, Ht1; done.
Qed.

(** The process started without [-n] and without a file is still looping
    after any number of passes below 4294967296, and returns at that
    pass; [k0] is the number of tests of the warm-up loop. *)
Lemma main_default e a cfg :
  parse_flags e (a_flags a) (Config 250 0 0) = Ret cfg →
  Forall (λ f, f.1 ≠ "n"%char) (a_flags a) →
  a_file a = None →
  e_calloc_grid e = true → e_calloc_diff e = true →
  ∃ k0 : nat,
    (∀ k : nat, Z.of_nat k < 4294967296 →
       ∃ d, main (k0 + k) e a = Ret (Running, d)) ∧
    main (k0 + Z.to_nat 4294967296) e a = Exit 0 EmptyString.
Proof.
  intros Hflags Hnon Hfile Hg Hd.
  destruct (main_loop e a cfg) as (st & Hwf & _ & Hmain); try done.
  destruct (parse_flags_gen e _ _ _ Hflags) as [Hgen Hticks].
  specialize (Hticks Hnon). simpl in Hticks.
  assert (Int.in_range (gen cfg)) as [_ Hmax].
  { apply Hgen. unfold Int.in_range, Int.INT_MIN, Int.INT_MAX. simpl. lia. }
  destruct (warmup_ends (Z.to_nat (gen cfg))
              (Driver st (delay cfg) (gen cfg) (ticks cfg) []))
    as (k0 & d0 & Hwarm & Hwf0 & Ht0 & _); [done|done|simpl; lia|].
  simpl in Ht0. rewrite Hticks in Ht0.
  destruct (default_loop d0 Hwf0 Ht0) as [Hrun [d' Hend]].
  exists k0. split.
  - intros k Hk. destruct (Hrun k Hk) as [d1 Hd1]. exists d1.
    rewrite Hmain, steps_add, Hwarm. cbn [mbind option_bind].
    by rewrite Hd1.
  - rewrite Hmain, steps_add, Hwarm. cbn [mbind option_bind].
    by rewrite Hend.
Qed.

Lemma usage_exit {A : Type} e : usage (A:=A) e = Exit 0 (usage_message e).
Proof. reflexivity. Qed.

Lemma main_version fuel e file :
  main fuel e (Args [("v"%char, None)] file) = Exit 0 (version_message e).
Proof.
  reflexivity.
Qed.

Lemma main_unknown_flag fuel e ch arg fs file :
  ch ∉ ["d"; "g"; "n"; "v"]%char →
  main fuel e (Args ((ch, arg) :: fs) file) = Exit 0 (usage_message e).
Proof.
  intros Hch. unfold main. cbn [a_flags parse_flags parse_flag].
  rewrite !not_elem_of_cons in Hch. destruct Hch as (Hd & Hg & Hn & Hv & _).
  rewrite <- Ascii.eqb_neq in Hd, Hg, Hn, Hv.
  rewrite Hd, Hg, Hn, Hv. by rewrite usage_exit.
Qed.

Lemma main_missing_argument fuel e ch fs file :
  ch ∈ ["d"; "g"; "n"]%char →
  main fuel e (Args ((ch, None) :: fs) file) = Exit 0 (usage_message e).
Proof.
  intros Hch. unfold main. cbn [a_flags parse_flags parse_flag].
  rewrite !elem_of_cons, elem_of_nil in Hch.
  destruct Hch as [->|[->|[->|[]]]]; by rewrite usage_exit.
Qed.

Lemma main_no_memory fuel e a cfg :
  parse_flags e (a_flags a) (Config 250 0 0) = Ret cfg →
  e_calloc_grid e = false ∨ e_calloc_diff e = false →
  main fuel e a = Exit 0 (memory_message e).
Proof.
  intros Hflags Hfail. unfold main. rewrite Hflags, run_bind_ret.
  unfold alloc_grids, ecalloc.
  destruct Hfail as [-> | ->]; [done|]. by destruct (e_calloc_grid e).
Qed.

Lemma main_unreadable_file fuel e a cfg f :
  parse_flags e (a_flags a) (Config 250 0 0) = Ret cfg →
  e_calloc_grid e = true → e_calloc_diff e = true →
  a_file a = Some f → e_fopen e f = None →
  main fuel e a = Exit 0 (file_message e f).
Proof.
  intros Hflags Hg Hd Hfile Hopen.
  destruct (alloc_grids_default e Hg Hd) as (st0 & Halloc & _).
  unfold main. rewrite Hflags, run_bind_ret, Halloc, run_bind_ret, Hfile.
  unfold populate, gridfile. by rewrite Hopen.
Qed.

(** C6: without [-n] the counter [ticks] starts at 0 and every pass
    decrements it; the process started without [-n] and without a file
    is still in [Running] after any number of passes below 4294967296,
    and at pass 4294967296 the counter has wrapped round to 0, the loop
    is left and [main] returns.  The loop is not endless. *)
Theorem default_run_leaves_loop e a cfg :
  parse_flags e (a_flags a) (Config 250 0 0) = Ret cfg →
  Forall (λ f, f.1 ≠ "n"%char) (a_flags a) →
  a_file a = None →
  e_calloc_grid e = true → e_calloc_diff e = true →
  ticks cfg = 0 ∧
  ∃ k0 : nat,
    (∀ k : nat, Z.of_nat k < 4294967296 →
       ∃ d, main (k0 + k) e a = Ret (Running, d)) ∧
    main (k0 + Z.to_nat 4294967296) e a = Exit 0 EmptyString.
Proof.
  intros Hflags Hnon Hfile Hg Hd. split.
  - by destruct (parse_flags_gen e _ _ _ Hflags) as [_ ->].
  - by apply (main_default e a cfg).
Qed.

(** C8: whenever [main] exits, the status is 0; and each of the paths
    the specification names does exit, with status 0: the version
    print, an unknown flag, a flag without its argument, a failed
    allocation, a pattern file that cannot be opened, and a spent tick
    budget. *)
Theorem exit_status_always_zero :
  (∀ fuel e a code err, main fuel e a = Exit code err → code = 0) ∧
  (∀ fuel e file,
     main fuel e (Args [("v"%char, None)] file) = Exit 0 (version_message e)) ∧
  (∀ fuel e ch arg fs file, ch ∉ ["d"; "g"; "n"; "v"]%char →
     main fuel e (Args ((ch, arg) :: fs) file) = Exit 0 (usage_message e)) ∧
  (∀ fuel e ch fs file, ch ∈ ["d"; "g"; "n"]%char →
     main fuel e (Args ((ch, None) :: fs) file) = Exit 0 (usage_message e)) ∧
  (∀ fuel e a cfg,
     parse_flags e (a_flags a) (Config 250 0 0) = Ret cfg →
     e_calloc_grid e = false ∨ e_calloc_diff e = false →
     main fuel e a = Exit 0 (memory_message e)) ∧
  (∀ fuel e a cfg f,
     parse_flags e (a_flags a) (Config 250 0 0) = Ret cfg →
     e_calloc_grid e = true → e_calloc_diff e = true →
     a_file a = Some f → e_fopen e f = None →
     main fuel e a = Exit 0 (file_message e f)) ∧
  (∀ e s, 1 ≤ atoi s →
     e_calloc_grid e = true → e_calloc_diff e = true →
     main (S (Z.to_nat (atoi s))) e (Args [("n"%char, Some s)] None)
     = Exit 0 EmptyString).
Proof.
  split; [apply main_exit|].
  split; [apply main_version|].
  split; [apply main_unknown_flag|].
  split; [apply main_missing_argument|].
  split; [apply main_no_memory|].
  split; [apply main_unreadable_file|apply main_budget].
Qed.

(** ** gridfile *)

Lemma set_grid_cell st g r c :
  wf st → length g = length (grid st) → 0 ≤ r < gh st → 0 ≤ c < gw st →
  g !! Z.to_nat (r * gw st + c) = Some (cell (set_grid g st) r c).
Proof.
  intros Hwf Hlen Hr Hc.
  exact (cell_lookup (set_grid g st) r c (set_grid_wf st g Hwf Hlen) Hr Hc).
Qed.

(** The inner loop of [gridfile] on a line that fits: the decoded cells
    are written from column [c] on, nothing else changes. *)
Lemma scan_line_spec st r (cs : list Z) : ∀ p c g,
  wf st → length g = length (grid st) →
  0 ≤ r < gh st → 0 ≤ c →
  line_cells p = Some cs → c + Z.of_nat (length cs) ≤ gw st →
  ∃ g', scan_line p r c (set_grid g st) = Some (set_grid g' st) ∧
    length g' = length (grid st) ∧
    ∀ j : nat, g' !! j =
      if decide (r * gw st + c ≤ Z.of_nat j
                 < r * gw st + c + Z.of_nat (length cs))
      then cs !! Z.to_nat (Z.of_nat j - (r * gw st + c))
      else g !! j.
Proof.
  induction cs as [|v cs IH]; intros p c g Hwf Hlen Hr Hc Hp Hfit.
  - exists g. split; [|split; [done|]].
    + destruct p as [|ch rest]; [done|]. simpl in *.
      destruct (Ascii.eqb ch NUL || Ascii.eqb ch NL); [done|].
      destruct rest as [|x p']; [done|].
      by destruct (line_cells p').
    + intros j. rewrite decide_False; [done|simpl; lia].
  - destruct p as [|ch rest]; [done|]. simpl in Hp.
    destruct (Ascii.eqb ch NUL || Ascii.eqb ch NL) eqn:Hend; [done|].
    destruct rest as [|x p']; [done|].
    destruct (line_cells p') as [cs'|] eqn:Hp'; [|done].
    injection Hp as <- <-. simpl length in Hfit.
    assert (0 ≤ c < gw st) as Hc' by lia.
    destruct (index_small st r c Hwf Hr Hc') as [Hidx Hrange].
    pose proof (wf_grid st Hwf) as Hgl.
    pose proof (wf_bounds st Hwf) as (Hgw & _ & _).
    destruct (IH p' (c + 1) (<[Z.to_nat (r * gw st + c) := char_bit ch]> g))
      as (g' & Hrun & Hlen' & Hg'); try done;
      [by rewrite length_insert|lia..|].
    exists g'. split; [|split; [done|]].
    + cbn [scan_line]. rewrite Hend.
      change (grid (set_grid g st)) with g.
      change (gw (set_grid g st)) with (gw st).
      rewrite Hidx, store_Some by lia. cbn [mbind option_bind].
      rewrite int_add_small by (unfold Int.INT_MIN, Int.INT_MAX in *; lia).
      exact Hrun.
    + intros j. rewrite Hg'. simpl length.
      destruct (decide (j = Z.to_nat (r * gw st + c))) as [->|Hne].
      * rewrite decide_False by lia. rewrite decide_True by lia.
        rewrite list_lookup_insert_eq by lia.
        by replace (Z.to_nat (Z.of_nat (Z.to_nat (r * gw st + c))
                              - (r * gw st + c))) with O by lia.
      * rewrite list_lookup_insert_ne by done.
        repeat case_decide; try (done || lia).
        replace (Z.to_nat (Z.of_nat j - (r * gw st + c)))
          with (S (Z.to_nat (Z.of_nat j - (r * gw st + (c + 1))))) by lia.
        done.
Qed.

Lemma set_grid_id st : set_grid (grid st) st = st.
Proof. by destruct st. Qed.

(** The same at the level of cells: row [r] takes the decoded cells. *)
Lemma scan_line_cells st r b cs g :
  wf st → length g = length (grid st) → 0 ≤ r < gh st →
  line_cells b = Some cs → Z.of_nat (length cs) ≤ gw st →
  ∃ g', scan_line b r 0 (set_grid g st) = Some (set_grid g' st) ∧
    length g' = length (grid st) ∧
    ∀ r' c', 0 ≤ r' < gh st → 0 ≤ c' < gw st →
      cell (set_grid g' st) r' c' =
        if decide (r' = r)
        then default (cell (set_grid g st) r' c') (cs !! Z.to_nat c')
        else cell (set_grid g st) r' c'.
Proof.
  intros Hwf Hlen Hr Hcs Hfit.
  destruct (scan_line_spec st r cs b 0 g Hwf Hlen Hr
              ltac:(lia) Hcs ltac:(lia)) as (g' & Hrun & Hlen' & Hg').
  exists g'. split; [done|]. split; [done|].
  intros r' c' Hr' Hc'.
  pose proof (wf_gw st Hwf) as Hgw.
  destruct (index_small st r' c' Hwf Hr' Hc') as [_ Hidx].
  pose proof (set_grid_cell st g' r' c' Hwf Hlen' Hr' Hc') as Hnew.
  pose proof (set_grid_cell st g r' c' Hwf Hlen Hr' Hc') as Hold.
  rewrite Hg', Z2Nat.id in Hnew by lia.
  destruct (decide (r' = r)) as [->|Hne].
  - destruct (decide (c' < Z.of_nat (length cs))) as [Hin|Hout].
    + rewrite decide_True in Hnew by lia.
      replace (r * gw st + c' - (r * gw st + 0)) with c' in Hnew by lia.
      by rewrite Hnew.
    + rewrite decide_False in Hnew by lia.
      rewrite (lookup_ge_None_2 cs) by lia. simpl. congruence.
  - rewrite decide_False in Hnew by nia. congruence.
Qed.

Lemma file_cell_cons l ls r c :
  file_cell (l :: ls) r c =
    if r =? 0 then (if 0 <=? c
                    then cs ← line_cells (l ++ [NUL]); cs !! Z.to_nat c
                    else None)
    else file_cell ls (r - 1) c.
Proof.
  unfold file_cell. destruct (Z.eqb_spec r 0) as [->|Hne]; [done|].
  destruct (Z.leb_spec 0 r), (Z.leb_spec 0 (r - 1)), (Z.leb_spec 0 c);
    simpl; try done; try lia.
  by replace (Z.to_nat r) with (S (Z.to_nat (r - 1))) by lia.
Qed.

Lemma file_cell_negative ls r c : r < 0 → file_cell ls r c = None.
Proof.
  intros Hr. unfold file_cell. by rewrite (proj2 (Z.leb_gt 0 r)) by done.
Qed.

Lemma buffer_cell_cons b bs r c :
  buffer_cell (b :: bs) r c =
    if r =? 0 then (if 0 <=? c
                    then cs ← line_cells b; cs !! Z.to_nat c
                    else None)
    else buffer_cell bs (r - 1) c.
Proof.
  unfold buffer_cell. destruct (Z.eqb_spec r 0) as [->|Hne]; [done|].
  destruct (Z.leb_spec 0 r), (Z.leb_spec 0 (r - 1)), (Z.leb_spec 0 c);
    simpl; try done; try lia.
  by replace (Z.to_nat r) with (S (Z.to_nat (r - 1))) by lia.
Qed.

Lemma buffer_cell_negative bs r c : r < 0 → buffer_cell bs r c = None.
Proof.
  intros Hr. unfold buffer_cell. by rewrite (proj2 (Z.leb_gt 0 r)) by done.
Qed.

Lemma line_buffers_length ls : ∀ buf, length (line_buffers ls buf) = length ls.
Proof. induction ls as [|l ls IH]; intros buf; simpl; [done|by rewrite IH]. Qed.

(** The outer loop of [gridfile] on a file whose scans fit, from row
    [r0] and with the line buffer [buf]. *)
Lemma scan_lines_spec st ls : ∀ buf r0 g,
  wf st → length g = length (grid st) →
  0 ≤ r0 → r0 + Z.of_nat (length ls) ≤ gh st →
  Forall (λ b, ∃ cs, line_cells b = Some cs ∧
                     Z.of_nat (length cs) ≤ gw st) (line_buffers ls buf) →
  ∃ g', scan_lines ls buf r0 (set_grid g st) = Some (set_grid g' st) ∧
    length g' = length (grid st) ∧
    ∀ r c, 0 ≤ r < gh st → 0 ≤ c < gw st →
      cell (set_grid g' st) r c =
        default (cell (set_grid g st) r c)
          (buffer_cell (line_buffers ls buf) (r - r0) c).
Proof.
  induction ls as [|l ls IH]; intros buf r0 g Hwf Hlen Hr0 Hrows Hfit.
  - exists g. split; [done|]. split; [done|]. intros r c _ _.
    unfold buffer_cell. by destruct (_ && _).
  - cbn [line_buffers] in Hfit |- *.
    apply Forall_cons in Hfit as [(cs & Hcs & Hw) Hfit].
    simpl length in Hrows.
    destruct (scan_line_cells st r0 (getline buf l) cs g Hwf Hlen
                ltac:(lia) Hcs Hw) as (g1 & Hrun1 & Hlen1 & Hg1).
    destruct (IH (getline buf l) (r0 + 1) g1 Hwf Hlen1 ltac:(lia) ltac:(lia)
                Hfit) as (g2 & Hrun2 & Hlen2 & Hg2).
    pose proof (wf_bounds st Hwf) as (_ & Hgh & _).
    exists g2. split; [|split; [done|]].
    + cbn [scan_lines]. cbv zeta. rewrite Hrun1. cbn [mbind option_bind].
      rewrite int_add_small by (unfold Int.INT_MIN, Int.INT_MAX in *; lia).
      exact Hrun2.
    + intros r c Hr Hc. rewrite Hg2, Hg1 by done.
      rewrite buffer_cell_cons.
      destruct (Z.eqb_spec (r - r0) 0) as [Heq|Hne].
      * rewrite buffer_cell_negative by lia. simpl.
        rewrite decide_True by lia.
        rewrite (proj2 (Z.leb_le 0 c)) by lia. by rewrite Hcs.
      * replace (r - (r0 + 1)) with (r - r0 - 1) by lia.
        by rewrite decide_False by lia.
Qed.

(** A scan that ends in the line itself does not see what lies behind
    it in the buffer. *)
Lemma line_cells_app (cs : list Z) : ∀ p q,
  line_cells p = Some cs → line_cells (p ++ q) = Some cs.
Proof.
  induction cs as [|v cs IH]; intros p q Hp.
  - destruct p as [|ch rest]; [done|]. simpl in *.
    destruct (Ascii.eqb ch NUL || Ascii.eqb ch NL); [done|].
    destruct rest as [|x p']; [done|]. by destruct (line_cells p').
  - destruct p as [|ch rest]; [done|]. simpl in *.
    destruct (Ascii.eqb ch NUL || Ascii.eqb ch NL); [done|].
    destruct rest as [|x p']; [done|]. simpl.
    destruct (line_cells p') as [cs'|] eqn:Hp'; [|done].
    injection Hp as <- <-. by rewrite (IH p' q Hp').
Qed.

Lemma fits_scans_fit st ls : ∀ buf,
  Forall (λ l, ∃ cs, line_cells (l ++ [NUL]) = Some cs ∧
                     Z.of_nat (length cs) ≤ gw st) ls →
  Forall (λ b, ∃ cs, line_cells b = Some cs ∧
                     Z.of_nat (length cs) ≤ gw st) (line_buffers ls buf) ∧
  ∀ r c, buffer_cell (line_buffers ls buf) r c = file_cell ls r c.
Proof.
  induction ls as [|l ls IH]; intros buf Hfit.
  - split; [apply Forall_nil_2|]. intros r c.
    unfold buffer_cell, file_cell. by destruct (_ && _).
  - apply Forall_cons in Hfit as [(cs & Hcs & Hw) Hfit].
    destruct (IH (getline buf l) Hfit) as [Hall Hcell].
    pose proof (line_cells_app cs _ (drop (length l + 1) buf) Hcs) as Hbuf.
    split.
    + cbn [line_buffers]. apply Forall_cons. split; [|done].
      exists cs. by split.
    + intros r c. cbn [line_buffers].
      rewrite buffer_cell_cons, file_cell_cons, Hcell.
      unfold getline. by rewrite Hbuf, Hcs.
Qed.

(** A character of a decoded cell: position [2 * c] of the line. *)
Lemma line_cells_lookup (cs : list Z) : ∀ p (c : nat) v,
  line_cells p = Some cs → cs !! c = Some v →
  ∃ ch, p !! (2 * c)%nat = Some ch ∧ v = char_bit ch ∧ ch ≠ NUL ∧ ch ≠ NL.
Proof.
  induction cs as [|x cs IH]; intros p c v Hp Hv; [done|].
  destruct p as [|ch rest]; [done|]. simpl in Hp.
  destruct (Ascii.eqb_spec ch NUL) as [|Hnul]; [done|].
  destruct (Ascii.eqb_spec ch NL) as [|Hnl]; [done|]. simpl in Hp.
  destruct rest as [|y p']; [done|].
  destruct (line_cells p') as [cs'|] eqn:Hp'; [|done].
  injection Hp as <- <-.
  destruct c as [|c].
  - injection Hv as <-. by exists ch.
  - simpl in Hv. destruct (IH p' c v Hp' Hv) as (ch' & Hl & Hrest).
    exists ch'. split; [|done].
    by replace (2 * S c)%nat with (S (S (2 * c))) by lia.
Qed.

(** Conversely, a character at position [2 * c] is decoded when no
    terminator stands at an even position before it. *)
Lemma line_cells_complete (cs : list Z) : ∀ p (c : nat) ch,
  line_cells p = Some cs →
  (∀ k x, (k ≤ c)%nat → p !! (2 * k)%nat = Some x → x ≠ NUL ∧ x ≠ NL) →
  p !! (2 * c)%nat = Some ch →
  cs !! c = Some (char_bit ch).
Proof.
  induction cs as [|x cs IH]; intros p c ch Hp Hclean Hch.
  - destruct p as [|ch0 rest]; [done|]. simpl in Hp.
    destruct (Hclean O ch0) as [Hnul Hnl]; [lia|done|].
    rewrite <- Ascii.eqb_neq in Hnul, Hnl. rewrite Hnul, Hnl in Hp.
    simpl in Hp. destruct rest as [|y p']; [done|].
    by destruct (line_cells p').
  - destruct p as [|ch0 rest]; [done|]. simpl in Hp.
    destruct (Ascii.eqb ch0 NUL || Ascii.eqb ch0 NL); [done|].
    destruct rest as [|y p']; [done|].
    destruct (line_cells p') as [cs'|] eqn:Hp'; [|done].
    injection Hp as <- <-.
    destruct c as [|c]; [by injection Hch as ->|].
    replace (2 * S c)%nat with (S (S (2 * c))) in Hch by lia.
    simpl in Hch. simpl. apply (IH p' c ch Hp'); [|done].
    intros k y' Hk Hy. apply (Hclean (S k)); [lia|].
    by replace (2 * S k)%nat with (S (S (2 * k))) by lia.
Qed.

(** [gridfile] on a file whose scans fit the grid: it returns 0, and a
    cell takes the state the scan of its line buffer decodes for it, and
    keeps its state when there is none. *)
Lemma gridfile_scans_fit st bytes :
  wf st → scans_fit st (file_buffers bytes) →
  ∃ st', gridfile (Some bytes) st = Some (0, st') ∧
    wf st' ∧ gw st' = gw st ∧ gh st' = gh st ∧
    generation st' = generation st ∧
    ∀ r c, 0 ≤ r < gh st → 0 ≤ c < gw st →
      cell st' r c =
        default (cell st r c) (buffer_cell (file_buffers bytes) r c).
Proof.
  intros Hwf [Hrows Hfit]. unfold file_buffers in *.
  rewrite line_buffers_length in Hrows.
  destruct (scan_lines_spec st (split_lines [] bytes) [] 0 (grid st) Hwf
              eq_refl ltac:(lia) ltac:(lia) Hfit)
    as (g' & Hrun & Hlen & Hg').
  rewrite set_grid_id in Hrun, Hg'.
  exists (set_grid g' st). split; [unfold gridfile; by rewrite Hrun|].
  split; [by apply set_grid_wf|]. do 3 (split; [done|]).
  intros r c Hr Hc. rewrite Hg' by done. by rewrite Z.sub_0_r.
Qed.

(** [gridfile] on a file that fits the grid: it returns 0, and a cell
    takes the state its character stands for when the file has one for
    it, and keeps its state otherwise. *)
Lemma gridfile_fits st bytes :
  wf st → fits st (split_lines [] bytes) →
  ∃ st', gridfile (Some bytes) st = Some (0, st') ∧
    wf st' ∧ gw st' = gw st ∧ gh st' = gh st ∧
    generation st' = generation st ∧
    ∀ r c, 0 ≤ r < gh st → 0 ≤ c < gw st →
      cell st' r c =
        default (cell st r c) (file_cell (split_lines [] bytes) r c).
Proof.
  intros Hwf [Hrows Hfit].
  destruct (fits_scans_fit st (split_lines [] bytes) [] Hfit)
    as [Hall Hcell].
  destruct (gridfile_scans_fit st bytes Hwf) as (st' & Hrun & Hrest).
  { split; [|done]. unfold file_buffers. by rewrite line_buffers_length. }
  exists st'. split; [done|]. unfold file_buffers in Hrest.
  destruct Hrest as (? & ? & ? & ? & Hc). do 4 (split; [done|]).
  intros r c Hr Hcol. by rewrite Hc, Hcell.
Qed.

(** In a file that fits, loaded on the all-dead grid, the alive cells
    are those whose character, at position [2 * col] of line [row], is
    a decoded '1'. *)
Lemma gridfile_fits_alive st bytes :
  wf st → (∀ r c, cell st r c = 0) → fits st (split_lines [] bytes) →
  ∃ st', gridfile (Some bytes) st = Some (0, st') ∧
    wf st' ∧
    ∀ r c, 0 ≤ r < gh st → 0 ≤ c < gw st →
      (cell st' r c = 0 ∨ cell st' r c = 1) ∧
      (cell st' r c = 1 ↔ file_cell (split_lines [] bytes) r c = Some 1) ∧
      (cell st' r c = 1 →
       ∃ l, split_lines [] bytes !! Z.to_nat r = Some l ∧
            l !! (2 * Z.to_nat c)%nat = Some "1"%char).
Proof.
  intros Hwf Hdead Hfit.
  destruct (gridfile_fits st bytes Hwf Hfit)
    as (st' & Hrun & Hwf' & _ & _ & _ & Hcell).
  exists st'. split; [done|]. split; [done|].
  intros r c Hr Hc. rewrite Hcell, Hdead by done.
  assert (∀ v, file_cell (split_lines [] bytes) r c = Some v →
            ∃ l ch, split_lines [] bytes !! Z.to_nat r = Some l ∧
                    l !! (2 * Z.to_nat c)%nat = Some ch ∧ v = char_bit ch)
    as Hchar.
  { intros v. unfold file_cell.
    rewrite (proj2 (Z.leb_le 0 r)), (proj2 (Z.leb_le 0 c)) by lia. simpl.
    destruct (split_lines [] bytes !! Z.to_nat r) as [l|] eqn:Hl; [|done].
    simpl. destruct (line_cells (l ++ [NUL])) as [cs|] eqn:Hcs; [|done].
    simpl. intros Hv.
    destruct (line_cells_lookup cs _ _ _ Hcs Hv) as (ch & Hch & -> & Hnul & _).
    exists l, ch. split; [done|]. split; [|done].
    destruct (decide (2 * Z.to_nat c < length l)%nat) as [Hlt|Hge].
    - by rewrite lookup_app_l in Hch.
    - rewrite lookup_app_r in Hch by lia.
      destruct (2 * Z.to_nat c - length l)%nat; [|done].
      by injection Hch as <-. }
  destruct (file_cell (split_lines [] bytes) r c) as [v|] eqn:Hv; simpl.
  - destruct (Hchar v eq_refl) as (l & ch & Hl & Hch & ->).
    clear Hchar Hv. unfold char_bit.
    destruct (Ascii.eqb_spec ch "1"%char) as [Heq|Hne].
    + rewrite Heq in Hch. split; [by right|]. split; [done|].
      intros _. by exists l.
    + split; [by left|]. split; [done|]. done.
  - split; [by left|]. split; done.
Qed.

(** C4 fails on the code: [gridfile] never compares a row with [gh] or a
    column with [gw].  On the default 256 x 256 grid a file of 256 lines
    loads, but the 257th line of a file is written past the end of the
    buffer; a single line of 257 cells makes cell (1, 0) alive although
    the file has no second line; and a last line of odd length without
    a newline makes the scan step over the terminating NUL. *)
Theorem gridfile_unchecked_bounds :
  loaded (gridfile (Some (lines_of_1 256)) default_24x80) (λ _, true) = true ∧
  gridfile (Some (lines_of_1 257)) default_24x80 = None ∧
  store (grid default_24x80) (256 *i gw default_24x80 +i 0) 1 = None ∧
  loaded (gridfile (Some (wide_line 257)) default_24x80)
    (λ st, cell st 1 0 =? 1) = true ∧
  length (split_lines [] (wide_line 257)) = 1%nat ∧
  gridfile (Some ["1"%char]) default_24x80 = None.
Proof.
  do 5 (split; [vm_compute; reflexivity|]). vm_compute; reflexivity.
Qed.

(** ** The theorems at concrete inputs *)

Lemma blinker_5x5_wf : wf blinker_5x5.
Proof.
  constructor; simpl; unfold Int.in_range, Int.INT_MIN, Int.INT_MAX;
    (lia || reflexivity).
Defined.

Lemma blinker_5x5_binary : binary blinker_5x5.
Proof.
  unfold binary. simpl.
  repeat (apply Forall_cons; split;
          [(left; reflexivity) || (right; reflexivity)|]).
  apply Forall_nil_2.
Defined.

Lemma blinker_5x5_shows : shows blinker_5x5 (hline 2 2).
Proof.
  intros r c Hr Hc. simpl in Hr, Hc.
  assert (r = 0 ∨ r = 1 ∨ r = 2 ∨ r = 3 ∨ r = 4) as Hr' by lia.
  assert (c = 0 ∨ c = 1 ∨ c = 2 ∨ c = 3 ∨ c = 4) as Hc' by lia.
  destruct Hr' as [->|[->|[->|[->| ->]]]];
    destruct Hc' as [->|[->|[->|[->| ->]]]]; reflexivity.
Defined.

Lemma tick_synchronous_generation_witness :
  wf blinker_int_max ∧ binary blinker_int_max ∧
  generation blinker_int_max = 2147483647 ∧
  ∃ st', tick blinker_int_max = Some st' ∧ generation st' = -2147483648 ∧
         cell st' 1 2 = 1 ∧ cell st' 2 1 = 0.
Proof.
  assert (wf blinker_int_max) as Hwf
    by (constructor; simpl; unfold Int.in_range, Int.INT_MIN, Int.INT_MAX;
        (lia || reflexivity)).
  split; [exact Hwf|]. split; [exact blinker_5x5_binary|].
  split; [reflexivity|].
  destruct (tick_synchronous_generation blinker_int_max Hwf
              blinker_5x5_binary)
    as (st' & Htick & _ & _ & Hgen & _ & _ & _ & Hcells).
  exists st'. split; [exact Htick|].
  split; [exact (proj1 (Hgen eq_refl))|]. split.
  - destruct (Hcells 1 2) as [H _]; [simpl; lia..|]. exact H.
  - destruct (Hcells 2 1) as [H _]; [simpl; lia..|]. exact H.
Defined.

Lemma neighbors_hard_boundary_witness :
  wf blinker_5x5 ∧ 0 ≤ 0 < gw blinker_5x5 * gh blinker_5x5 ∧
  examined blinker_5x5 0 = [1; 6; 5] ∧
  (length (examined blinker_5x5 0) ≤ 3)%nat ∧
  is_Some (neighbors blinker_5x5 0).
Proof.
  split; [exact blinker_5x5_wf|]. split; [simpl; lia|].
  destruct (neighbors_hard_boundary blinker_5x5 0 blinker_5x5_wf)
    as (_ & _ & Hex & _ & _ & Hsome & _ & _ & Hcorner); [simpl; lia|].
  split; [exact Hex|]. split; [|exact Hsome].
  apply Hcorner; left; reflexivity.
Defined.

Lemma blinker_period_2_witness :
  wf blinker_5x5 ∧ shows blinker_5x5 (hline 2 2) ∧
  ∃ st1 st2, tick blinker_5x5 = Some st1 ∧ shows st1 (vline 2 2) ∧
             tick st1 = Some st2 ∧ grid st2 = grid blinker_5x5.
Proof.
  split; [exact blinker_5x5_wf|]. split; [exact blinker_5x5_shows|].
  destruct (blinker_period_2 blinker_5x5 2 2 blinker_5x5_wf)
    as (st1 & st2 & H1 & Hv & H2 & _ & Hback & _);
    [simpl; lia..|exact blinker_5x5_shows|].
  exists st1, st2. auto.
Defined.

Lemma tick_commit_copies_scratch_witness :
  wf blinker_5x5 ∧
  for_lt 0 (gs blinker_5x5) commit_cell blinker_5x5
    = Some (commit_all blinker_5x5) ∧
  ∃ st', tick blinker_5x5 = Some st' ∧ grid st' = diff st'.
Proof.
  split; [exact blinker_5x5_wf|].
  destruct (tick_commit_copies_scratch blinker_5x5 blinker_5x5_wf)
    as (Hloop & (st1 & st' & _ & Htick & _ & Heq & _) & _).
  split; [exact Hloop|]. exists st'. auto.
Defined.

Lemma startup_two_zeroed_buffers_witness :
  e_calloc_grid plain_env = true ∧ e_calloc_diff plain_env = true ∧
  ∃ st, alloc_grids plain_env (setup plain_env initial_state) = Ret st ∧
        gs st = gw st * gh st ∧
        length (grid st) = Z.to_nat (gw st * gh st) ∧
        length (diff st) = Z.to_nat (gw st * gh st) ∧
        ∀ r c, cell st r c = 0.
Proof.
  split; [reflexivity|]. split; [reflexivity|].
  destruct (startup_two_zeroed_buffers plain_env eq_refl eq_refl)
    as (st & Hrun & _ & _ & Hs & Hg & Hd & _ & _ & _ & _ & Hdead & _).
  exists st. auto.
Defined.

Lemma random_seeding_region_witness :
  wf (set_grid (replicate 25 0) blinker_5x5) ∧
  (∀ r c, cell (set_grid (replicate 25 0) blinker_5x5) r c = 0) ∧
  ∃ st', populate plain_env None (set_grid (replicate 25 0) blinker_5x5)
           = Ret st' ∧
         cell st' 0 0 = 1 ∧ cell st' 0 1 = 0 ∧ cell st' 0 4 = 1.
Proof.
  assert (wf (set_grid (replicate 25 0) blinker_5x5)) as Hwf
    by (constructor; simpl; unfold Int.in_range, Int.INT_MIN, Int.INT_MAX;
        (lia || reflexivity)).
  assert (∀ r c, cell (set_grid (replicate 25 0) blinker_5x5) r c = 0) as Hdead
    by (intros r c; apply (replicate_dead 25); reflexivity).
  split; [exact Hwf|]. split; [exact Hdead|].
  destruct (random_seeding_region plain_env _ Hwf Hdead)
    as (st' & Hrun & _ & _ & _ & _ & Hcells).
  exists st'. split; [exact Hrun|].
  split; [|split].
  - destruct (Hcells 0 0) as [H _]; [simpl; lia..|].
    destruct H as [[_ H] _]; [simpl; lia|]. apply H. exists 0. reflexivity.
  - destruct (Hcells 0 1) as [H _]; [simpl; lia..|].
    destruct H as [_ [_ H]]; [simpl; lia|]. apply H.
    intros [q Hq]. simpl in Hq. lia.
  - destruct (Hcells 0 4) as [H _]; [simpl; lia..|].
    destruct H as [[_ H] _]; [simpl; lia|]. apply H. exists 1. reflexivity.
Defined.

Lemma draw_header_shows_terminal_size_witness :
  wf blinker_5x5 ∧
  ∃ out, draw blinker_5x5 = Some out ∧
         shows_header out (header_text blinker_5x5) = true.
Proof.
  split; [exact blinker_5x5_wf|].
  destruct (draw_header_shows_terminal_size blinker_5x5 blinker_5x5_wf)
    as (out & rest & Hd & _ & Hh).
  exists out. auto.
Defined.

Lemma default_run_leaves_loop_witness :
  parse_flags plain_env [("d"%char, Some "0"%string)] (Config 250 0 0)
    = Ret (Config 0 0 0) ∧
  Forall (λ f : ascii * option string, f.1 ≠ "n"%char)
    [("d"%char, Some "0"%string)] ∧
  e_calloc_grid plain_env = true ∧ e_calloc_diff plain_env = true ∧
  ∃ k0 : nat,
    main (k0 + Z.to_nat 4294967296) plain_env
      (Args [("d"%char, Some "0"%string)] None) = Exit 0 EmptyString.
Proof.
  assert (Forall (λ f : ascii * option string, f.1 ≠ "n"%char)
            [("d"%char, Some "0"%string)]) as Hnon.
  { apply Forall_cons. split; [|apply Forall_nil_2].
    simpl. intros H. discriminate H. }
  split; [reflexivity|]. split; [exact Hnon|].
  split; [reflexivity|]. split; [reflexivity|].
  destruct (default_run_leaves_loop plain_env
              (Args [("d"%char, Some "0"%string)] None) (Config 0 0 0)
              eq_refl Hnon eq_refl eq_refl eq_refl)
    as (_ & k0 & _ & Hend).
  exists k0. exact Hend.
Defined.

Lemma exit_status_always_zero_witness :
  main 0 plain_env (Args [("v"%char, None)] None)
    = Exit 0 (version_message plain_env) ∧
  0 = 0.
Proof.
  split; [reflexivity|].
  exact (proj1 exit_status_always_zero 0%nat plain_env
           (Args [("v"%char, None)] None) 0 (version_message plain_env)
           eq_refl).
Defined.

(** ** The model at work *)

Example tick_blinker_5x5 :
  grid <$> tick blinker_5x5 =
    Some [0; 0; 0; 0; 0;
          0; 0; 1; 0; 0;
          0; 0; 1; 0; 0;
          0; 0; 1; 0; 0;
          0; 0; 0; 0; 0].
Proof. vm_compute. reflexivity. Qed.

Example neighbors_blinker_5x5 :
  (λ pos, neighbors blinker_5x5 pos) <$> [0; 6; 7; 11; 12; 17; 24] =
    Some <$> [0; 2; 3; 1; 2; 3; 0].
Proof. vm_compute. reflexivity. Qed.

Example gridfile_1_0_1 :
  (λ rs, grid rs.2) <$>
    gridfile (Some ["1"; " "; "0"; " "; "1"; NL]%char)
      (set_grid (replicate 25 0) blinker_5x5) =
    Some ([1; 0; 1; 0; 0] ++ replicate 20 0).
Proof. vm_compute. reflexivity. Qed.

Example gridfile_odd_tail :
  (λ rs, grid rs.2) <$> gridfile (Some file_odd_tail) dead_5x5 =
    Some ([1; 1; 1; 1; 0;
           1; 1; 1; 1; 0] ++ replicate 15 0).
Proof. vm_compute. reflexivity. Qed.

Example gridrand_5x5 :
  (λ sk : state * nat, (grid sk.1, sk.2)) <$>
    gridrand (λ k, Z.of_nat k) 3 2 (set_grid (replicate 25 0) blinker_5x5, O) =
    Some ([1; 0; 0; 0; 0;
           0; 1; 0; 0; 0] ++ replicate 15 0, 6%nat).
Proof. vm_compute. reflexivity. Qed.

Example header_24x80 :
  header_text default_24x80 =
    ("Conway's Game of Life " ++ SDOT ++ " #0 " ++ SDOT ++ " 24x80" ++
     CLEARRIGHT)%string.
Proof. vm_compute. reflexivity. Qed.

Example atoi_examples :
  atoi "250" = 250 ∧ atoi " -7x" = -7 ∧ atoi "+12" = 12 ∧ atoi "abc" = 0.
Proof. vm_compute. auto. Qed.

(** * Further properties of the code *)

(** ** tick on patterns *)

(** X1: [tick] is one generation of Life on the unbounded plane, cut to
    the grid: when the grid shows a pattern of dead and alive cells that
    lies inside the grid, [tick] returns and the grid shows the next
    generation of the pattern; cells the pattern would bear outside the
    grid are lost, the border counting as dead. *)
Theorem tick_is_life_cut_to_grid st pat :
  wf st → shows st pat →
  (∀ r c, pat r c = 0 ∨ pat r c = 1) →
  (∀ r c, pat r c ≠ 0 → 0 ≤ r < gh st ∧ 0 ≤ c < gw st) →
  ∃ st', tick st = Some st' ∧ shows st' (life pat) ∧
         wf st' ∧ binary st' ∧ gw st' = gw st ∧ gh st' = gh st.
Proof.
  intros Hwf Hsh Hbin Hin. exists (ticked st).
  split; [by apply tick_closed|].
  split; [by apply ticked_shows|].
  split; [by apply ticked_wf|].
  split; [|done].
  apply ticked_binary; [done|]. by eapply shows_binary.
Qed.

Lemma life_dead_plane r c : life dead_plane r c = 0.
Proof. reflexivity. Qed.

Lemma life_dot r0 c0 r c : life (dot r0 c0) r c = 0.
Proof. unfold life, count8, dot. settle_comparisons; reflexivity. Qed.

Lemma life_block r0 c0 r c : life (block r0 c0) r c = block r0 c0 r c.
Proof.
  unfold life, count8, block.
  assert (r < r0 - 1 ∨ r = r0 - 1 ∨ r = r0 ∨ r = r0 + 1 ∨ r = r0 + 2 ∨
          r0 + 2 < r) as [Hr|[Hr|[Hr|[Hr|[Hr|Hr]]]]] by lia;
  assert (c < c0 - 1 ∨ c = c0 - 1 ∨ c = c0 ∨ c = c0 + 1 ∨ c = c0 + 2 ∨
          c0 + 2 < c) as [Hc|[Hc|[Hc|[Hc|[Hc|Hc]]]]] by lia;
  settle_comparisons; reflexivity.
Qed.

Lemma shows_dead_cells st :
  wf st → shows st dead_plane → ∀ r c, cell st r c = 0.
Proof.
  intros Hwf Hsh r c. destruct (in_grid st r c) eqn:Hin.
  - apply in_grid_spec in Hin as [Hr Hc]. by apply Hsh.
  - unfold cell. by rewrite Hin.
Qed.

(** X2: on a grid of any size, an all-dead grid stays all dead: [tick]
    returns the same grid. *)
Theorem tick_dead_grid_stays_dead st :
  wf st → (∀ r c, 0 ≤ r < gh st → 0 ≤ c < gw st → cell st r c = 0) →
  ∃ st', tick st = Some st' ∧ grid st' = grid st ∧ ∀ r c, cell st' r c = 0.
Proof.
  intros Hwf Hdead.
  assert (shows (ticked st) dead_plane) as Hsh.
  { apply (shows_ext _ (life dead_plane)); [apply life_dead_plane|].
    apply ticked_shows; [done|exact Hdead|by left|done]. }
  exists (ticked st). split; [by apply tick_closed|]. split.
  - apply (shows_grid_eq st _ dead_plane); auto using ticked_wf.
  - apply shows_dead_cells; [by apply ticked_wf|done].
Qed.

(** X3: a single alive cell on an otherwise dead grid of any size, at
    any position, border and corner included, dies in one [tick]. *)
Theorem tick_lone_cell_dies st r0 c0 :
  wf st → 0 ≤ r0 < gh st → 0 ≤ c0 < gw st → shows st (dot r0 c0) →
  ∃ st', tick st = Some st' ∧ cell st r0 c0 = 1 ∧ ∀ r c, cell st' r c = 0.
Proof.
  intros Hwf Hr Hc Hsh.
  assert (shows (ticked st) dead_plane) as Hdead.
  { apply (shows_ext _ (life (dot r0 c0))); [apply life_dot|].
    apply ticked_shows; [done|done|..].
    - intros r c. unfold dot. destruct (_ && _); auto.
    - intros r c. unfold dot. settle_comparisons; (done || lia). }
  exists (ticked st). split; [by apply tick_closed|]. split.
  - rewrite Hsh by done. unfold dot. by rewrite !Z.eqb_refl.
  - apply shows_dead_cells; [by apply ticked_wf|done].
Qed.

(** X4: the block of four alive cells is a still life wherever it lies
    in the grid, against the border too: [tick] returns the same grid. *)
Theorem tick_block_is_still st r0 c0 :
  wf st → 0 ≤ r0 → r0 + 1 < gh st → 0 ≤ c0 → c0 + 1 < gw st →
  shows st (block r0 c0) →
  ∃ st', tick st = Some st' ∧ grid st' = grid st ∧ shows st' (block r0 c0).
Proof.
  intros Hwf Hr0 Hr1 Hc0 Hc1 Hsh.
  assert (shows (ticked st) (block r0 c0)) as Hsame.
  { apply (shows_ext _ (life (block r0 c0))); [apply life_block|].
    apply ticked_shows; [done|done|..].
    - intros r c. unfold block. destruct (_ && _); auto.
    - intros r c. unfold block. settle_comparisons; (done || lia). }
  exists (ticked st). split; [by apply tick_closed|]. split; [|done].
  apply (shows_grid_eq st _ (block r0 c0)); auto using ticked_wf.
Qed.

(** X5: [tick] is local: the new state of a cell is decided by the cell
    and its eight neighbours alone.  Two grids of the same dimensions
    that agree on the 3 x 3 square around a cell give that cell the same
    state. *)
Theorem tick_is_local st1 st2 r c :
  wf st1 → binary st1 → wf st2 → binary st2 →
  gw st2 = gw st1 → gh st2 = gh st1 →
  0 ≤ r < gh st1 → 0 ≤ c < gw st1 →
  (∀ r' c', r - 1 ≤ r' ≤ r + 1 → c - 1 ≤ c' ≤ c + 1 →
            cell st2 r' c' = cell st1 r' c') →
  ∃ st1' st2', tick st1 = Some st1' ∧ tick st2 = Some st2' ∧
               cell st2' r c = cell st1' r c.
Proof.
  intros Hwf1 Hb1 Hwf2 Hb2 Hw Hh Hr Hc Hsame.
  exists (ticked st1), (ticked st2).
  split; [by apply tick_closed|]. split; [by apply tick_closed|].
  rewrite !ticked_cell by (done || rewrite ?Hw, ?Hh; done).
  unfold live_neighbors, count8. by rewrite !Hsame by lia.
Qed.

(** ** neighbors *)

Lemma cells_sum_le st (ps : list (Z * Z)) :
  binary st →
  0 ≤ foldr Z.add 0 ((λ rc, cell st rc.1 rc.2) <$> ps)
    ≤ Z.of_nat (length (filter (λ rc, in_grid st rc.1 rc.2 = true) ps)).
Proof.
  intros Hb. induction ps as [|[r c] ps IH]; [done|].
  rewrite fmap_cons, filter_cons. simpl foldr. simpl fst. simpl snd.
  destruct (cell_binary st r c Hb) as [H0|H1].
  - rewrite H0. case_decide; simpl length; lia.
  - rewrite decide_True.
    + rewrite H1. simpl length. lia.
    + unfold cell in H1. by destruct (in_grid st r c).
Qed.

(** X6: on a grid of dead and alive cells the count [neighbors] returns
    lies between 0 and the number of adjacent positions inside the grid,
    hence between 0 and 8; the sum cannot overflow. *)
Theorem neighbors_count_bounded st pos :
  wf st → binary st → 0 ≤ pos < gs st →
  ∃ n, neighbors st pos = Some n ∧
       0 ≤ n ≤ Z.of_nat (length (examined st pos)) ∧ n ≤ 8.
Proof.
  intros Hwf Hb Hpos. eexists. split; [by apply neighbors_spec|].
  rewrite examined_spec, length_fmap by done.
  pose proof (cells_sum_le st (around (pos / gw st) (pos mod gw st)) Hb) as Hs.
  pose proof (around_in_grid_le_8 st (pos / gw st) (pos mod gw st)) as H8.
  assert (live_neighbors st (pos / gw st) (pos mod gw st) =
          foldr Z.add 0 ((λ rc, cell st rc.1 rc.2) <$>
                           around (pos / gw st) (pos mod gw st))) as ->
    by (unfold live_neighbors, count8; simpl; lia).
  lia.
Qed.





(** ** resize and sigwinch *)

Lemma for_iter_fmap {T : Type} (f : T → T) (body : Z → T → option T) :
  (∀ j s, body j (f s) = f <$> body j s) →
  ∀ (n : nat) (i : Z) (s : T),
    for_iter n i body (f s) = f <$> for_iter n i body s.
Proof.
  intros Hbody. induction n as [|n IH]; intros i s; simpl; [done|].
  rewrite Hbody. destruct (body i s) as [s'|]; simpl; [apply IH|done].
Qed.

Lemma tick_cell_resize r c j st :
  tick_cell j (resize r c st) = resize r c <$> tick_cell j st.
Proof.
  unfold tick_cell.
  change (neighbors (resize r c st) j) with (neighbors st j).
  change (grid (resize r c st)) with (grid st).
  change (diff (resize r c st)) with (diff st).
  destruct (neighbors st j) as [n|]; simpl; [|done].
  destruct (load (grid st) j) as [g|]; simpl; [|done].
  by destruct (store (diff st) j (next_state g n)).
Qed.

Lemma commit_cell_resize r c j st :
  commit_cell j (resize r c st) = resize r c <$> commit_cell j st.
Proof.
  unfold commit_cell.
  change (grid (resize r c st)) with (grid st).
  change (diff (resize r c st)) with (diff st).
  destruct (load (grid st) j) as [g|]; simpl; [|done].
  destruct (load (diff st) j) as [d|]; simpl; [|done].
  destruct (negb (g =? d)); [|done].
  by destruct (store (grid st) j d).
Qed.

(** X8: the simulation never looks at the terminal size.  On every
    state, [tick] after a resize is the resize of [tick]: a resize
    notification between two generations changes neither the next grid
    nor the generation counter, and the handler itself leaves grid,
    scratch buffer and counter as they are. *)
Theorem tick_ignores_resize r c st :
  tick (sigwinch r c st).1 = resize r c <$> tick st ∧
  grid (sigwinch r c st).1 = grid st ∧
  diff (sigwinch r c st).1 = diff st ∧
  generation (sigwinch r c st).1 = generation st ∧
  grid <$> tick (sigwinch r c st).1 = grid <$> tick st ∧
  generation <$> tick (sigwinch r c st).1 = generation <$> tick st.
Proof.
  assert (tick (resize r c st) = resize r c <$> tick st) as Hcomm.
  { unfold tick, for_lt. change (gs (resize r c st)) with (gs st).
    rewrite (for_iter_fmap (resize r c) tick_cell (tick_cell_resize r c)).
    destruct (for_iter _ 0 tick_cell st) as [st1|]; simpl; [|done].
    rewrite (for_iter_fmap (resize r c) commit_cell (commit_cell_resize r c)).
    by destruct (for_iter _ 0 commit_cell st1). }
  simpl. rewrite Hcomm. do 4 (split; [done|]).
  by destruct (tick st).
Qed.

(** ** draw *)

Lemma string_app_nil_r (a : string) : (a ++ "")%string = a.
Proof. induction a as [|x a IH]; simpl; [done|by rewrite IH]. Qed.

Lemma join_app (l1 l2 : list string) :
  join (l1 ++ l2) = (join l1 ++ join l2)%string.
Proof.
  induction l1 as [|x l1 IH]; simpl; [done|].
  unfold join in *. simpl. by rewrite IH, string_app_assoc.
Qed.

Lemma join_snoc (l : list string) (x : string) :
  join (l ++ [x]) = (join l ++ x)%string.
Proof. rewrite join_app. unfold join. simpl. by rewrite string_app_nil_r. Qed.

Lemma seqZ_snoc (j : Z) : 0 ≤ j → seqZ 0 (j + 1) = seqZ 0 j ++ [j].
Proof.
  intros Hj. rewrite seqZ_app by lia.
  rewrite (seqZ_cons (0 + j) 1) by lia.
  by rewrite (seqZ_nil (Z.succ (0 + j))) by lia.
Qed.

(** A loop that appends a text per index appends the texts in order. *)
Lemma for_lt_append (text : Z → string) (body : Z → string → option string)
    (hi : Z) (out : string) :
  (∀ j o, 0 ≤ j < hi → body j o = Some (o ++ text j)%string) →
  for_lt 0 hi body out = Some (out ++ join (text <$> seqZ 0 hi))%string.
Proof.
  intros Hbody. destruct (Z.le_gt_cases 0 hi) as [Hle|Hneg].
  - destruct (for_lt_inv
      (λ j o, o = (out ++ join (text <$> seqZ 0 j))%string) body 0 hi out)
      as (o & Hrun & ->); [done| | |done].
    + simpl. by rewrite string_app_nil_r.
    + intros j o Hj ->. eexists. split; [by apply Hbody|].
      rewrite seqZ_snoc, fmap_app by lia. simpl. rewrite join_snoc.
      by rewrite string_app_assoc.
  - rewrite for_lt_empty by lia. rewrite seqZ_nil by lia. simpl.
    by rewrite string_app_nil_r.
Qed.

Lemma draw_cell_text st r c out :
  wf st → 0 ≤ r < gh st → 0 ≤ c < gw st →
  draw_cell r c st out =
    Some (out ++ mvprintf (1 +i c) (2 +i r) (cell_text (cell st r c)))%string.
Proof.
  intros Hwf Hr Hc. unfold draw_cell.
  destruct (index_small st r c Hwf Hr Hc) as [-> Hidx].
  rewrite load_lookup by lia. by rewrite cell_lookup.
Qed.

Lemma draw_frame st : wf st → draw st = Some (frame_text st).
Proof.
  intros Hwf. unfold draw.
  rewrite (for_lt_append (row_text st)).
  - unfold frame_text. cbn [mbind option_bind]. f_equal.
    by rewrite !string_app_assoc.
  - intros r o Hr. apply for_lt_append. intros c o' Hc.
    apply draw_cell_text; (done || lia).
Qed.

(** X9: [draw] returns on every well-formed state whatever the terminal
    size, reads no cell outside the grid, and prints exactly: cursor off,
    the header at the top left, then for each of the first
    min(rows - 1, gh) rows and min(cols, gw) columns, row by row, a move
    to column col + 1 of line row + 2 followed by the cell (a blank, or
    a blank in reverse video when alive), then the cursor parked at
    (rows, cols) and switched on.  With fewer than 2 lines or no column
    no cell is drawn. *)
Theorem draw_prints_the_visible_cells st :
  wf st →
  draw st = Some (frame_text st) ∧
  (Z.min (rows st -i 1) (gh st) ≤ 0 ∨ Z.min (cols st) (gw st) ≤ 0 →
   draw st = Some (CURSOFF ++ mvprintf 1 1 (header_text st) ++
                   CURPOS (rows st) (cols st) ++ CURSON)%string).
Proof.
  intros Hwf. split; [by apply draw_frame|].
  intros Hnone. rewrite draw_frame by done. unfold frame_text.
  do 3 f_equal.
  assert (join (row_text st <$> seqZ 0 (Z.min (rows st -i 1) (gh st)))
          = EmptyString) as ->; [|done].
  destruct Hnone as [Hr|Hc].
  - by rewrite seqZ_nil by done.
  - unfold row_text. rewrite (seqZ_nil 0 (Z.min (cols st) (gw st))) by done.
    simpl. induction (seqZ 0 _) as [|x l IH]; [done|]. simpl. exact IH.
Qed.

(** X10: a frame shows the visible cells, the generation and the
    terminal size, and nothing else: two well-formed states of the same
    dimensions, terminal size and generation whose cells agree on the
    first min(rows - 1, gh) rows and min(cols, gw) columns are drawn
    alike, whatever the cells beyond. *)
Theorem draw_depends_on_visible_cells st1 st2 :
  wf st1 → wf st2 →
  gw st2 = gw st1 → gh st2 = gh st1 →
  rows st2 = rows st1 → cols st2 = cols st1 →
  generation st2 = generation st1 →
  (∀ r c, 0 ≤ r < Z.min (rows st1 -i 1) (gh st1) →
          0 ≤ c < Z.min (cols st1) (gw st1) →
          cell st2 r c = cell st1 r c) →
  draw st2 = draw st1.
Proof.
  intros Hwf1 Hwf2 Hw Hh Hrows Hcols Hgen Hsame.
  rewrite !draw_frame by done. f_equal.
  unfold frame_text, header_text, row_text.
  rewrite Hw, Hh, Hrows, Hcols, Hgen. do 4 f_equal.
  apply list_fmap_ext. intros i r Hr.
  apply lookup_seqZ in Hr as [-> Hr].
  f_equal. apply list_fmap_ext. intros j c Hc.
  apply lookup_seqZ in Hc as [-> Hc]. rewrite Hsame by lia. done.
Qed.

(** ** The loops of main *)

Lemma iter_ticked_wf (n : nat) st : wf st → wf (Nat.iter n ticked st).
Proof. intros Hwf. induction n as [|n IH]; simpl; auto using ticked_wf. Qed.

Lemma iter_ticked_generation (n : nat) st :
  wf st → generation st + Z.of_nat n ≤ Int.INT_MAX →
  generation (Nat.iter n ticked st) = generation st + Z.of_nat n.
Proof.
  intros Hwf. induction n as [|n IH]; intros Hmax; simpl; [lia|].
  rewrite IH by lia. destruct (wf_generation st Hwf) as [Hmin _].
  rewrite int_add_small; unfold Int.INT_MIN, Int.INT_MAX in *; lia.
Qed.

Lemma warmup_run (g : nat) : ∀ d,
  wf (d_state d) → Z.to_nat (d_gen d) = g → d_gen d ≤ Int.INT_MAX →
  steps (S g) (WarmingUp, d) =
    Some (Running,
          Driver (Nat.iter g ticked (d_state d)) (d_delay d)
            (Z.min (d_gen d) 0 -i 1) (d_ticks d) (d_trace d)).
Proof.
  induction g as [|g IH]; intros d Hwf Hg Hmax.
  - rewrite steps_S. unfold step.
    rewrite (proj2 (Z.ltb_ge 0 (d_gen d))) by lia.
    by replace (Z.min (d_gen d) 0) with (d_gen d) by lia.
  - rewrite steps_S. unfold step at 1.
    rewrite (proj2 (Z.ltb_lt 0 (d_gen d))) by lia.
    rewrite tick_closed by done. cbn [mbind option_bind].
    assert (d_gen d -i 1 = d_gen d - 1) as Hdec
      by (apply int_sub_small; unfold Int.INT_MIN, Int.INT_MAX in *; lia).
    rewrite IH; cbn [d_state d_delay d_gen d_ticks d_trace].
    + rewrite Nat.iter_succ_r. rewrite Hdec.
      by replace (Z.min (d_gen d - 1) 0) with (Z.min (d_gen d) 0) by lia.
    + by apply ticked_wf.
    + lia.
    + lia.
Qed.

(** X11: the warm-up loop [while(gen-- > 0) tick();] with a count
    [gen] makes exactly [gen] generations when [gen] is positive and
    none otherwise, draws nothing and does not sleep, leaves the budget
    alone and hands over to the main loop; the generation counter then
    reads [gen] more, short of overflow. *)
Theorem warmup_makes_gen_generations d :
  wf (d_state d) → d_gen d ≤ Int.INT_MAX →
  let g := Z.to_nat (d_gen d) in
  ∃ d', steps (S g) (WarmingUp, d) = Some (Running, d') ∧
    d_state d' = Nat.iter g ticked (d_state d) ∧
    d_trace d' = d_trace d ∧ d_ticks d' = d_ticks d ∧
    d_delay d' = d_delay d ∧
    wf (d_state d') ∧
    (d_gen d ≤ 0 → d_state d' = d_state d) ∧
    (generation (d_state d) + Z.of_nat g ≤ Int.INT_MAX →
     generation (d_state d') = generation (d_state d) + Z.of_nat g).
Proof.
  intros Hwf Hmax g. eexists. split; [by apply warmup_run|].
  cbn [d_state d_delay d_gen d_ticks d_trace].
  do 4 (split; [done|]). split; [by apply iter_ticked_wf|]. split.
  - intros Hle. unfold g. by replace (Z.to_nat (d_gen d)) with O by lia.
  - by apply iter_ticked_generation.
Qed.

Lemma budget_run (n : nat) : ∀ d,
  wf (d_state d) → d_ticks d = Z.of_nat (S n) → d_ticks d ≤ Int.INT_MAX →
  steps (S n) (Running, d) =
    Some (Terminated,
          Driver (Nat.iter (S n) ticked (d_state d)) (d_delay d) (d_gen d) 0
            (rev (budget_trace (S n) (d_delay d) (d_state d)) ++ d_trace d)).
Proof.
  induction n as [|n IH]; intros d Hwf Ht Hmax.
  - rewrite steps_S. unfold step. rewrite draw_frame, tick_closed by done.
    cbn [mbind option_bind]. rewrite Ht. done.
  - rewrite steps_S. unfold step at 1.
    rewrite draw_frame, tick_closed by done. cbn [mbind option_bind].
    assert (d_ticks d -i 1 = Z.of_nat (S n)) as Hdec.
    { rewrite int_sub_small; unfold Int.INT_MIN, Int.INT_MAX in *; lia. }
    cbv zeta. rewrite Hdec, (proj2 (Z.eqb_neq _ 0)) by lia.
    cbn [mbind option_bind].
    rewrite IH; cbn [d_state d_delay d_gen d_ticks d_trace];
      [|by apply ticked_wf|done|lia].
    rewrite (Nat.iter_succ_r (S n)).
    change (budget_trace (S (S n)) (d_delay d) (d_state d))
      with (Frame (frame_text (d_state d)) :: Sleep (d_delay d) ::
            budget_trace (S n) (d_delay d) (ticked (d_state d))).
    do 2 f_equal. simpl rev. rewrite <- !app_assoc. done.
Qed.

(** X12: the main loop with a budget of [n] passes, 1 <= n, ends after
    exactly [n] passes, [n] generations later, with the counter at 0.
    It has printed [n] frames, the first one of the state it started
    from (a state is drawn before it is advanced), and slept [n - 1]
    times for [delay], between the passes and not after the last. *)
Theorem budget_run_draws_n_frames d :
  wf (d_state d) → 1 ≤ d_ticks d ≤ Int.INT_MAX →
  let n := Z.to_nat (d_ticks d) in
  ∃ d', steps n (Running, d) = Some (Terminated, d') ∧
    d_state d' = Nat.iter n ticked (d_state d) ∧
    d_ticks d' = 0 ∧
    d_trace d' = rev (budget_trace n (d_delay d) (d_state d)) ++ d_trace d ∧
    head (budget_trace n (d_delay d) (d_state d))
      = Some (Frame (frame_text (d_state d))) ∧
    length (filter (λ ev, is_frame ev = true)
              (budget_trace n (d_delay d) (d_state d))) = n ∧
    filter (λ ev, is_frame ev = false)
       (budget_trace n (d_delay d) (d_state d))
      = replicate (n - 1) (Sleep (d_delay d)).
Proof.
  intros Hwf Ht n.
  assert (∃ m, n = S m) as [m Hn] by (exists (Z.to_nat (d_ticks d - 1)); lia).
  rewrite Hn. eexists. split; [apply budget_run; [done|lia|lia]|].
  cbn [d_state d_ticks d_trace]. do 4 (split; [done|]).
  clear. generalize (d_state d) as st. generalize (d_delay d) as delay.
  intros delay. induction m as [|m IH]; intros st.
  - split; done.
  - destruct (IH (ticked st)) as [IH1 IH2].
    change (budget_trace (S (S m)) delay st)
      with (Frame (frame_text st) :: Sleep delay ::
            budget_trace (S m) delay (ticked st)).
    split.
    + rewrite filter_cons_True by done.
      rewrite filter_cons_False by done.
      cbn [length]. by rewrite IH1.
    + rewrite filter_cons_False by done.
      rewrite filter_cons_True by done.
      rewrite IH2. simpl. by rewrite Nat.sub_0_r.
Qed.

(** ** msleep *)

Lemma msleep_request_nonneg ms :
  0 ≤ ms ≤ Int.INT_MAX →
  msleep_request ms = Timespec (ms / 1000) (ms mod 1000 * 1000000).
Proof.
  intros Hms. unfold msleep_request, Int.INT_MAX in *.
  pose proof (Z.div_mod ms 1000 ltac:(lia)) as Hdm.
  pose proof (Z.mod_pos_bound ms 1000 ltac:(lia)) as Hmod.
  assert (0 ≤ ms / 1000) as Hdiv by (apply Z.div_pos; lia).
  rewrite Z.quot_div_nonneg by lia.
  rewrite (wrap_small (ms / 1000))
    by (unfold Int.INT_MIN, Int.INT_MAX; lia).
  destruct (Z.leb_spec 1 (ms / 1000)) as [Hsec|Hsec].
  - assert (ms -i ms / 1000 *i 1000 = ms mod 1000) as ->.
    { unfold Int.sub, Int.mul.
      rewrite (wrap_small (ms / 1000 * 1000))
        by (unfold Int.INT_MIN, Int.INT_MAX; lia).
      rewrite wrap_small by (unfold Int.INT_MIN, Int.INT_MAX; lia). lia. }
    f_equal. destruct (Z.eqb_spec (ms mod 1000) 0) as [->|Hne]; [done|].
    unfold Int.mul. apply wrap_small. unfold Int.INT_MIN, Int.INT_MAX. lia.
  - assert (ms / 1000 = 0 ∧ ms mod 1000 = ms) as [-> ->] by lia.
    f_equal. destruct (Z.eqb_spec ms 0) as [->|Hne]; [done|].
    unfold Int.mul. apply wrap_small. unfold Int.INT_MIN, Int.INT_MAX. lia.
Qed.

(** X13: for a delay of 0 <= ms milliseconds [msleep] asks [nanosleep]
    for a well-formed time of exactly [ms] milliseconds: the whole
    seconds of [ms] and the remaining milliseconds as less than
    1000000000 nanoseconds, with no overflow in the [int] product. *)
Theorem msleep_requests_ms_milliseconds ms :
  0 ≤ ms ≤ Int.INT_MAX →
  tv_sec (msleep_request ms) = ms / 1000 ∧
  tv_nsec (msleep_request ms) = ms mod 1000 * 1000000 ∧
  valid_timespec (msleep_request ms) = true ∧
  to_ns (msleep_request ms) = ms * 1000000.
Proof.
  intros Hms. rewrite msleep_request_nonneg by done.
  unfold valid_timespec, to_ns, Int.INT_MAX in *. simpl.
  pose proof (Z.div_mod ms 1000 ltac:(lia)) as Hdm.
  pose proof (Z.mod_pos_bound ms 1000 ltac:(lia)) as Hmod.
  assert (0 ≤ ms / 1000) as Hdiv by (apply Z.div_pos; lia).
  split; [done|]. split; [done|]. split; [|lia].
  rewrite !andb_true_iff, !Z.leb_le, Z.ltb_lt. lia.
Qed.

Lemma sleep_loop_time (naps : list nap) : ∀ req,
  ((sleep_loop naps req).1 = 0 ∨ (sleep_loop naps req).1 = -1) ∧
  head (sleep_loop naps req).2.*1 = Some req ∧
  (length (sleep_loop naps req).2 ≤ S (length naps))%nat ∧
  ((sleep_loop naps req).1 = 0 →
   time_asleep (sleep_loop naps req).2 = to_ns req ∧
   (valid_timespec req = true)).
Proof.
  induction naps as [|o naps IH]; intros req; simpl; unfold nanosleep.
  - destruct (valid_timespec req); simpl; repeat split; auto; lia.
  - destruct (valid_timespec req) eqn:Hv; [|simpl; repeat split; auto; lia].
    destruct o as [|rem|]; simpl; [repeat split; auto; lia| |
      repeat split; auto; lia].
    specialize (IH rem). destruct (sleep_loop naps rem) as [r log].
    simpl in *. destruct IH as (Hr & _ & Hlen & Hzero).
    split; [done|]. split; [done|]. split; [lia|].
    intros H0. destruct (Hzero H0) as [Ht _]. split; [lia|done].
Qed.

(** X14: an interrupted sleep goes on for the time left, not for the
    whole delay again: whatever signals interrupt [nanosleep], when
    [msleep(ms)] returns 0 the times spent asleep in its calls add up to
    exactly [ms] milliseconds.  It returns 0 or -1, its first call asks
    for the request of [ms], and it makes at most one call more than
    there were interruptions. *)
Theorem msleep_resumes_for_the_rest naps ms :
  0 ≤ ms ≤ Int.INT_MAX →
  ((msleep naps ms).1 = 0 ∨ (msleep naps ms).1 = -1) ∧
  head (msleep naps ms).2.*1 = Some (msleep_request ms) ∧
  (length (msleep naps ms).2 ≤ S (length naps))%nat ∧
  ((msleep naps ms).1 = 0 →
   time_asleep (msleep naps ms).2 = ms * 1000000).
Proof.
  intros Hms. unfold msleep.
  destruct (sleep_loop_time naps (msleep_request ms)) as (Hr & Hhd & Hlen & Ht).
  do 3 (split; [done|]). intros H0. destruct (Ht H0) as [-> _].
  rewrite msleep_request_nonneg by done. unfold to_ns. simpl.
  pose proof (Z.div_mod ms 1000 ltac:(lia)). lia.
Qed.

(** X15: a negative delay of up to 2147 milliseconds makes [msleep] ask
    for a negative number of nanoseconds; [nanosleep] refuses it, and
    [msleep] returns -1 at once, having slept no time at all, whatever
    the signals. *)
Theorem msleep_negative_delay_fails naps ms :
  -2147 ≤ ms < 0 →
  msleep naps ms = (-1, [(Timespec 0 (ms * 1000000), Failed)]) ∧
  time_asleep (msleep naps ms).2 = 0.
Proof.
  intros Hms.
  assert (msleep_request ms = Timespec 0 (ms * 1000000)) as Hreq.
  { unfold msleep_request.
    assert (Z.quot ms 1000 = - (- ms / 1000)) as ->.
    { replace ms with (- - ms) at 1 by lia.
      rewrite Z.quot_opp_l by lia. by rewrite Z.quot_div_nonneg by lia. }
    assert (0 ≤ - ms / 1000 ≤ 2).
    { split; [apply Z.div_pos; lia|].
      apply Z.lt_succ_r, Z.div_lt_upper_bound; lia. }
    rewrite (wrap_small (- (- ms / 1000)))
      by (unfold Int.INT_MIN, Int.INT_MAX; lia).
    rewrite (proj2 (Z.leb_gt 1 _)) by lia.
    rewrite (proj2 (Z.eqb_neq ms 0)) by lia.
    f_equal. apply wrap_small. unfold Int.INT_MIN, Int.INT_MAX. lia. }
  unfold msleep. rewrite Hreq.
  assert (valid_timespec (Timespec 0 (ms * 1000000)) = false) as Hv.
  { unfold valid_timespec. simpl. by rewrite (proj2 (Z.leb_gt 0 _)) by lia. }
  destruct naps as [|o naps]; simpl; unfold nanosleep; rewrite Hv; done.
Qed.

(** ** gridfile *)

Lemma store_frame (m m' : list Z) (i v : Z) :
  store m i v = Some m' → (v = 0 ∨ v = 1) →
  length m' = length m ∧
  (Forall (λ x, x = 0 ∨ x = 1) m → Forall (λ x, x = 0 ∨ x = 1) m').
Proof.
  unfold store. destruct (_ && _); [|done]. intros [= <-] Hv.
  split; [apply length_insert|]. intros Hm.
  by apply Forall_insert.
Qed.

(** The inner loop of [gridfile], whenever it returns, has changed
    nothing but cells of the grid, to 0 or 1. *)
Lemma scan_line_frame (p : list ascii) :
  (∀ r c st st', scan_line p r c st = Some st' →
     ∃ g, st' = set_grid g st ∧ length g = length (grid st) ∧
          (binary st → Forall (λ x, x = 0 ∨ x = 1) g)) ∧
  (∀ x r c st st', scan_line (x :: p) r c st = Some st' →
     ∃ g, st' = set_grid g st ∧ length g = length (grid st) ∧
          (binary st → Forall (λ x, x = 0 ∨ x = 1) g)).
Proof.
  induction p as [|a p [IH1 IH2]].
  - split; [done|]. intros x r c st st'. simpl.
    destruct (_ || _).
    + intros [= <-]. exists (grid st). by rewrite set_grid_id.
    + by destruct (store _ _ _).
  - split; [apply IH2|]. intros x r c st st'.
    cbn [scan_line]. destruct (_ || _).
    + intros [= <-]. exists (grid st). by rewrite set_grid_id.
    + destruct (store (grid st) _ _) as [g|] eqn:Hstore; [|done].
      cbn [mbind option_bind]. intros Hrun.
      apply store_frame in Hstore as [Hlen Hbin];
        [|destruct (Ascii.eqb x "1"); auto].
      destruct (IH1 _ _ _ _ Hrun) as (g' & -> & Hlen' & Hbin').
      exists g'. split; [done|]. split; [simpl in *; congruence|].
      intros Hb. apply Hbin'. unfold binary. simpl. by apply Hbin.
Qed.

Lemma scan_lines_frame (ls : list (list ascii)) : ∀ buf r st st',
  scan_lines ls buf r st = Some st' →
  ∃ g, st' = set_grid g st ∧ length g = length (grid st) ∧
       (binary st → Forall (λ x, x = 0 ∨ x = 1) g).
Proof.
  induction ls as [|l ls IH]; intros buf r st st'; simpl.
  - intros [= <-]. exists (grid st). by rewrite set_grid_id.
  - destruct (scan_line (getline buf l) r 0 st) as [st1|] eqn:Hline; [|done].
    cbn [mbind option_bind]. intros Hrest.
    destruct (proj1 (scan_line_frame _) _ _ _ _ Hline) as (g1 & -> & Hl1 & Hb1).
    destruct (IH _ _ _ _ Hrest) as (g2 & -> & Hl2 & Hb2).
    exists g2. split; [done|]. split; [simpl in *; congruence|].
    intros Hb. apply Hb2. unfold binary. simpl. by apply Hb1.
Qed.

(** X16: a call of [gridfile] whose behaviour is defined, that is, one
    that makes no store past the end of the grid buffer and reads no
    byte of the line buffer that [getline] never wrote, has touched
    nothing but cells of the grid and has written only 0 and 1: the
    dimensions, the scratch buffer, the terminal size and the generation
    counter are as before, the buffer has its length, a grid of dead and
    alive cells is still one, and a well-formed state is still
    well-formed.  It returns -1 exactly when the file cannot be opened,
    and then the grid is untouched; otherwise 0.  Nothing is said of a
    call that leaves its buffers. *)
Theorem gridfile_changes_only_cells content st rc st' :
  gridfile content st = Some (rc, st') →
  (rc = -1 ↔ content = None) ∧ (rc = 0 ↔ content ≠ None) ∧
  (content = None → st' = st) ∧
  gw st' = gw st ∧ gh st' = gh st ∧ gs st' = gs st ∧
  diff st' = diff st ∧ rows st' = rows st ∧ cols st' = cols st ∧
  generation st' = generation st ∧
  length (grid st') = length (grid st) ∧
  (binary st → binary st') ∧ (wf st → wf st').
Proof.
  unfold gridfile. destruct content as [bytes|].
  - destruct (scan_lines _ [] 0 st) as [st1|] eqn:Hrun; [|done].
    intros [= <- <-].
    destruct (scan_lines_frame _ _ _ _ _ Hrun) as (g & -> & Hlen & Hb).
    split; [done|]. split; [done|]. split; [done|].
    do 7 (split; [done|]). split; [done|]. split; [exact Hb|].
    intros Hwf. by apply set_grid_wf.
  - intros [= <- <-]. split; [done|]. split; [split; [lia|done]|].
    do 9 (split; [done|]). split; auto.
Qed.

Lemma line_buffers_lookup ls : ∀ buf (r : nat) l,
  ls !! r = Some l →
  ∃ rest, line_buffers ls buf !! r = Some ((l ++ [NUL]) ++ rest).
Proof.
  induction ls as [|l0 ls IH]; intros buf r l Hl; [done|].
  destruct r as [|r].
  - injection Hl as ->. by eexists.
  - apply (IH (getline buf l0) r l Hl).
Qed.

(** X17: a file of at most [gh] lines loads when the scan of every line
    buffer (the line, its terminating NUL and, behind them, what earlier
    and longer lines left in the reused buffer) meets a NUL or a newline
    at an even offset after at most [gw] cells.  Then [gridfile]
    returns 0; the cell of row r and column c takes the character at
    offset 2 * c of the buffer of line r when the scan gets there (alive
    for '1', dead for any other) and keeps its state otherwise.  The
    buffer of a line starts with the line and its NUL; when the scan
    ends within these, the characters decoded are those of the line, and
    when it steps over the NUL (a line of odd length without newline)
    they go on with the leftover of the earlier lines. *)
Theorem gridfile_loads_a_file_that_fits st bytes :
  wf st → scans_fit st (file_buffers bytes) →
  let ls := split_lines [] bytes in
  let bs := file_buffers bytes in
  ∃ st', gridfile (Some bytes) st = Some (0, st') ∧ wf st' ∧
    ∀ r c, 0 ≤ r < gh st → 0 ≤ c < gw st →
      cell st' r c = default (cell st r c) (buffer_cell bs r c) ∧
      (∀ v, buffer_cell bs r c = Some v →
         ∃ b ch, bs !! Z.to_nat r = Some b ∧
                 b !! (2 * Z.to_nat c)%nat = Some ch ∧
                 ch ≠ NUL ∧ ch ≠ NL ∧ v = char_bit ch) ∧
      (∀ b ch, bs !! Z.to_nat r = Some b →
         b !! (2 * Z.to_nat c)%nat = Some ch →
         (∀ k x, (k ≤ Z.to_nat c)%nat →
                 b !! (2 * k)%nat = Some x → x ≠ NUL ∧ x ≠ NL) →
         cell st' r c = char_bit ch) ∧
      (∀ l, ls !! Z.to_nat r = Some l →
         (∃ rest, bs !! Z.to_nat r = Some ((l ++ [NUL]) ++ rest)) ∧
         (∀ cs, line_cells (l ++ [NUL]) = Some cs →
                buffer_cell bs r c = cs !! Z.to_nat c)) ∧
      ((∀ r c, cell st r c = 0) →
       (cell st' r c = 1 ↔ buffer_cell bs r c = Some 1)).
Proof.
  intros Hwf Hfit ls bs.
  destruct (gridfile_scans_fit st bytes Hwf Hfit)
    as (st' & Hrun & Hwf' & _ & _ & _ & Hcell).
  exists st'. split; [done|]. split; [done|].
  intros r c Hr Hc. fold bs in Hcell. rewrite Hcell by done.
  split; [done|].
  assert (∀ b, bs !! Z.to_nat r = Some b →
            buffer_cell bs r c = cs ← line_cells b; cs !! Z.to_nat c)
    as Hbc.
  { intros b Hb. unfold buffer_cell.
    rewrite (proj2 (Z.leb_le 0 r)), (proj2 (Z.leb_le 0 c)) by lia.
    simpl. by rewrite Hb. }
  split; [|split; [|split]].
  - intros v Hv. unfold buffer_cell in Hv.
    rewrite (proj2 (Z.leb_le 0 r)), (proj2 (Z.leb_le 0 c)) in Hv by lia.
    simpl in Hv.
    destruct (bs !! Z.to_nat r) as [b|] eqn:Hb; [|done]. simpl in Hv.
    destruct (line_cells b) as [cs|] eqn:Hcs; [|done].
    simpl in Hv.
    destruct (line_cells_lookup cs _ _ _ Hcs Hv) as (ch & Hch & -> & Hn & Hnl).
    by exists b, ch.
  - intros b ch Hb Hch Hclean. rewrite (Hbc b Hb).
    destruct Hfit as [_ Hall]. fold bs in Hall.
    rewrite Forall_lookup in Hall.
    destruct (Hall _ _ Hb) as (cs & Hcs & _). rewrite Hcs. simpl.
    by rewrite (line_cells_complete cs _ _ ch Hcs Hclean Hch).
  - intros l Hl.
    destruct (line_buffers_lookup ls [] _ l Hl) as [rest Hb].
    fold (file_buffers bytes) in Hb. fold bs in Hb.
    split; [by exists rest|]. intros cs Hcs.
    rewrite (Hbc _ Hb). by rewrite (line_cells_app cs _ rest Hcs).
  - intros Hdead. rewrite Hdead.
    destruct (buffer_cell bs r c) as [v|]; simpl; [|done].
    split; [by intros ->|by intros [= ->]].
Qed.

(** ** gridrand *)

(** X18: [gridrand(w, h)] on any well-formed state, whatever the grid
    held: it calls [random()] exactly once per cell of the first
    max(0, min(h, gh)) rows and max(0, min(w, gw)) columns, in row-major
    order, and overwrites each of those cells by its own draw; every
    other cell, the scratch buffer and the generation counter are left;
    dead-or-alive cells stay so.  With no line or no column no draw is
    made and no cell is written. *)
Theorem gridrand_draws_once_per_cell rnd st k0 w h :
  wf st →
  let H := Z.max 0 (Z.min h (gh st)) in
  let W := Z.max 0 (Z.min w (gw st)) in
  ∃ st', gridrand rnd w h (st, k0) = Some (st', (k0 + Z.to_nat (H * W))%nat) ∧
    wf st' ∧ diff st' = diff st ∧ generation st' = generation st ∧
    (∀ r c, 0 ≤ r < gh st → 0 ≤ c < gw st →
       cell st' r c =
         if decide (r < H ∧ c < W)
         then seed_bit (rnd (k0 + Z.to_nat (r * W + c))%nat)
         else cell st r c) ∧
    (binary st → binary st') ∧
    (h ≤ 0 ∨ w ≤ 0 → ∀ r c, cell st' r c = cell st r c).
Proof.
  intros Hwf H W.
  pose proof (wf_gw st Hwf) as Hgw. pose proof (wf_gh st Hwf) as Hgh.
  assert (0 ≤ H ≤ gh st) as HH by (unfold H; lia).
  assert (0 ≤ W ≤ gw st) as HW by (unfold W; lia).
  destruct (gridrand_rows rnd st k0 W H Hwf HH HW) as (g & Hrows & Hlen & _).
  destruct (gridrand_spec rnd st k0 w h Hwf)
    as (st' & k' & Hrun & Hwf' & Hw & Hh & _ & Hdiff & Hgen & Hcell).
  assert (gridrand rnd w h (st, k0)
          = Some (set_grid g st, (k0 + Z.to_nat (H * W))%nat)) as Hrun'.
  { rewrite <- Hrows. unfold gridrand, for_lt. simpl fst.
    replace (Z.to_nat (Z.min h (gh st) - 0)) with (Z.to_nat (H - 0))
      by (unfold H; lia).
    by replace (Z.to_nat (Z.min w (gw st) - 0)) with (Z.to_nat (W - 0))
      by (unfold W; lia). }
  rewrite Hrun in Hrun'. injection Hrun' as Hst Hk.
  exists st'. split; [by rewrite Hrun, Hk|].
  do 3 (split; [done|]).
  assert (∀ r c, 0 ≤ r < gh st → 0 ≤ c < gw st →
            cell st' r c =
              if decide (r < H ∧ c < W)
              then seed_bit (rnd (k0 + Z.to_nat (r * W + c))%nat)
              else cell st r c) as Hcell'.
  { intros r c Hr Hc. rewrite Hcell by done.
    destruct (decide (r < Z.min h (gh st) ∧ c < Z.min w (gw st))) as [Hin|Hout].
    - rewrite decide_True by (unfold H, W; lia).
      by replace W with (Z.min w (gw st)) by (unfold W; lia).
    - by rewrite decide_False by (unfold H, W; lia). }
  split; [done|]. split.
  - intros Hb. apply binary_of_cells; [done|]. rewrite Hw, Hh.
    intros r c Hr Hc. rewrite Hcell' by done.
    case_decide; [apply seed_bit_binary|by apply cell_binary].
  - intros Hnone r c. destruct (in_grid st r c) eqn:Hin.
    + apply in_grid_spec in Hin as [Hr Hc]. rewrite Hcell' by done.
      by rewrite decide_False by (unfold H, W; lia).
    + unfold cell, in_grid in *. by rewrite Hw, Hh, Hin.
Qed.

(** ** The command line *)

Lemma parse_flags_app e fs1 fs2 cfg :
  parse_flags e (fs1 ++ fs2) cfg =
    parse_flags e fs1 cfg ≫= parse_flags e fs2.
Proof.
  revert cfg. induction fs1 as [|f fs1 IH]; intros cfg; simpl; [done|].
  destruct (parse_flag e f cfg) as [cfg'| |]; simpl; [apply IH|done..].
Qed.

Lemma parse_good_flags e fs : ∀ cfg,
  Forall good_flag fs →
  parse_flags e fs cfg =
    Ret (Config (last_arg "d" fs (delay cfg)) (last_arg "g" fs (gen cfg))
           (last_arg "n" fs (ticks cfg))).
Proof.
  induction fs as [|[ch arg] fs IH]; intros cfg Hgood.
  - by destruct cfg.
  - apply Forall_cons in Hgood as [[Hch [a Ha]] Hgood].
    simpl in Hch, Ha. subst arg.
    rewrite !elem_of_cons, elem_of_nil in Hch.
    destruct Hch as [->|[->|[->|[]]]].
    + change (parse_flags e (("d"%char, Some a) :: fs) cfg)
        with (parse_flags e fs (Config (atoi a) (gen cfg) (ticks cfg))).
      by rewrite IH.
    + change (parse_flags e (("g"%char, Some a) :: fs) cfg)
        with (parse_flags e fs (Config (delay cfg) (atoi a) (ticks cfg))).
      by rewrite IH.
    + change (parse_flags e (("n"%char, Some a) :: fs) cfg)
        with (parse_flags e fs (Config (delay cfg) (gen cfg) (atoi a))).
      by rewrite IH.
Qed.

Lemma last_arg_absent ch fs d :
  Forall (λ f : ascii * option string, f.1 ≠ ch) fs → last_arg ch fs d = d.
Proof.
  intros Hother. unfold last_arg. revert d.
  induction Hother as [|f fs Hf _ IH]; intros d; simpl; [done|].
  rewrite (proj2 (Ascii.eqb_neq _ _) Hf). apply IH.
Qed.

Lemma last_arg_last ch before a after d :
  Forall (λ f : ascii * option string, f.1 ≠ ch) after →
  last_arg ch (before ++ (ch, Some a) :: after) d = atoi a.
Proof.
  intros Hother. unfold last_arg. rewrite fold_left_app. simpl.
  rewrite Ascii.eqb_refl. by apply last_arg_absent.
Qed.

(** X19: on a command line of [-d], [-g] and [-n] flags, each with its
    argument, in any number and order, the flags are all accepted; a
    setting without a flag keeps its default (delay 250, warm-up 0,
    budget 0), and a setting with flags takes the [atoi] of the argument
    of the last of them: later flags override earlier ones, and flags of
    different letters do not disturb each other. *)
Theorem last_flag_wins e fs :
  Forall good_flag fs →
  ∃ cfg, parse_flags e fs (Config 250 0 0) = Ret cfg ∧
    (Forall (λ f, f.1 ≠ "d"%char) fs → delay cfg = 250) ∧
    (Forall (λ f, f.1 ≠ "g"%char) fs → gen cfg = 0) ∧
    (Forall (λ f, f.1 ≠ "n"%char) fs → ticks cfg = 0) ∧
    (∀ before a after, fs = before ++ ("d"%char, Some a) :: after →
       Forall (λ f, f.1 ≠ "d"%char) after → delay cfg = atoi a) ∧
    (∀ before a after, fs = before ++ ("g"%char, Some a) :: after →
       Forall (λ f, f.1 ≠ "g"%char) after → gen cfg = atoi a) ∧
    (∀ before a after, fs = before ++ ("n"%char, Some a) :: after →
       Forall (λ f, f.1 ≠ "n"%char) after → ticks cfg = atoi a).
Proof.
  intros Hgood. eexists.
  split; [by apply (parse_good_flags e fs (Config 250 0 0))|].
  cbn [delay gen ticks].
  do 3 (split; [apply last_arg_absent|]).
  repeat split; intros before a after -> Hafter; by apply last_arg_last.
Qed.

(** X20: the flags are read from left to right and the first one that is
    not a [-d], [-g] or [-n] with its argument ends the process before
    anything is allocated, read or drawn, whatever follows it on the
    command line and whatever the environment: [-v] prints the version,
    an unknown flag or a missing argument prints the usage; the status
    is 0 and the settings read so far are dropped. *)
Theorem first_bad_flag_ends_the_run fuel e good ch arg rest file :
  Forall good_flag good →
  (ch = "v"%char →
   main fuel e (Args (good ++ (ch, arg) :: rest) file)
     = Exit 0 (version_message e)) ∧
  (ch ∉ ["d"; "g"; "n"; "v"]%char ∨ (ch ≠ "v"%char ∧ arg = None) →
   main fuel e (Args (good ++ (ch, arg) :: rest) file)
     = Exit 0 (usage_message e)).
Proof.
  intros Hgood. unfold main. cbn [a_flags].
  rewrite parse_flags_app, parse_good_flags, run_bind_ret by done.
  cbn [parse_flags]. split.
  - intros ->. reflexivity.
  - intros [Hch|[Hv ->]].
    + rewrite !not_elem_of_cons in Hch.
      destruct Hch as (Hd & Hg & Hn & Hv & _).
      rewrite <- Ascii.eqb_neq in Hd, Hg, Hn, Hv.
      unfold parse_flag. by rewrite Hd, Hg, Hn, Hv.
    + rewrite <- Ascii.eqb_neq in Hv. unfold parse_flag. rewrite Hv.
      by repeat (destruct (Ascii.eqb ch _)).
Qed.

(** ** The whole run *)

Lemma parse_flag_range e f cfg cfg' :
  parse_flag e f cfg = Ret cfg' →
  Int.in_range (gen cfg) → Int.in_range (ticks cfg) →
  Int.in_range (gen cfg') ∧ Int.in_range (ticks cfg').
Proof.
  destruct f as [ch [s|]]; unfold parse_flag, usage, die; simpl;
    destruct (Ascii.eqb_spec ch "d"); try (intros [= <-]; by simpl);
    destruct (Ascii.eqb_spec ch "g");
      try (intros [= <-]; simpl; split; [apply atoi_range|done]);
    destruct (Ascii.eqb_spec ch "n");
      try (intros [= <-]; simpl; split; [done|apply atoi_range]);
    destruct (Ascii.eqb_spec ch "v"); done.
Qed.

Lemma parse_flags_range e fs : ∀ cfg cfg',
  parse_flags e fs cfg = Ret cfg' →
  Int.in_range (gen cfg) → Int.in_range (ticks cfg) →
  Int.in_range (gen cfg') ∧ Int.in_range (ticks cfg').
Proof.
  induction fs as [|f fs IH]; intros cfg cfg'; simpl.
  - by intros [= <-].
  - destruct (parse_flag e f cfg) as [cfg1| |] eqn:Hf; try done.
    rewrite run_bind_ret. intros Hfs Hg Ht.
    destruct (parse_flag_range e f cfg cfg1 Hf Hg Ht) as [Hg1 Ht1].
    by apply (IH cfg1).
Qed.

(** The warm-up loop is still going at each of its first [gen] tests. *)
Lemma warmup_cycles (j : nat) : ∀ d,
  wf (d_state d) → (j ≤ Z.to_nat (d_gen d))%nat → d_gen d ≤ Int.INT_MAX →
  ∃ d', steps j (WarmingUp, d) = Some (WarmingUp, d').
Proof.
  induction j as [|j IH]; intros d Hwf Hj Hmax; [by exists d|].
  rewrite steps_S. unfold step.
  rewrite (proj2 (Z.ltb_lt 0 (d_gen d))) by lia.
  rewrite tick_closed by done. cbn [mbind option_bind].
  assert (d_gen d -i 1 = d_gen d - 1) as Hdec
    by (apply int_sub_small; unfold Int.INT_MIN, Int.INT_MAX in *; lia).
  apply IH; cbn [d_state d_gen]; [by apply ticked_wf|lia|lia].
Qed.

(** X21: the whole run with a budget.  Started without a pattern file,
    with flags that are accepted and give a budget of [n] passes,
    1 <= n, and a warm-up of [g] generations, and with both buffers
    allocated, the process returns from [main] with status 0 and nothing
    on standard error after exactly max(g, 0) + 1 tests of the warm-up
    loop and [n] passes of the main loop; until then it is still
    running. *)
Theorem main_with_budget_returns_on_time e a cfg :
  parse_flags e (a_flags a) (Config 250 0 0) = Ret cfg →
  a_file a = None →
  e_calloc_grid e = true → e_calloc_diff e = true →
  1 ≤ ticks cfg →
  let k := (S (Z.to_nat (gen cfg)) + Z.to_nat (ticks cfg))%nat in
  ∀ fuel : nat,
    ((k ≤ fuel)%nat → main fuel e a = Exit 0 EmptyString) ∧
    ((fuel < k)%nat → ∃ p d, main fuel e a = Ret (p, d) ∧ p ≠ Terminated).
Proof.
  intros Hflags Hfile Hg Hd Hn k fuel.
  destruct (main_loop e a cfg Hflags Hfile Hg Hd) as (st & Hwf & _ & Hmain).
  destruct (parse_flags_range e _ _ _ Hflags) as [[_ Hgmax] [_ Htmax]];
    [unfold Int.in_range, Int.INT_MIN, Int.INT_MAX; simpl; lia..|].
  rewrite Hmain.
  set (d0 := Driver st (delay cfg) (gen cfg) (ticks cfg) []).
  pose proof (warmup_run (Z.to_nat (gen cfg)) d0 Hwf eq_refl Hgmax) as Hwarm.
  cbn [d0 d_state d_delay d_gen d_ticks d_trace] in Hwarm.
  match type of Hwarm with _ = Some (_, ?d) => set (d1 := d) in * end.
  assert (wf (d_state d1)) as Hwf1 by (by apply iter_ticked_wf).
  split.
  - intros Hk.
    replace fuel
      with (S (Z.to_nat (gen cfg)) + (Z.to_nat (ticks cfg) + (fuel - k)))%nat
      by lia.
    rewrite steps_add, Hwarm. cbn [mbind option_bind].
    destruct (budget_loop d1 Hwf1) as [d' Hend]; [simpl; lia|].
    cbn [d1 d_ticks] in Hend.
    rewrite steps_add, Hend. cbn [mbind option_bind].
    by rewrite steps_terminated.
  - intros Hk.
    destruct (decide (fuel ≤ Z.to_nat (gen cfg))%nat) as [Hle|Hgt].
    + destruct (warmup_cycles fuel d0 Hwf Hle Hgmax) as [d' ->].
      by exists WarmingUp, d'.
    + replace fuel
        with (S (Z.to_nat (gen cfg)) + (fuel - S (Z.to_nat (gen cfg))))%nat
        by lia.
      rewrite steps_add, Hwarm. cbn [mbind option_bind].
      destruct (running_cycles (fuel - S (Z.to_nat (gen cfg))) d1 Hwf1)
        as (d' & -> & _).
      * intros i Hi. cbn [d1 d_ticks].
        rewrite wrap_small; unfold Int.INT_MIN, Int.INT_MAX in *; lia.
      * by exists Running, d'.
Qed.

Lemma populate_invariant e file st st' :
  wf st → binary st → populate e file st = Ret st' →
  wf st' ∧ binary st' ∧ gw st' = gw st ∧ gh st' = gh st ∧ gs st' = gs st.
Proof.
  intros Hwf Hb. unfold populate. destruct file as [f|].
  - destruct (gridfile (e_fopen e f) st) as [[rc st1]|] eqn:Hrun; [|done].
    unfold gridfile in Hrun. destruct (e_fopen e f) as [bytes|].
    + destruct (scan_lines _ [] 0 st) as [st2|] eqn:Hscan; [|done].
      injection Hrun as <- <-. simpl. intros [= <-].
      destruct (scan_lines_frame _ _ _ _ _ Hscan) as (g & -> & Hlen & Hbin).
      split; [by apply set_grid_wf|]. split; [by apply Hbin|done].
    + by injection Hrun as <- <-.
  - destruct (gridrand_spec (e_random e) st O (cols st) (rows st) Hwf)
      as (st1 & k' & Hrun & Hwf' & Hw & Hh & Hs & _ & _ & Hcell).
    rewrite Hrun. simpl. intros [= <-].
    split; [done|]. split; [|done].
    apply binary_of_cells; [done|]. rewrite Hw, Hh. intros r c Hr Hc.
    rewrite Hcell by done.
    case_decide; [apply seed_bit_binary|by apply cell_binary].
Qed.




Lemma fresh_state_wf e : wf (fresh_state e).
Proof.
  constructor; cbn [fresh_state gw gh gs grid diff generation];
    try done; apply length_replicate.
Qed.

Lemma alloc_grids_fresh e :
  e_calloc_grid e = true → e_calloc_diff e = true →
  alloc_grids e (setup e initial_state) = Ret (fresh_state e).
Proof.
  intros Hg Hd. unfold alloc_grids, ecalloc. rewrite Hg, Hd. reflexivity.
Qed.




Lemma iter_ticked_binary (n : nat) st :
  wf st → binary st → binary (Nat.iter n ticked st).
Proof.
  intros Hwf Hb. induction n as [|n IH]; simpl; [done|].
  apply ticked_binary; [by apply iter_ticked_wf|done].
Qed.

(** The run [cgol -g 2147483647] makes 2147483647 generations in the
    warm-up loop and enters the main loop with the counter at
    [INT_MAX]; the first pass of the main loop makes the call of [tick]
    that overflows it. *)
Lemma main_reaches_int_max e :
  e_calloc_grid e = true → e_calloc_diff e = true →
  let a := Args [("g"%char, Some "2147483647"%string)] None in
  (∃ d, main (S (Z.to_nat 2147483647)) e a = Ret (Running, d) ∧
        wf (d_state d) ∧ binary (d_state d) ∧
        generation (d_state d) = Int.INT_MAX) ∧
  (∃ d, main (S (S (Z.to_nat 2147483647))) e a = Ret (Running, d) ∧
        generation (d_state d) = Int.INT_MIN).
Proof.
  intros Hg Hd a.
  pose proof (fresh_state_wf e) as Hwf0.
  destruct (gridrand_spec (e_random e) (fresh_state e) O
              (cols (fresh_state e)) (rows (fresh_state e)) Hwf0)
    as (st & k' & Hrand & Hwf & _ & _ & _ & _ & Hgen & _).
  assert (populate e None (fresh_state e) = Ret st) as Hpop
    by (unfold populate; by rewrite Hrand).
  destruct (populate_invariant e None _ _ Hwf0
              (replicate_binary (Z.to_nat 65536) (fresh_state e) eq_refl)
              Hpop)
    as (_ & Hb & _).
  set (d0 := Driver st 250 2147483647 0 []).
  assert (∀ fuel, main fuel e a =
            '(p, d) ← lift (steps fuel (WarmingUp, d0));
            match p with
            | Terminated => Exit 0 EmptyString
            | _ => Ret (p, d)
            end) as Hmain.
  { intros fuel. unfold main, a. cbn [a_flags a_file].
    change (parse_flags e [("g"%char, Some "2147483647"%string)]
              (Config 250 0 0))
      with (Ret (Config 250 (atoi "2147483647") 0) : run config).
    rewrite run_bind_ret, (alloc_grids_fresh e Hg Hd), run_bind_ret, Hpop,
      run_bind_ret.
    done. }
  pose proof (warmup_run (Z.to_nat 2147483647) d0 Hwf eq_refl) as Hwarm.
  cbn [d0 d_state d_delay d_gen d_ticks d_trace] in Hwarm.
  specialize (Hwarm ltac:(unfold Int.INT_MAX; lia)).
  match type of Hwarm with _ = Some (_, ?d) => set (d1 := d) in * end.
  assert (wf (d_state d1)) as Hwf1 by (by apply iter_ticked_wf).
  assert (generation (d_state d1) = Int.INT_MAX) as Hgen1.
  { cbn [d1 d_state]. rewrite iter_ticked_generation; [|done|].
    - rewrite Hgen. unfold Int.INT_MAX. cbn [fresh_state generation]. lia.
    - rewrite Hgen. unfold Int.INT_MAX. cbn [fresh_state generation]. lia. }
  split.
  - exists d1. split; [by rewrite Hmain, Hwarm|].
    split; [done|]. split; [by apply iter_ticked_binary|done].
  - destruct (step_running d1 Hwf1) as (out & _ & Hstep).
    change (d_ticks d1 -i 1 =? 0) with false in Hstep.
    eexists. split.
    + rewrite Hmain, steps_snoc, Hwarm. cbn [mbind option_bind].
      rewrite Hstep. reflexivity.
    + cbn [d_state ticked generation]. by rewrite Hgen1.
Qed.

(** ** The further properties at concrete inputs *)

Ltac cells_5x5 r c Hr Hc :=
  simpl in Hr, Hc;
  assert (r = 0 ∨ r = 1 ∨ r = 2 ∨ r = 3 ∨ r = 4) as Hr' by lia;
  assert (c = 0 ∨ c = 1 ∨ c = 2 ∨ c = 3 ∨ c = 4) as Hc' by lia;
  destruct Hr' as [->|[->|[->|[->| ->]]]];
  destruct Hc' as [->|[->|[->|[->| ->]]]]; reflexivity.

Ltac wf_5x5 :=
  constructor; simpl; unfold Int.in_range, Int.INT_MIN, Int.INT_MAX;
    (lia || reflexivity).

Ltac binary_5x5 :=
  unfold binary; simpl;
  repeat (apply Forall_cons; split;
          [(left; reflexivity) || (right; reflexivity)|]);
  apply Forall_nil_2.

Lemma dead_5x5_wf : wf dead_5x5.
Proof. wf_5x5. Defined.

Lemma dot_5x5_wf : wf dot_5x5.
Proof. wf_5x5. Defined.

Lemma block_5x5_wf : wf block_5x5.
Proof. wf_5x5. Defined.

Lemma block_5x5_binary : binary block_5x5.
Proof. binary_5x5. Defined.

Lemma tick_is_life_cut_to_grid_witness :
  wf blinker_5x5 ∧ shows blinker_5x5 (hline 2 2) ∧
  ∃ st', tick blinker_5x5 = Some st' ∧ shows st' (life (hline 2 2)) ∧
         cell st' 1 2 = 1 ∧ cell st' 2 1 = 0.
Proof.
  split; [exact blinker_5x5_wf|]. split; [exact blinker_5x5_shows|].
  destruct (tick_is_life_cut_to_grid blinker_5x5 (hline 2 2) blinker_5x5_wf
              blinker_5x5_shows) as (st' & Htick & Hsh & _ & _ & Hw & Hh).
  - intros r c. unfold hline. destruct (_ && _); auto.
  - intros r c. unfold hline. simpl. settle_comparisons; (done || lia).
  - exists st'. split; [exact Htick|]. split; [exact Hsh|].
    split; apply Hsh; rewrite ?Hw, ?Hh; simpl; lia.
Defined.

Lemma tick_dead_grid_stays_dead_witness :
  wf dead_5x5 ∧
  ∃ st', tick dead_5x5 = Some st' ∧ grid st' = replicate 25 0.
Proof.
  split; [exact dead_5x5_wf|].
  destruct (tick_dead_grid_stays_dead dead_5x5 dead_5x5_wf)
    as (st' & Htick & Hgrid & _).
  - intros r c _ _. apply (replicate_dead 25). reflexivity.
  - exists st'. split; [exact Htick|exact Hgrid].
Defined.

Lemma tick_lone_cell_dies_witness :
  wf dot_5x5 ∧ shows dot_5x5 (dot 0 0) ∧
  ∃ st', tick dot_5x5 = Some st' ∧ cell dot_5x5 0 0 = 1 ∧ cell st' 0 0 = 0.
Proof.
  assert (shows dot_5x5 (dot 0 0)) as Hsh
    by (intros r c Hr Hc; cells_5x5 r c Hr Hc).
  split; [exact dot_5x5_wf|]. split; [exact Hsh|].
  destruct (tick_lone_cell_dies dot_5x5 0 0 dot_5x5_wf)
    as (st' & Htick & Halive & Hdead); [simpl; lia..|exact Hsh|].
  exists st'. split; [exact Htick|]. split; [exact Halive|apply Hdead].
Defined.

Lemma tick_block_is_still_witness :
  wf block_5x5 ∧ shows block_5x5 (block 3 3) ∧
  ∃ st', tick block_5x5 = Some st' ∧ grid st' = grid block_5x5.
Proof.
  assert (shows block_5x5 (block 3 3)) as Hsh
    by (intros r c Hr Hc; cells_5x5 r c Hr Hc).
  split; [exact block_5x5_wf|]. split; [exact Hsh|].
  destruct (tick_block_is_still block_5x5 3 3 block_5x5_wf)
    as (st' & Htick & Hgrid & _); [simpl; lia..|exact Hsh|].
  exists st'. split; [exact Htick|exact Hgrid].
Defined.

Lemma tick_is_local_witness :
  wf blinker_5x5 ∧ binary blinker_5x5 ∧ wf block_5x5 ∧ binary block_5x5 ∧
  grid blinker_5x5 ≠ grid block_5x5 ∧
  ∃ st1' st2', tick blinker_5x5 = Some st1' ∧ tick block_5x5 = Some st2' ∧
               cell st2' 0 0 = cell st1' 0 0.
Proof.
  split; [exact blinker_5x5_wf|]. split; [exact blinker_5x5_binary|].
  split; [exact block_5x5_wf|]. split; [exact block_5x5_binary|].
  split; [intros H; discriminate H|].
  apply (tick_is_local blinker_5x5 block_5x5 0 0 blinker_5x5_wf
           blinker_5x5_binary block_5x5_wf block_5x5_binary eq_refl eq_refl);
    [simpl; lia..|].
  intros r' c' Hr Hc.
  assert (r' = -1 ∨ r' = 0 ∨ r' = 1) as [->|[->| ->]] by lia;
    assert (c' = -1 ∨ c' = 0 ∨ c' = 1) as [->|[->| ->]] by lia; reflexivity.
Defined.

Lemma neighbors_count_bounded_witness :
  wf blinker_5x5 ∧ binary blinker_5x5 ∧ 0 ≤ 12 < gs blinker_5x5 ∧
  ∃ n, neighbors blinker_5x5 12 = Some n ∧ 0 ≤ n ≤ 8.
Proof.
  split; [exact blinker_5x5_wf|]. split; [exact blinker_5x5_binary|].
  split; [simpl; lia|].
  destruct (neighbors_count_bounded blinker_5x5 12 blinker_5x5_wf
              blinker_5x5_binary) as (n & Hn & [H0 _] & H8); [simpl; lia|].
  exists n. split; [exact Hn|]. split; [exact H0|exact H8].
Defined.


Lemma draw_prints_the_visible_cells_witness :
  wf blinker_5x5 ∧ draw blinker_5x5 = Some (frame_text blinker_5x5).
Proof.
  split; [exact blinker_5x5_wf|].
  exact (proj1 (draw_prints_the_visible_cells blinker_5x5 blinker_5x5_wf)).
Defined.

Lemma draw_depends_on_visible_cells_witness :
  wf (resize 3 2 blinker_5x5) ∧ wf (resize 3 2 dead_5x5) ∧
  grid (resize 3 2 dead_5x5) ≠ grid (resize 3 2 blinker_5x5) ∧
  draw (resize 3 2 dead_5x5) = draw (resize 3 2 blinker_5x5).
Proof.
  assert (wf (resize 3 2 blinker_5x5)) as Hwf1 by wf_5x5.
  assert (wf (resize 3 2 dead_5x5)) as Hwf2 by wf_5x5.
  split; [exact Hwf1|]. split; [exact Hwf2|].
  split; [intros H; discriminate H|].
  apply (draw_depends_on_visible_cells (resize 3 2 blinker_5x5)
           (resize 3 2 dead_5x5) Hwf1 Hwf2 eq_refl eq_refl eq_refl eq_refl
           eq_refl).
  intros r c Hr Hc.
  change (Z.min (rows (resize 3 2 blinker_5x5) -i 1)
            (gh (resize 3 2 blinker_5x5))) with 2 in Hr.
  change (Z.min (cols (resize 3 2 blinker_5x5))
            (gw (resize 3 2 blinker_5x5))) with 2 in Hc.
  assert (r = 0 ∨ r = 1) as [->| ->] by lia;
    assert (c = 0 ∨ c = 1) as [->| ->] by lia; reflexivity.
Defined.

Lemma warmup_makes_gen_generations_witness :
  wf (d_state driver_5x5) ∧ d_gen driver_5x5 ≤ Int.INT_MAX ∧
  ∃ d', steps 3 (WarmingUp, driver_5x5) = Some (Running, d') ∧
        generation (d_state d') = 2 ∧ d_trace d' = [].
Proof.
  assert (d_gen driver_5x5 ≤ Int.INT_MAX) as Hmax
    by (unfold Int.INT_MAX; simpl; lia).
  split; [exact blinker_5x5_wf|]. split; [exact Hmax|].
  pose proof (warmup_makes_gen_generations driver_5x5 blinker_5x5_wf Hmax)
    as Hrun.
  cbv zeta in Hrun.
  destruct Hrun as (d' & Hsteps & _ & Htrace & _ & _ & _ & _ & Hgen).
  exists d'. split; [exact Hsteps|]. split; [|exact Htrace].
  apply Hgen. unfold Int.INT_MAX. simpl. lia.
Defined.

Lemma budget_run_draws_n_frames_witness :
  wf (d_state driver_5x5) ∧ 1 ≤ d_ticks driver_5x5 ≤ Int.INT_MAX ∧
  ∃ d', steps 3 (Running, driver_5x5) = Some (Terminated, d') ∧
        d_ticks d' = 0 ∧ length (d_trace d') = 5%nat.
Proof.
  assert (1 ≤ d_ticks driver_5x5 ≤ Int.INT_MAX) as Hn
    by (unfold Int.INT_MAX; simpl; lia).
  split; [exact blinker_5x5_wf|]. split; [exact Hn|].
  pose proof (budget_run_draws_n_frames driver_5x5 blinker_5x5_wf Hn) as Hrun.
  cbv zeta in Hrun.
  destruct Hrun as (d' & Hsteps & _ & Hticks & Htrace & _).
  exists d'. split; [exact Hsteps|]. split; [exact Hticks|].
  rewrite Htrace. reflexivity.
Defined.

Lemma msleep_requests_ms_milliseconds_witness :
  0 ≤ 1250 ≤ Int.INT_MAX ∧
  tv_sec (msleep_request 1250) = 1 ∧
  tv_nsec (msleep_request 1250) = 250000000.
Proof.
  assert (0 ≤ 1250 ≤ Int.INT_MAX) as Hms by (unfold Int.INT_MAX; lia).
  split; [exact Hms|].
  destruct (msleep_requests_ms_milliseconds 1250 Hms) as (Hs & Hns & _).
  split; [exact Hs|exact Hns].
Defined.

Lemma msleep_resumes_for_the_rest_witness :
  0 ≤ 250 ≤ Int.INT_MAX ∧
  (msleep [Interrupted (Timespec 0 100000000)] 250).1 = 0 ∧
  length (msleep [Interrupted (Timespec 0 100000000)] 250).2 = 2%nat ∧
  time_asleep (msleep [Interrupted (Timespec 0 100000000)] 250).2
    = 250000000.
Proof.
  assert (0 ≤ 250 ≤ Int.INT_MAX) as Hms by (unfold Int.INT_MAX; lia).
  split; [exact Hms|]. split; [reflexivity|]. split; [reflexivity|].
  destruct (msleep_resumes_for_the_rest
              [Interrupted (Timespec 0 100000000)] 250 Hms)
    as (_ & _ & _ & Htime).
  apply Htime. reflexivity.
Defined.

Lemma msleep_negative_delay_fails_witness :
  -2147 ≤ -5 < 0 ∧
  msleep [] (-5) = (-1, [(Timespec 0 (-5000000), Failed)]).
Proof.
  assert (-2147 ≤ -5 < 0) as Hms by lia.
  split; [exact Hms|].
  exact (proj1 (msleep_negative_delay_fails [] (-5) Hms)).
Defined.

Lemma gridfile_changes_only_cells_witness :
  gridfile (Some file_odd_tail) dead_5x5
    = Some (0, set_grid ([1; 1; 1; 1; 0; 1; 1; 1; 1; 0] ++ replicate 15 0)
                 dead_5x5) ∧
  diff (set_grid ([1; 1; 1; 1; 0; 1; 1; 1; 1; 0] ++ replicate 15 0) dead_5x5)
    = diff dead_5x5 ∧
  wf (set_grid ([1; 1; 1; 1; 0; 1; 1; 1; 1; 0] ++ replicate 15 0) dead_5x5).
Proof.
  assert (gridfile (Some file_odd_tail) dead_5x5
          = Some (0, set_grid ([1; 1; 1; 1; 0; 1; 1; 1; 1; 0] ++
                               replicate 15 0) dead_5x5))
    as Hrun by reflexivity.
  split; [exact Hrun|].
  destruct (gridfile_changes_only_cells _ _ _ _ Hrun)
    as (_ & _ & _ & _ & _ & _ & Hdiff & _ & _ & _ & _ & _ & Hwf).
  split; [exact Hdiff|exact (Hwf dead_5x5_wf)].
Defined.

Lemma gridfile_loads_a_file_that_fits_witness :
  wf dead_5x5 ∧ scans_fit dead_5x5 (file_buffers file_odd_tail) ∧
  ∃ st', gridfile (Some file_odd_tail) dead_5x5 = Some (0, st') ∧
         cell st' 0 0 = 1 ∧ cell st' 0 3 = 1 ∧ cell st' 0 4 = 0 ∧
         cell st' 1 0 = 1 ∧ cell st' 1 1 = 1 ∧ cell st' 1 3 = 1 ∧
         cell st' 2 0 = 0.
Proof.
  assert (scans_fit dead_5x5 (file_buffers file_odd_tail)) as Hfit.
  { split; [simpl; lia|].
    apply Forall_cons. split; [exists [1; 1; 1; 1]; split;
                                 [reflexivity|simpl; lia]|].
    apply Forall_cons. split; [exists [1; 1; 1; 1]; split;
                                 [reflexivity|simpl; lia]|].
    apply Forall_nil_2. }
  split; [exact dead_5x5_wf|]. split; [exact Hfit|].
  pose proof (gridfile_loads_a_file_that_fits dead_5x5 file_odd_tail
                dead_5x5_wf Hfit) as Hload.
  cbv zeta in Hload. destruct Hload as (st' & Hrun & _ & Hcells).
  exists st'. split; [exact Hrun|].
  split; [|split; [|split; [|split; [|split; [|split]]]]].
  - destruct (Hcells 0 0) as [H _]; [simpl; lia..|]. exact H.
  - destruct (Hcells 0 3) as [H _]; [simpl; lia..|]. exact H.
  - destruct (Hcells 0 4) as [H _]; [simpl; lia..|]. exact H.
  - destruct (Hcells 1 0) as [H _]; [simpl; lia..|]. exact H.
  - destruct (Hcells 1 1) as [H _]; [simpl; lia..|]. exact H.
  - destruct (Hcells 1 3) as [H _]; [simpl; lia..|]. exact H.
  - destruct (Hcells 2 0) as [H _]; [simpl; lia..|]. exact H.
Defined.

Lemma gridrand_draws_once_per_cell_witness :
  wf blinker_5x5 ∧
  ∃ st', gridrand (λ k, Z.of_nat k) 3 2 (blinker_5x5, O) = Some (st', 6%nat) ∧
         cell st' 0 0 = 1 ∧ cell st' 1 1 = 1 ∧ cell st' 2 1 = 1 ∧
         cell st' 0 1 = 0.
Proof.
  split; [exact blinker_5x5_wf|].
  pose proof (gridrand_draws_once_per_cell (λ k, Z.of_nat k) blinker_5x5 O 3 2
                blinker_5x5_wf) as Hrun.
  cbv zeta in Hrun.
  destruct Hrun as (st' & Hrun & _ & _ & _ & Hcells & _).
  exists st'. split; [exact Hrun|].
  split; [|split; [|split]].
  - rewrite Hcells by (simpl; lia). reflexivity.
  - rewrite Hcells by (simpl; lia). reflexivity.
  - rewrite Hcells by (simpl; lia). reflexivity.
  - rewrite Hcells by (simpl; lia). reflexivity.
Defined.

Lemma last_flag_wins_witness :
  Forall good_flag
    [("d"%char, Some "100"%string); ("n"%char, Some "5"%string);
     ("d"%char, Some "7"%string)] ∧
  ∃ cfg, parse_flags plain_env
           [("d"%char, Some "100"%string); ("n"%char, Some "5"%string);
            ("d"%char, Some "7"%string)] (Config 250 0 0) = Ret cfg ∧
         delay cfg = 7 ∧ gen cfg = 0 ∧ ticks cfg = 5.
Proof.
  assert (Forall good_flag
            [("d"%char, Some "100"%string); ("n"%char, Some "5"%string);
             ("d"%char, Some "7"%string)]) as Hgood.
  { repeat (apply Forall_cons; split;
            [split; [simpl; rewrite !elem_of_cons; auto|by eexists]|]).
    apply Forall_nil_2. }
  split; [exact Hgood|].
  destruct (last_flag_wins plain_env _ Hgood)
    as (cfg & Hrun & _ & Hg & _ & Hd & _ & Hn).
  exists cfg. split; [exact Hrun|]. split; [|split].
  - apply (Hd [("d"%char, Some "100"%string); ("n"%char, Some "5"%string)]
             "7"%string []); [reflexivity|apply Forall_nil_2].
  - apply Hg.
    repeat (apply Forall_cons; split; [simpl; intros H; discriminate H|]).
    apply Forall_nil_2.
  - apply (Hn [("d"%char, Some "100"%string)] "5"%string
             [("d"%char, Some "7"%string)]); [reflexivity|].
    apply Forall_cons. split; [simpl; intros H; discriminate H|].
    apply Forall_nil_2.
Defined.

Lemma first_bad_flag_ends_the_run_witness :
  Forall good_flag [("d"%char, Some "100"%string)] ∧
  main 0 plain_env
    (Args ([("d"%char, Some "100"%string)] ++
           ("v"%char, None) :: [("x"%char, None)]) None)
    = Exit 0 (version_message plain_env).
Proof.
  assert (Forall good_flag [("d"%char, Some "100"%string)]) as Hgood.
  { apply Forall_cons. split; [|apply Forall_nil_2].
    split; [simpl; rewrite !elem_of_cons; auto|by eexists]. }
  split; [exact Hgood|].
  exact (proj1 (first_bad_flag_ends_the_run 0%nat plain_env _ "v"%char None
                  [("x"%char, None)] None Hgood) eq_refl).
Defined.

Lemma main_with_budget_returns_on_time_witness :
  parse_flags plain_env [("n"%char, Some "2"%string)] (Config 250 0 0)
    = Ret (Config 250 0 2) ∧
  e_calloc_grid plain_env = true ∧ e_calloc_diff plain_env = true ∧
  main 3 plain_env (Args [("n"%char, Some "2"%string)] None)
    = Exit 0 EmptyString ∧
  ∃ p d, main 2 plain_env (Args [("n"%char, Some "2"%string)] None)
           = Ret (p, d) ∧ p ≠ Terminated.
Proof.
  split; [reflexivity|]. split; [reflexivity|]. split; [reflexivity|].
  pose proof (main_with_budget_returns_on_time plain_env
                (Args [("n"%char, Some "2"%string)] None) (Config 250 0 2)
                eq_refl eq_refl eq_refl eq_refl) as Hrun.
  cbv zeta in Hrun. split.
  - apply Hrun; [simpl; lia|]. simpl. lia.
  - apply (Hrun ltac:(simpl; lia) 2%nat). simpl. lia.
Defined.

